(** * vocab: the spaced-repetition scheduler and the word-pair extractor

    A shallow embedding of [utils/sm2.ts] (the SM-2 scheduler) and of the two
    variants of [utils/ocr.ts] (the word-pair extractor), with the properties
    the specification states about them.

    Conventions of the embedding:
    - a JavaScript [number] is an exact rational ([Q]); comparisons are the
      boolean tests of [Q], [===] on numbers is [Qeq_bool], and [Math.round]
      is "nearest integer, ties towards plus infinity";
    - the ease factor update and the mastery score are also given on
      IEEE 754 doubles ([Binary64]), as the engine computes them: the
      rounding of the engine can undo what holds over the rationals, and for
      the mastery score it does;
    - [Date.now()] is an explicit argument [now] of the functions that read
      the clock;
    - a JavaScript string is the list of its UTF-16 code units. *)

From Stdlib Require Import ZArith QArith Qround Qminmax Lqa Lia.
From Stdlib Require Import List Bool String Ascii DecimalString Sorted.
From Stdlib Require Import Permutation.
From Stdlib Require Floats.
Import ListNotations.

(** ** JavaScript numbers *)

Definition number := Q.

Module Js.

Definition ltb (a b : number) : bool := negb (Qle_bool b a).
Definition leb (a b : number) : bool := Qle_bool a b.
Definition gtb (a b : number) : bool := ltb b a.
Definition geb (a b : number) : bool := leb b a.
(** [a === b] on numbers. *)
Definition eqb (a b : number) : bool := Qeq_bool a b.

(** [Math.round]: the nearest integer, a tie going up. *)
Definition round (x : number) : number := inject_Z (Qfloor (x + (1 # 2))).
(** [Math.floor]. *)
Definition floor (x : number) : number := inject_Z (Qfloor x).
(** [Math.min] of two numbers. *)
Definition min (a b : number) : number := if Qle_bool a b then a else b.

End Js.

Declare Scope js_scope.
Delimit Scope js_scope with js.
Infix "<?" := Js.ltb (at level 70, no associativity) : js_scope.
Infix "<=?" := Js.leb (at level 70, no associativity) : js_scope.
Infix ">?" := Js.gtb (at level 70, no associativity) : js_scope.
Infix ">=?" := Js.geb (at level 70, no associativity) : js_scope.
Infix "===" := Js.eqb (at level 70, no associativity) : js_scope.

(** ** JavaScript strings *)

(** A string is the list of its UTF-16 code units. *)
Definition jsstring := list N.

(** A literal of ASCII characters. *)
Definition str (s : string) : jsstring :=
  map N_of_ascii (list_ascii_of_string s).

Module Str.

Definition eqb (a b : jsstring) : bool :=
  if list_eq_dec N.eq_dec a b then true else false.

(** [WhiteSpace] and [LineTerminator] of the language: what [\s] matches
    and what [trim] strips. *)
Definition isWhiteSpace (c : N) : bool :=
  ((9 <=? c) && (c <=? 13) || (c =? 32) || (c =? 160) || (c =? 5760)
   || (8192 <=? c) && (c <=? 8202) || (c =? 8232) || (c =? 8233)
   || (c =? 8239) || (c =? 8287) || (c =? 12288) || (c =? 65279))%N.

(** [\d]. *)
Definition isDigit (c : N) : bool := ((48 <=? c) && (c <=? 57))%N.

Definition isAsciiUpper (c : N) : bool := ((65 <=? c) && (c <=? 90))%N.
Definition isAsciiLower (c : N) : bool := ((97 <=? c) && (c <=? 122))%N.

(** A line terminator: what [.] does not match. *)
Definition isLineTerminator (c : N) : bool :=
  ((c =? 10) || (c =? 13) || (c =? 8232) || (c =? 8233))%N.

Fixpoint trimStart (s : jsstring) : jsstring :=
  match s with
  | c :: s' => if isWhiteSpace c then trimStart s' else s
  | [] => []
  end.

Definition trimEnd (s : jsstring) : jsstring := rev (trimStart (rev s)).

Definition trim (s : jsstring) : jsstring := trimEnd (trimStart s).

(** [s.split(c)] for a separator of one code unit. *)
Fixpoint split (c : N) (s : jsstring) : list jsstring :=
  match s with
  | [] => [[]]
  | x :: s' =>
      if (x =? c)%N then [] :: split c s'
      else match split c s' with
           | piece :: pieces => (x :: piece) :: pieces
           | [] => [[x]]
           end
  end.

(** [parts.join(sep)]. *)
Fixpoint join (sep : jsstring) (parts : list jsstring) : jsstring :=
  match parts with
  | [] => []
  | [p] => p
  | p :: rest => p ++ sep ++ join sep rest
  end.

Fixpoint startsWith (s prefix : jsstring) : bool :=
  match prefix, s with
  | [], _ => true
  | p :: prefix', c :: s' => (c =? p)%N && startsWith s' prefix'
  | _ :: _, [] => false
  end.

Definition endsWith (s suffix : jsstring) : bool :=
  startsWith (rev s) (rev suffix).

Fixpoint includes (s sub : jsstring) : bool :=
  startsWith s sub
  || match s with
     | [] => false
     | _ :: s' => includes s' sub
     end.

(** The length as a number. *)
Definition length (s : jsstring) : number :=
  inject_Z (Z.of_nat (List.length s)).

(** A string is truthy when it is not empty. *)
Definition truthy (s : jsstring) : bool :=
  match s with [] => false | _ :: _ => true end.

(** The decimal digits of a whole number, as a template literal prints a
    number that is an integer (below 10^21, where the exponent form
    starts). *)
Definition ofInteger (x : number) : jsstring :=
  str (NilZero.string_of_int (Z.to_int (Qfloor x))).

End Str.

(** ** Regular expressions

    The expressions of the extractor all have one shape: an optional [^], a
    sequence of greedy quantified character classes, some of them captured by
    a group, and an optional [$]. They are matched over code units by
    backtracking, the longest repetition tried first. *)

Module RegExp.

(** [cls{lo,hi}], with [hi = None] for no upper bound; [capture] when a
    group encloses it. *)
Record atom := mkAtom {
  cls : N -> bool;
  lo : nat;
  hi : option nat;
  capture : bool
}.

(** A regular expression object: its pattern and its [g] and [y] flags. *)
Record t := mk {
  bol : bool;
  atoms : list atom;
  eol : bool;
  global : bool;
  sticky : bool
}.

Definition one (c : N -> bool) : atom := mkAtom c 1 (Some 1%nat) false.
Definition star (c : N -> bool) : atom := mkAtom c 0 None false.
Definition plus (c : N -> bool) : atom := mkAtom c 1 None false.
Definition atLeast (n : nat) (c : N -> bool) : atom := mkAtom c n None false.
Definition between (n m : nat) (c : N -> bool) : atom :=
  mkAtom c n (Some m) false.
Definition group (a : atom) : atom := mkAtom (cls a) (lo a) (hi a) true.

(** An object without the [g] and [y] flags. *)
Definition flagless (r : t) : Prop := global r = false /\ sticky r = false.

(** A pattern with neither anchors nor flags. *)
Definition plain (atoms : list atom) : t := mk false atoms false false false.

(** The length of the longest prefix of [s] whose code units are in [p]. *)
Fixpoint span (p : N -> bool) (s : jsstring) : nat :=
  match s with
  | c :: s' => if p c then S (span p s') else 0
  | [] => 0
  end.

(** The first success of [f] on [lo + k], [lo + k - 1], ..., [lo]. *)
Fixpoint firstDown {A : Type} (f : nat -> option A) (lo k : nat)
    : option A :=
  match k with
  | O => f lo
  | S k' =>
      match f (lo + k)%nat with
      | Some r => Some r
      | None => firstDown f lo k'
      end
  end.

(** The atoms matched at the head of [s]: the text each atom took. *)
Fixpoint matchAtoms (atoms : list atom) (eol : bool) (s : jsstring)
    : option (list jsstring) :=
  match atoms with
  | [] =>
      if eol then match s with [] => Some [] | _ :: _ => None end
      else Some []
  | a :: rest =>
      let avail := span (cls a) s in
      let top := match hi a with
                 | Some h => Nat.min h avail
                 | None => avail
                 end in
      if (top <? lo a)%nat then None
      else
        firstDown
          (fun n =>
             match matchAtoms rest eol (skipn n s) with
             | Some texts => Some (firstn n s :: texts)
             | None => None
             end)
          (lo a) (top - lo a)
  end.

(** A match of [r] that starts exactly at index [i], where [s] is the
    subject from [i] on. *)
Definition matchAt (r : t) (i : nat) (s : jsstring)
    : option (list jsstring) :=
  if bol r && negb (i =? 0)%nat then None
  else matchAtoms (atoms r) (eol r) s.

(** The leftmost match at or after index [i]: its index and its texts. *)
Fixpoint findFrom (r : t) (i : nat) (s : jsstring)
    : option (nat * list jsstring) :=
  match matchAt r i s with
  | Some texts => Some (i, texts)
  | None =>
      match s with
      | [] => None
      | _ :: s' => findFrom r (S i) s'
      end
  end.

Definition matchLength (texts : list jsstring) : nat :=
  List.length (List.concat texts).

(** The texts of the groups of a match. *)
Fixpoint groups (atoms : list atom) (texts : list jsstring)
    : list jsstring :=
  match atoms, texts with
  | a :: atoms', x :: texts' =>
      if capture a then x :: groups atoms' texts' else groups atoms' texts'
  | _, _ => []
  end.

(** [r.exec(s)] on an object whose [lastIndex] is [lastIndex]: the match,
    and the [lastIndex] the object is left with. Only an object with the
    [g] or the [y] flag reads and writes its [lastIndex]. *)
Definition exec (r : t) (lastIndex : nat) (s : jsstring)
    : option (nat * list jsstring) * nat :=
  if global r || sticky r then
    if (List.length s <? lastIndex)%nat then (None, 0%nat)
    else
      let found :=
        if sticky r then
          match matchAt r lastIndex (skipn lastIndex s) with
          | Some texts => Some (lastIndex, texts)
          | None => None
          end
        else findFrom r lastIndex (skipn lastIndex s) in
      match found with
      | Some (i, texts) => (Some (i, texts), (i + matchLength texts)%nat)
      | None => (None, 0%nat)
      end
  else (findFrom r 0 s, lastIndex).

(** [r.test(s)]. *)
Definition test (r : t) (lastIndex : nat) (s : jsstring) : bool * nat :=
  let '(found, lastIndex') := exec r lastIndex s in
  (match found with Some _ => true | None => false end, lastIndex').

(** [/.../.test(s)] on a literal without flags, a fresh object. *)
Definition testLiteral (r : t) (s : jsstring) : bool :=
  fst (test r 0 s).

(** [s.replace(/.../, by)] on a literal without the [g] flag: the leftmost
    match is replaced ([by] holds no [$] pattern). *)
Definition replace (r : t) (s : jsstring) (by_ : jsstring) : jsstring :=
  match findFrom r 0 s with
  | Some (i, texts) =>
      firstn i s ++ by_ ++ skipn (i + matchLength texts) s
  | None => s
  end.

(** [s.match(/.../)] on a literal without the [g] flag: the groups of the
    leftmost match. *)
Definition matchGroups (r : t) (s : jsstring) : option (list jsstring) :=
  match findFrom r 0 s with
  | Some (_, texts) => Some (groups (atoms r) texts)
  | None => None
  end.

(** The loop of [s.split(r)]: [piece] is the subject from the end [p] of
    the previous match to the position [q], [rest] the subject from [q]
    on. A match is looked for at [q] only; an empty match at [p] is
    skipped; the splitter is a new object, so [r] itself is not touched. *)
Fixpoint splitLoop (r : t) (fuel : nat) (q : nat) (piece rest : jsstring)
    : list jsstring :=
  match fuel with
  | O => [piece ++ rest]
  | S fuel' =>
      match rest with
      | [] => [piece]
      | c :: rest' =>
          match matchAt r q rest with
          | None => splitLoop r fuel' (S q) (piece ++ [c]) rest'
          | Some texts =>
              let len := matchLength texts in
              match len, piece with
              | O, [] => splitLoop r fuel' (S q) (piece ++ [c]) rest'
              | _, _ =>
                  piece :: groups (atoms r) texts
                  ++ splitLoop r fuel' (q + len) [] (skipn len rest)
              end
          end
      end
  end.

(** What is left to do in the split loop: two steps for each code unit still
    to read, and one more when the current piece is not empty. *)
Definition toDo (piece rest : jsstring) : nat :=
  2 * List.length rest + match piece with [] => 0 | _ :: _ => 1 end.

(** [s.split(r)]. *)
Definition split (r : t) (s : jsstring) : list jsstring :=
  match s with
  | [] => match matchAt r 0 [] with Some _ => [] | None => [[]] end
  | _ :: _ => splitLoop r (2 * List.length s + 1) 0 [] s
  end.

(** [s.replace(/[...]/gu, '')] for one character class: with the [u] flag
    the subject is read by code points, a surrogate pair being one, and
    every code point of the class is dropped. *)
Definition isHighSurrogate (c : N) : bool :=
  ((0xD800 <=? c) && (c <=? 0xDBFF))%N.
Definition isLowSurrogate (c : N) : bool :=
  ((0xDC00 <=? c) && (c <=? 0xDFFF))%N.
Definition codePoint (h l : N) : N :=
  (0x10000 + (h - 0xD800) * 0x400 + (l - 0xDC00))%N.

Fixpoint removeCodePoints (p : N -> bool) (s : jsstring) : jsstring :=
  match s with
  | [] => []
  | h :: s' =>
      match s' with
      | l :: s'' =>
          if isHighSurrogate h && isLowSurrogate l then
            if p (codePoint h l) then removeCodePoints p s''
            else h :: l :: removeCodePoints p s''
          else if p h then removeCodePoints p s'
          else h :: removeCodePoints p s'
      | [] => if p h then [] else [h]
      end
  end.

End RegExp.

(** ** The engine's Unicode data

    The tables of the engine outside ASCII are a parameter of the extractor:
    the letters ([\p{L}]) and the numbers ([\p{N}]) among the code points from
    U+0080 on, and the lower-case form of a string that is not all ASCII. *)

Record Unicode := mkUnicode {
  letterBeyondAscii : N -> bool;
  numberBeyondAscii : N -> bool;
  lowerBeyondAscii : jsstring -> jsstring
}.

Module Uni.

Definition isAscii (c : N) : bool := (c <? 128)%N.

(** [\p{L}]. *)
Definition isLetter (u : Unicode) (c : N) : bool :=
  if isAscii c then Str.isAsciiUpper c || Str.isAsciiLower c
  else letterBeyondAscii u c.

(** [\p{N}]. *)
Definition isNumber (u : Unicode) (c : N) : bool :=
  if isAscii c then Str.isDigit c else numberBeyondAscii u c.

(** [s.toLowerCase()]. *)
Definition toLowerCase (u : Unicode) (s : jsstring) : jsstring :=
  if forallb isAscii s then
    map (fun c => if Str.isAsciiUpper c then (c + 32)%N else c) s
  else lowerBeyondAscii u s.

End Uni.

(** ** types/index.ts *)

Inductive UserRating : Set := again | hard | good | easy.

(** [type Quality = 0 | 1 | 2 | 3 | 4 | 5]: a number. *)
Definition Quality := number.

Record Word := mkWord {
  id : jsstring;
  listId : jsstring;
  term : jsstring;
  definition : jsstring;
  easeFactor : number;
  interval : number;
  repetitions : number;
  nextReview : number;
  lastReview : option number;
  timesCorrect : number;
  timesIncorrect : number;
  createdAt : number
}.

(** The seven scheduling fields: the [Pick<Word, ...>] that
    [getDefaultSM2Values] returns and the [Partial<Word>] that
    [calculateNextReview] returns. *)
Module Partial.
Record t := mk {
  easeFactor : number;
  interval : number;
  repetitions : number;
  nextReview : number;
  lastReview : option number;
  timesCorrect : number;
  timesIncorrect : number
}.
End Partial.

Module ParsedWordPair.
Record t := mk {
  term : jsstring;
  definition : jsstring;
  confidence : number
}.
End ParsedWordPair.

Module OCRResult.
Record t := mk {
  rawText : jsstring;
  pairs : list ParsedWordPair.t;
  parseErrors : list jsstring
}.
End OCRResult.

(** [{ ...word, ...updates }], as the callers of the scheduler merge its
    result into the stored word (Practice.tsx, [handleRate]). *)
Definition merge (word : Word) (updates : Partial.t) : Word :=
  {| id := id word;
     listId := listId word;
     term := term word;
     definition := definition word;
     easeFactor := Partial.easeFactor updates;
     interval := Partial.interval updates;
     repetitions := Partial.repetitions updates;
     nextReview := Partial.nextReview updates;
     lastReview := Partial.lastReview updates;
     timesCorrect := Partial.timesCorrect updates;
     timesIncorrect := Partial.timesIncorrect updates;
     createdAt := createdAt word |}.

(** ** utils/sm2.ts *)

Module Sm2.

Local Open Scope Q_scope.
Local Open Scope js_scope.

Definition ratingToQuality (rating : UserRating) : Quality :=
  match rating with
  | again => 0
  | hard => 2
  | good => 4
  | easy => 5
  end.

(** On exact numbers: the engine rounds [interval * easeFactor] and the
    ease factor update to doubles, which leaves the bounds, the orders and
    the branches taken below as they are but can move a product that lies
    at a tie of [Math.round], and overflows to [Infinity] past the range of
    a double. *)
Definition calculateNextReview (word : Word) (now : number)
    (rating : UserRating) : Partial.t :=
  let quality := ratingToQuality rating in
  let '(interval', repetitions') :=
    if quality <? 3 then
      (1, 0)
    else
      ((if repetitions word === 0 then 1
        else if repetitions word === 1 then 6
        else Js.round (interval word * easeFactor word)),
       repetitions word + 1) in
  let easeFactor' :=
    easeFactor word
    + (0.1 - (5 - quality) * (0.08 + (5 - quality) * 0.02)) in
  let easeFactor'' := if easeFactor' <? 1.3 then 1.3 else easeFactor' in
  let nextReview' := now + interval' * 24 * 60 * 60 * 1000 in
  let timesCorrect' :=
    if quality >=? 3 then timesCorrect word + 1 else timesCorrect word in
  let timesIncorrect' :=
    if quality <? 3 then timesIncorrect word + 1 else timesIncorrect word in
  {| Partial.easeFactor := easeFactor'';
     Partial.interval := interval';
     Partial.repetitions := repetitions';
     Partial.nextReview := nextReview';
     Partial.lastReview := Some now;
     Partial.timesCorrect := timesCorrect';
     Partial.timesIncorrect := timesIncorrect' |}.

Definition getDefaultSM2Values (now : number) : Partial.t :=
  {| Partial.easeFactor := 2.5;
     Partial.interval := 0;
     Partial.repetitions := 0;
     Partial.nextReview := now;
     Partial.lastReview := None;
     Partial.timesCorrect := 0;
     Partial.timesIncorrect := 0 |}.

Definition getNextReviewText (now : number) (nextReview : number)
    : jsstring :=
  let diff := nextReview - now in
  if diff <=? 0 then str "Nu"
  else
    let minutes := Js.floor (diff / (1000 * 60)) in
    let hours := Js.floor (diff / (1000 * 60 * 60)) in
    let days := Js.floor (diff / (1000 * 60 * 60 * 24)) in
    if days >? 0 then
      Str.ofInteger days ++ str " dag" ++ (if days >? 1 then str "en" else [])
    else if hours >? 0 then Str.ofInteger hours ++ str " uur"
    else if minutes >? 0 then Str.ofInteger minutes ++ str " min"
    else str "Nu".

(** On exact numbers; [Binary64.calculateMastery] is the same function on
    the doubles of the engine, where a sum at a tie of [Math.round] can fall
    below it. *)
Definition calculateMastery (word : Word) : number :=
  if timesCorrect word + timesIncorrect word === 0 then 0
  else
    let accuracy :=
      timesCorrect word / (timesCorrect word + timesIncorrect word) in
    let repetitionBonus := Js.min (repetitions word / 5) 1 in
    let intervalBonus := Js.min (interval word / 30) 1 in
    Js.round
      ((accuracy * 0.5 + repetitionBonus * 0.25 + intervalBonus * 0.25)
       * 100).

End Sm2.

(** ** The scheduler on doubles

    Lines 39 to 44 of [calculateNextReview] and the whole of
    [calculateMastery] as the engine computes them, on IEEE 754 binary64
    numbers: every operation rounds to the nearest double. *)

Module Binary64.

Import Floats.
#[local] Set Warnings "-inexact-float".
Local Open Scope float_scope.

Definition ratingToQuality (rating : UserRating) : float :=
  match rating with
  | again => 0
  | hard => 2
  | good => 4
  | easy => 5
  end.

Definition nextEaseFactor (easeFactor : float) (rating : UserRating)
    : float :=
  let quality := ratingToQuality rating in
  let easeFactor' :=
    easeFactor + (0.1 - (5 - quality) * (0.08 + (5 - quality) * 0.02)) in
  if easeFactor' <? 1.3 then 1.3 else easeFactor'.

(** [Math.round]: a number that is not finite or is an integer comes back
    as it is; otherwise the nearest integer, a tie going up, with the sign
    of the argument when that integer is zero. The nearest integer is
    computed on the exact value [n * 2^e] of the double, as the floor of
    [(2n + 2^-e) / 2^(1-e)]. *)
Definition round (x : float) : float :=
  match Prim2SF x with
  | S754_finite s m e =>
      if (0 <=? e)%Z then x
      else
        let n := if s then Z.neg m else Z.pos m in
        let r := ((2 * n + 2 ^ (- e)) / 2 ^ (1 - e))%Z in
        if (r =? 0)%Z then (if s then (-0) else 0)
        else SF2Prim (S754_finite (r <? 0)%Z (Z.to_pos (Z.abs r)) 0)
  | _ => x
  end.

(** [Math.min] of two numbers: NaN when either is, and [-0] below [+0]. *)
Definition min (a b : float) : float :=
  if is_nan a || is_nan b then nan
  else if a <? b then a
  else if b <? a then b
  else if get_sign a then a else b.

(** The four fields of a [Word] that [calculateMastery] reads. *)
Record Word := mkWord {
  timesCorrect : float;
  timesIncorrect : float;
  repetitions : float;
  interval : float
}.

Definition calculateMastery (word : Word) : float :=
  if timesCorrect word + timesIncorrect word =? 0 then 0
  else
    let accuracy :=
      timesCorrect word / (timesCorrect word + timesIncorrect word) in
    let repetitionBonus := min (repetitions word / 5) 1 in
    let intervalBonus := min (interval word / 30) 1 in
    round
      ((accuracy * 0.5 + repetitionBonus * 0.25 + intervalBonus * 0.25)
       * 100).

(** The mastery score in the specification's words,
    [round(100 * (0.5*accuracy + 0.25*min(repetitions/5, 1)
    + 0.25*min(interval/30, 1)))] with
    [accuracy = timesCorrect / (timesCorrect + timesIncorrect)], each
    operation on doubles. *)
Definition masteryFormula (w : Word) : float :=
  let accuracy := timesCorrect w / (timesCorrect w + timesIncorrect w) in
  round
    (100 * (0.5 * accuracy
            + 0.25 * min (repetitions w / 5) 1
            + 0.25 * min (interval w / 30) 1)).

(** The exact value of a double: none for a NaN or an infinity. *)
Definition value (x : float) : option Q :=
  match Prim2SF x with
  | S754_zero _ => Some 0%Q
  | S754_finite s m e =>
      Some ((inject_Z (if s then Z.neg m else Z.pos m)
             * Qpower 2 e)%Q)
  | S754_infinity _ | S754_nan => None
  end.

(** The double of a natural number below 2^53. *)
Definition ofNat (n : nat) : float :=
  of_uint63 (Uint63.of_Z (Z.of_nat n)).

End Binary64.

(** ** pages/Practice.tsx: what a rating does to the stored word *)

Module Practice.

(** [handleRate]: the word written back to the store is the current word
    with the scheduler's fields merged in. *)
Definition handleRate (currentWord : Word) (now : number)
    (rating : UserRating) : Word :=
  merge currentWord (Sm2.calculateNextReview currentWord now rating).

(** The successive stored words of a run of reviews, each given by its
    instant and its rating and each starting from the word the review
    before it stored, as when the word is loaded from the store for every
    review. Within one session of the component a word that is rated again
    after a restart starts from the word as it was loaded instead: see
    [Component]. *)
Fixpoint session (word : Word) (events : list (number * UserRating))
    : list Word :=
  match events with
  | [] => []
  | (now, rating) :: events' =>
      let word' := handleRate word now rating in
      word' :: session word' events'
  end.

End Practice.

(** ** The mastery score in the specification's words, on exact numbers *)

(** [round(100 * (0.5*accuracy + 0.25*min(repetitions/5, 1)
    + 0.25*min(interval/30, 1)))] with
    [accuracy = timesCorrect / (timesCorrect + timesIncorrect)]. *)
Definition masteryFormula (w : Word) : number :=
  let accuracy := timesCorrect w / (timesCorrect w + timesIncorrect w) in
  Js.round
    (100 * (0.5 * accuracy
            + 0.25 * Js.min (repetitions w / 5) 1
            + 0.25 * Js.min (interval w / 30) 1))%Q.

(** ** Character classes shared by the two variants of utils/ocr.ts *)

Module Chars.

Definition chr (x : N) (c : N) : bool := (c =? x)%N.
Definition among (xs : list N) (c : N) : bool := existsb (N.eqb c) xs.

(** [[-–—]]: hyphen-minus, en dash, em dash. *)
Definition dash : N -> bool := among [45; 0x2013; 0x2014]%N.
(** [.]: any code unit but a line terminator. *)
Definition dot (c : N) : bool := negb (Str.isLineTerminator c).
(** The bullet glyphs [•·∙○●◦▪▫■□]. *)
Definition bullets : list N :=
  [0x2022; 0xB7; 0x2219; 0x25CB; 0x25CF; 0x25E6; 0x25AA; 0x25AB; 0x25A0;
   0x25A1]%N.
(** [-'.,()]: the punctuation a cleaned word may keep. *)
Definition punctuation : list N := [45; 39; 46; 44; 40; 41]%N.

(** [[^a-zA-ZàâäéèêëïîôùûüÿçœæÀÂÄÉÈÊËÏÎÔÙÛÜŸÇŒÆ\s\-']]: a code unit
    outside the letters the confidence score takes as usual. *)
Definition unusual (c : N) : bool :=
  negb (Str.isAsciiLower c || Str.isAsciiUpper c
        || among [0xE0; 0xE2; 0xE4; 0xE9; 0xE8; 0xEA; 0xEB; 0xEF; 0xEE;
                  0xF4; 0xF9; 0xFB; 0xFC; 0xFF; 0xE7; 0x153; 0xE6;
                  0xC0; 0xC2; 0xC4; 0xC9; 0xC8; 0xCA; 0xCB; 0xCF; 0xCE;
                  0xD4; 0xD9; 0xDB; 0xDC; 0x178; 0xC7; 0x152; 0xC6]%N c
        || Str.isWhiteSpace c || chr 45 c || chr 39 c).

End Chars.

(** ** utils/ocr.ts, the variant with seven separators and the header filter *)

Module Ocr.

Import RegExp Chars.
Local Open Scope Q_scope.
Local Open Scope js_scope.

Definition SEPARATORS : list RegExp.t :=
  [ plain [plus Str.isWhiteSpace; one dash; plus Str.isWhiteSpace];
    plain [star Str.isWhiteSpace; one dash; star Str.isWhiteSpace];
    plain [star Str.isWhiteSpace; one (chr 61); star Str.isWhiteSpace];
    plain [star Str.isWhiteSpace; one (chr 58); star Str.isWhiteSpace];
    plain [star Str.isWhiteSpace; one (chr 124); star Str.isWhiteSpace];
    plain [plus (chr 9)];
    plain [atLeast 4 Str.isWhiteSpace] ].

(** The mutable part of the module: the [lastIndex] of each object of
    [SEPARATORS], all 0 when the module is loaded. *)
Definition Store := list nat.

Definition initialStore : Store := map (fun _ => 0%nat) SEPARATORS.

(** [seps.some(sep => sep.test(s))] on the objects of the store. *)
Fixpoint someTest (seps : list RegExp.t) (store : Store) (s : jsstring)
    : bool * Store :=
  match seps, store with
  | sep :: seps', lastIndex :: store' =>
      let '(found, lastIndex') := RegExp.test sep lastIndex s in
      if found then (true, lastIndex' :: store')
      else
        let '(found', store'') := someTest seps' store' s in
        (found', lastIndex' :: store'')
  | _, _ => (false, store)
  end.

(** [/^\d+\.\s*/]: the prefix of a numbered list. *)
Definition ordinalPrefix : RegExp.t :=
  RegExp.mk true [plus Str.isDigit; one (chr 46); star Str.isWhiteSpace]
            false false false.

Definition headerWords : list jsstring :=
  [str "frans"; str "nederlands"; str "engels"; str "duits"; str "spaans";
   str "woord"; str "betekenis"; str "vertaling"].

Definition isLikelyHeader (u : Unicode) (store : Store) (line : jsstring)
    : bool * Store :=
  let cleanLine := Str.trim (RegExp.replace ordinalPrefix line []) in
  let '(bare, store') :=
    if Str.length cleanLine <? 15 then
      let '(found, store') := someTest SEPARATORS store cleanLine in
      (negb found, store')
    else (false, store) in
  if bare
     && (negb (Str.includes cleanLine (str "-"))
         && negb (Str.includes cleanLine (str "=")))
  then (true, store')
  else
    let lowerLine := Uni.toLowerCase u cleanLine in
    if existsb
         (fun h =>
            Str.eqb lowerLine h
            || Str.startsWith lowerLine (h ++ str " ")
            || Str.endsWith lowerLine (str " " ++ h))
         headerWords
    then (true, store')
    else (false, store').

(** [[^\p{L}\p{N}\s\-'.,()é è ê ë à â ä ù û ü ï î ô ö ç œ æ]], on code
    points. *)
Definition notKept (u : Unicode) (c : N) : bool :=
  negb (Uni.isLetter u c || Uni.isNumber u c || Str.isWhiteSpace c
        || among punctuation c
        || among [0xE9; 32; 0xE8; 0xEA; 0xEB; 0xE0; 0xE2; 0xE4; 0xF9; 0xFB;
                  0xFC; 0xEF; 0xEE; 0xF4; 0xF6; 0xE7; 0x153; 0xE6]%N c).

Definition cleanWord (u : Unicode) (word : jsstring) : jsstring :=
  let s1 := Str.trim word in
  let s2 := RegExp.replace ordinalPrefix s1 [] in
  let s3 :=
    RegExp.replace
      (RegExp.mk true
         [plus (among (bullets ++ [45; 42]%N)); star Str.isWhiteSpace]
         false false false)
      s2 [] in
  let s4 := removeCodePoints (notKept u) s3 in
  Str.trim s4.

Definition calculateConfidence (term definition : jsstring) : number :=
  let confidence := 1.0 in
  let confidence :=
    if (Str.length term <? 2) || (Str.length definition <? 2)
    then confidence * 0.5 else confidence in
  let confidence :=
    if testLiteral (plain [one Str.isDigit]) term
       || testLiteral (plain [one Str.isDigit]) definition
    then confidence * 0.7 else confidence in
  let confidence :=
    if testLiteral (plain [one unusual]) (term ++ definition)
    then confidence * 0.8 else confidence in
  Js.round (confidence * 100) / 100.

(** [/^(.{2,30})\s{4,}(.{2,})$/]. *)
Definition tableGap : RegExp.t :=
  RegExp.mk true
    [group (between 2 30 dot); atLeast 4 Str.isWhiteSpace;
     group (atLeast 2 dot)]
    true false false.

Definition detectTableFormat (u : Unicode) (line : jsstring)
    : option ParsedWordPair.t :=
  match matchGroups tableGap line with
  | Some gapMatch =>
      let term := cleanWord u (nth 0 gapMatch []) in
      let definition := cleanWord u (nth 1 gapMatch []) in
      if Str.truthy term && Str.truthy definition then
        Some (ParsedWordPair.mk term definition 0.7)
      else None
  | None => None
  end.

(** The loop of [parseLine] over the separators. *)
Fixpoint trySeparators (u : Unicode) (seps : list RegExp.t)
    (line : jsstring) : option ParsedWordPair.t :=
  match seps with
  | [] => None
  | separator :: seps' =>
      let parts := RegExp.split separator line in
      if (2 <=? List.length parts)%nat then
        let term := cleanWord u (nth 0 parts []) in
        let definition := cleanWord u (Str.join (str " ") (tl parts)) in
        if Str.truthy term && Str.truthy definition then
          Some (ParsedWordPair.mk term definition
                  (calculateConfidence term definition))
        else trySeparators u seps' line
      else trySeparators u seps' line
  end.

Definition parseLine (u : Unicode) (line : jsstring)
    : option ParsedWordPair.t :=
  match trySeparators u SEPARATORS line with
  | Some found => Some found
  | None => detectTableFormat u line
  end.

(** The trimmed, non-empty lines of the text. *)
Definition linesOf (rawText : jsstring) : list jsstring :=
  filter (fun line => Str.length line >? 0)
         (map Str.trim (Str.split 10 rawText)).

(** The loop of [parseWordPairs]: the pairs and the parse errors in the
    order they are pushed, and the store the loop leaves. *)
Fixpoint parseLines (u : Unicode) (store : Store) (lines : list jsstring)
    : list ParsedWordPair.t * list jsstring * Store :=
  match lines with
  | [] => ([], [], store)
  | line :: lines' =>
      let '(header, store') := isLikelyHeader u store line in
      if header then parseLines u store' lines'
      else
        let '(pairs, parseErrors, store'') := parseLines u store' lines' in
        match parseLine u line with
        | Some parsed => (parsed :: pairs, parseErrors, store'')
        | None =>
            if Str.length line >? 2 then (pairs, line :: parseErrors, store'')
            else (pairs, parseErrors, store'')
        end
  end.

(** [parseWordPairs] run on a store: its result and the store it leaves. *)
Definition parseWordPairs (u : Unicode) (store : Store)
    (rawText : jsstring) : OCRResult.t * Store :=
  let '(pairs, parseErrors, store') := parseLines u store (linesOf rawText) in
  (OCRResult.mk rawText pairs parseErrors, store').

End Ocr.

(** ** utils/ocr.ts, the variant with six separators and no header filter *)

Module OcrVariant.

Import RegExp Chars.
Local Open Scope Q_scope.
Local Open Scope js_scope.

Definition SEPARATORS : list RegExp.t :=
  [ plain [star Str.isWhiteSpace; one dash; star Str.isWhiteSpace];
    plain [star Str.isWhiteSpace; one (chr 61); star Str.isWhiteSpace];
    plain [star Str.isWhiteSpace; one (chr 58); star Str.isWhiteSpace];
    plain [star Str.isWhiteSpace; one (chr 124); star Str.isWhiteSpace];
    plain [plus (chr 9)];
    plain [atLeast 3 Str.isWhiteSpace] ].

(** [[^\p{L}\p{N}\s\-'.,()]], on code points. *)
Definition notKept (u : Unicode) (c : N) : bool :=
  negb (Uni.isLetter u c || Uni.isNumber u c || Str.isWhiteSpace c
        || among punctuation c).

Definition cleanWord (u : Unicode) (word : jsstring) : jsstring :=
  let s1 := Str.trim word in
  let s2 :=
    RegExp.replace
      (RegExp.mk true
         [plus (fun c => among (bullets ++ [45; 42]%N) c
                         || Str.isDigit c || chr 46 c);
          star Str.isWhiteSpace]
         false false false)
      s1 [] in
  let s3 := removeCodePoints (notKept u) s2 in
  Str.trim s3.

Definition calculateConfidence (term definition : jsstring) : number :=
  let confidence := 1.0 in
  let confidence :=
    if (Str.length term <? 2) || (Str.length definition <? 2)
    then confidence * 0.5 else confidence in
  let confidence :=
    if testLiteral (plain [one Str.isDigit]) term
       || testLiteral (plain [one Str.isDigit]) definition
    then confidence * 0.7 else confidence in
  let confidence :=
    if testLiteral (plain [one unusual]) (term ++ definition)
    then confidence * 0.8 else confidence in
  Js.round (confidence * 100) / 100.

(** [/^(.{2,30})\s{4,}(.{2,})$/]. *)
Definition tableGap : RegExp.t :=
  RegExp.mk true
    [group (between 2 30 dot); atLeast 4 Str.isWhiteSpace;
     group (atLeast 2 dot)]
    true false false.

Definition detectTableFormat (u : Unicode) (line : jsstring)
    : option ParsedWordPair.t :=
  match matchGroups tableGap line with
  | Some gapMatch =>
      let term := cleanWord u (nth 0 gapMatch []) in
      let definition := cleanWord u (nth 1 gapMatch []) in
      if Str.truthy term && Str.truthy definition then
        Some (ParsedWordPair.mk term definition 0.7)
      else None
  | None => None
  end.

Fixpoint trySeparators (u : Unicode) (seps : list RegExp.t)
    (line : jsstring) : option ParsedWordPair.t :=
  match seps with
  | [] => None
  | separator :: seps' =>
      let parts := RegExp.split separator line in
      if (2 <=? List.length parts)%nat then
        let term := cleanWord u (nth 0 parts []) in
        let definition := cleanWord u (Str.join (str " ") (tl parts)) in
        if Str.truthy term && Str.truthy definition then
          Some (ParsedWordPair.mk term definition
                  (calculateConfidence term definition))
        else trySeparators u seps' line
      else trySeparators u seps' line
  end.

Definition parseLine (u : Unicode) (line : jsstring)
    : option ParsedWordPair.t :=
  match trySeparators u SEPARATORS line with
  | Some found => Some found
  | None => detectTableFormat u line
  end.

Definition linesOf (rawText : jsstring) : list jsstring :=
  filter (fun line => Str.length line >? 0)
         (map Str.trim (Str.split 10 rawText)).

(** The loop of [parseWordPairs]; no shared object is tested here, so no
    store is threaded. *)
Fixpoint parseLines (u : Unicode) (lines : list jsstring)
    : list ParsedWordPair.t * list jsstring :=
  match lines with
  | [] => ([], [])
  | line :: lines' =>
      let '(pairs, parseErrors) := parseLines u lines' in
      match parseLine u line with
      | Some parsed => (parsed :: pairs, parseErrors)
      | None =>
          if Str.length line >? 2 then (pairs, line :: parseErrors)
          else (pairs, parseErrors)
      end
  end.

Definition parseWordPairs (u : Unicode) (rawText : jsstring)
    : OCRResult.t :=
  let '(pairs, parseErrors) := parseLines u (linesOf rawText) in
  OCRResult.mk rawText pairs parseErrors.

End OcrVariant.

(** ** utils/sm2.ts, continued: the preview of the intervals *)

Module Sm2Preview.

Local Open Scope Q_scope.
Local Open Scope js_scope.

(** The body of the [forEach] of [getEstimatedIntervals]: the text for a
    number of days. *)
Definition estimateText (days : number) : jsstring :=
  if days === 1 then str "1 dag"
  else if days <? 30 then Str.ofInteger days ++ str " dagen"
  else if days <? 365 then
    let months := Js.round (days / 30) in
    Str.ofInteger months ++ str " maand"
    ++ (if months >? 1 then str "en" else [])
  else
    let years := Js.round (days / 365) in
    Str.ofInteger years ++ str " jaar".

(** [getEstimatedIntervals]: the record of the four texts, as the function
    from the rating to its text. [again] keeps the text the record starts
    with; the three others are overwritten by the loop. *)
Definition getEstimatedIntervals (word : Word) (now : number)
    (rating : UserRating) : jsstring :=
  match rating with
  | again => str "1 dag"
  | hard | good | easy =>
      estimateText (Partial.interval (Sm2.calculateNextReview word now rating))
  end.

End Sm2Preview.

(** ** utils/db.ts: the words that are due *)

Module Db.

Local Open Scope js_scope.

(** [getDueWords], on the words of the store: those of the list when a list
    is given (an empty id is falsy and selects every word), of which the
    ones whose [nextReview] is not after [now]. *)
Definition getDueWords (store : list Word) (ofList : option jsstring)
    (now : number) : list Word :=
  let words :=
    match ofList with
    | Some (c :: l) =>
        filter (fun w => Str.eqb (listId w) (c :: l)) store
    | Some [] | None => store
    end in
  filter (fun w => nextReview w <=? now) words.

End Db.

(** ** pages/Stats.tsx: the mastery distribution *)

Module Stats.

Local Open Scope Q_scope.
Local Open Scope js_scope.

(** The index in [masteryLevels] of the level whose count a word raises:
    0 "Nieuw", 1 "Leren", 2 "Bekend", 3 "Geleerd". *)
Definition levelOf (word : Word) : nat :=
  let mastery := Sm2.calculateMastery word in
  if mastery === 0 then 0%nat
  else if mastery <? 40 then 1%nat
  else if mastery <? 80 then 2%nat
  else 3%nat.

(** [masteryLevels[level].count++]. *)
Definition bump (level : nat) (counts : list nat) : list nat :=
  map (fun '(i, count) => if (i =? level)%nat then S count else count)
      (combine (seq 0 (List.length counts)) counts).

(** The four counts after the [forEach] over the words. *)
Definition masteryLevels (words : list Word) : list nat :=
  fold_left (fun counts word => bump (levelOf word) counts) words
            [0; 0; 0; 0]%nat.

(** [words.reduce((sum, w) => sum + calculateMastery(w), 0)]. *)
Definition sumMastery (words : list Word) : number :=
  fold_left (fun sum w => sum + Sm2.calculateMastery w) words 0.

Definition totalMastery (words : list Word) : number :=
  let length := inject_Z (Z.of_nat (List.length words)) in
  if length >? 0 then Js.round (sumMastery words / length) else 0.

End Stats.

(** ** components/TypingPractice.tsx: from the similarity to the rating *)

Module TypingPractice.

Local Open Scope Q_scope.
Local Open Scope js_scope.

(** [handleSubmit]: the answer counts as correct from a similarity of 0.85. *)
Definition isCorrect (similarity : number) : bool := similarity >=? 0.85.

(** [handleContinue]: the rating passed to [onRate]. *)
Definition ratingOf (similarity : number) : UserRating :=
  if similarity >=? 0.95 then easy
  else if similarity >=? 0.85 then good
  else if similarity >=? 0.6 then hard
  else again.

End TypingPractice.

(** ** pages/Practice.tsx, continued: the counters of a session *)

Module PracticeStats.

Local Open Scope Q_scope.
Local Open Scope js_scope.

(** The counters [handleRate] updates beside the word: the two of the
    session and the two of the global statistics. *)
Record Counters := mkCounters {
  correctCount : number;
  incorrectCount : number;
  totalReviews : number;
  totalWordsLearned : number
}.

(** [const isCorrect = rating !== 'again']. *)
Definition isCorrect (rating : UserRating) : bool :=
  match rating with
  | again => false
  | hard | good | easy => true
  end.

(** The counters after [handleRate] on [currentWord]. *)
Definition count (currentWord : Word) (rating : UserRating)
    (c : Counters) : Counters :=
  {| correctCount :=
       if isCorrect rating then correctCount c + 1 else correctCount c;
     incorrectCount :=
       if isCorrect rating then incorrectCount c else incorrectCount c + 1;
     totalReviews := totalReviews c + 1;
     totalWordsLearned :=
       if isCorrect rating && (repetitions currentWord === 0)
       then totalWordsLearned c + 1 else totalWordsLearned c |}.

End PracticeStats.

(** ** pages/Practice.tsx, continued: the words of a session *)

Module PracticeLoad.

Local Open Scope js_scope.

(** [db.getAllFromIndex('words', 'by-list', listId)]. *)
Definition getWordsByList (store : list Word) (ofList : jsstring)
    : list Word :=
  filter (fun w => Str.eqb (listId w) ofList) store.

(** The words [loadData] hands to the shuffle: with a list, its due words
    or, when none is due, all its words; without one, the due words of the
    store. An empty list id is falsy, as is a missing one. *)
Definition wordsToStudy (store : list Word) (ofList : option jsstring)
    (now : number) : list Word :=
  match ofList with
  | Some (c :: l) =>
      let dueWords := Db.getDueWords store (Some (c :: l)) now in
      let allListWords := getWordsByList store (c :: l) in
      if inject_Z (Z.of_nat (List.length dueWords)) >? 0 then dueWords
      else allListWords
  | Some [] | None => Db.getDueWords store ofList now
  end.

(** A JavaScript array as the list of its elements, [undefined] being the
    value a read outside the array gives. A write past the end extends the
    array, the gap reading as [undefined]; a write at a negative index sets
    a property and leaves the elements alone. *)
Definition getAt {A : Type} (undefined : A) (l : list A) (i : Z) : A :=
  if (i <? 0)%Z then undefined else nth (Z.to_nat i) l undefined.

Fixpoint setNat {A : Type} (undefined : A) (l : list A) (i : nat) (x : A)
    : list A :=
  match i, l with
  | O, [] => [x]
  | O, _ :: l' => x :: l'
  | S i', [] => undefined :: setNat undefined [] i' x
  | S i', y :: l' => y :: setNat undefined l' i' x
  end.

Definition setAt {A : Type} (undefined : A) (l : list A) (i : Z) (x : A)
    : list A :=
  if (i <? 0)%Z then l else setNat undefined l (Z.to_nat i) x.

(** [[shuffled[i], shuffled[j]] = [shuffled[j], shuffled[i]]]: both elements
    are read, then [shuffled[i]] and [shuffled[j]] are written in this
    order. *)
Definition swapAt {A : Type} (undefined : A) (l : list A) (i j : Z)
    : list A :=
  let atJ := getAt undefined l j in
  let atI := getAt undefined l i in
  setAt undefined (setAt undefined l i atJ) j atI.

(** The loop of [shuffleArray], [i] going down to 1; [random call] is the
    value of the [call]-th [Math.random()], and [j] is
    [Math.floor(Math.random() * (i + 1))]. *)
Fixpoint shuffleLoop {A : Type} (undefined : A) (random : nat -> number)
    (call : nat) (i : nat) (shuffled : list A) : list A :=
  match i with
  | O => shuffled
  | S i' =>
      let j := Qfloor (random call * (inject_Z (Z.of_nat i) + 1)) in
      shuffleLoop undefined random (S call) i'
                  (swapAt undefined shuffled (Z.of_nat i) j)
  end.

Definition shuffleArray {A : Type} (undefined : A) (random : nat -> number)
    (array : list A) : list A :=
  shuffleLoop undefined random 0 (List.length array - 1) array.

End PracticeLoad.

(** ** pages/Practice.tsx, continued: the component and the store

    The state the handlers of the component read and write, with the two
    tables of the store they reach: [words] is set by [loadData] and by
    [handleRestart] only, and [handleRate] writes the rated word to the
    store, not to [words]. *)

Module Component.

Local Open Scope Q_scope.
Local Open Scope js_scope.

(** The object store [words], a record under each key [id]: [db.put]
    replaces the record of the same key or adds one, [db.get] finds it. *)
Fixpoint put (table : list Word) (word : Word) : list Word :=
  match table with
  | [] => [word]
  | w :: table' =>
      if Str.eqb (id w) (id word) then word :: table'
      else w :: put table' word
  end.

Definition get (table : list Word) (key : jsstring) : option Word :=
  find (fun w => Str.eqb (id w) key) table.

(** An element of [words] is a word or [undefined] ([None]); the counters
    are the two of the component and the two of the statistics record. *)
Record Session := mkSession {
  words : list (option Word);
  currentIndex : nat;
  finished : bool;
  counters : PracticeStats.Counters;
  table : list Word
}.

(** The state of the component when it mounts, before [loadData]. *)
Definition initial (stats : PracticeStats.Counters) (store : list Word)
    : Session :=
  {| words := [];
     currentIndex := 0;
     finished := false;
     counters :=
       PracticeStats.mkCounters 0 0 (PracticeStats.totalReviews stats)
                                (PracticeStats.totalWordsLearned stats);
     table := store |}.

(** [loadData], up to the state it sets: the words, shuffled. *)
Definition loadData (s : Session) (random : nat -> number)
    (ofList : option jsstring) (now : number) : Session :=
  {| words :=
       PracticeLoad.shuffleArray
         None random
         (map Some (PracticeLoad.wordsToStudy (table s) ofList now));
     currentIndex := currentIndex s;
     finished := finished s;
     counters := counters s;
     table := table s |}.

(** [handleRate]: [currentWord] is [words[currentIndex]]. *)
Definition handleRate (s : Session) (now : number) (rating : UserRating)
    : Session :=
  match nth (currentIndex s) (words s) None with
  | None => s
  | Some currentWord =>
      let last :=
        (List.length (words s) <=? currentIndex s + 1)%nat in
      {| words := words s;
         currentIndex :=
           if last then currentIndex s else (currentIndex s + 1)%nat;
         finished := if last then true else finished s;
         counters := PracticeStats.count currentWord rating (counters s);
         table := put (table s) (Practice.handleRate currentWord now rating)
      |}
  end.

Definition handleRestart (s : Session) (random : nat -> number) : Session :=
  {| words := PracticeLoad.shuffleArray None random (words s);
     currentIndex := 0;
     finished := false;
     counters :=
       PracticeStats.mkCounters
         0 0 (PracticeStats.totalReviews (counters s))
         (PracticeStats.totalWordsLearned (counters s));
     table := table s |}.

(** What the user does in a session: rate the word on show at some instant,
    or start over, the shuffle drawing its random numbers. *)
Inductive Event : Type :=
| Rate (now : number) (rating : UserRating)
| Restart (random : nat -> number).

Definition step (s : Session) (e : Event) : Session :=
  match e with
  | Rate now rating => handleRate s now rating
  | Restart random => handleRestart s random
  end.

Definition run (s : Session) (events : list Event) : Session :=
  fold_left step events s.

End Component.

(** ** components/TypingPractice.tsx, continued: the similarity *)

Module Similarity.

Local Open Scope Q_scope.
Local Open Scope js_scope.

(** [\w] without the [u] flag. *)
Definition isWordChar (c : N) : bool :=
  Str.isAsciiUpper c || Str.isAsciiLower c || Str.isDigit c || (c =? 95)%N.

(** [normalizeAnswer]; [nfd] is the engine's [normalize('NFD')]. *)
Definition normalizeAnswer (u : Unicode) (nfd : jsstring -> jsstring)
    (s : jsstring) : jsstring :=
  let s1 := Uni.toLowerCase u s in
  let s2 := Str.trim s1 in
  let s3 := nfd s2 in
  let s4 := filter (fun c => negb ((0x300 <=? c) && (c <=? 0x36F))%N) s3 in
  filter (fun c => isWordChar c || Str.isWhiteSpace c) s4.

(** One row of the matrix from the row above: [rowAbove] is
    [matrix[i-1][j-1 ..]], [left] is [matrix[i][j-1]], [c1] is [s1[i-1]] and
    [s2] is read from its index [j-1] on; the result is [matrix[i][j ..]]. *)
Fixpoint fillRow (c1 : N) (s2 : jsstring) (rowAbove : list nat)
    (left : nat) : list nat :=
  match s2, rowAbove with
  | c2 :: s2', diagonal :: ((above :: _) as rowAbove') =>
      let cost := if (c1 =? c2)%N then 0%nat else 1%nat in
      let cell :=
        Nat.min (Nat.min (above + 1) (left + 1)) (diagonal + cost) in
      cell :: fillRow c1 s2' rowAbove' cell
  | _, _ => []
  end.

(** The rows of the matrix below row [i - 1], which is [rowAbove]; the
    result is the last row. *)
Fixpoint fillRows (s1 s2 : jsstring) (i : nat) (rowAbove : list nat)
    : list nat :=
  match s1 with
  | [] => rowAbove
  | c1 :: s1' => fillRows s1' s2 (S i) (i :: fillRow c1 s2 rowAbove i)
  end.

(** [matrix[s1.length][s2.length]]. *)
Definition distance (s1 s2 : jsstring) : nat :=
  last (fillRows s1 s2 1 (seq 0 (S (List.length s2)))) 0%nat.

Definition calculateSimilarity (u : Unicode) (nfd : jsstring -> jsstring)
    (a b : jsstring) : number :=
  let s1 := normalizeAnswer u nfd a in
  let s2 := normalizeAnswer u nfd b in
  if Str.eqb s1 s2 then 1
  else
    let maxLength := Nat.max (List.length s1) (List.length s2) in
    1 - inject_Z (Z.of_nat (distance s1 s2)) / inject_Z (Z.of_nat maxLength).

End Similarity.

(** ** utils/ocr.ts, continued: the pipeline and its progress reports *)

Module Pipeline.

Local Open Scope Q_scope.
Local Open Scope js_scope.

(** A message of the recognition worker to its logger. *)
Record LoggerMessage := mkMessage {
  status : jsstring;
  progress : number
}.

(** What the recognition collaborator does with one image in a run that
    succeeds: the messages it logs while the worker is created, while it
    recognizes and while it is terminated, and the text it recognizes. *)
Record Recognition := mkRecognition {
  whileCreating : list LoggerMessage;
  whileRecognizing : list LoggerMessage;
  whileTerminating : list LoggerMessage;
  text : jsstring
}.

(** [m.status === 'recognizing text'] *)
Definition recognizing (m : LoggerMessage) : bool :=
  Str.eqb (status m) (str "recognizing text").

(** The calls of [onProgress] the logger of [performOCR] makes for the
    messages it receives. *)
Definition logged (messages : list LoggerMessage)
    : list (number * jsstring) :=
  flat_map
    (fun m =>
       if recognizing m then
         [(Js.round (progress m * 100), str "Tekst herkennen...")]
       else [])
    messages.

(** [performOCR]: the calls of [onProgress] in their order, and the text. *)
Definition performOCR (r : Recognition)
    : list (number * jsstring) * jsstring :=
  (logged (whileCreating r)
   ++ [(0, str "OCR starten...")]
   ++ logged (whileRecognizing r)
   ++ [(100, str "Voltooid")]
   ++ logged (whileTerminating r),
   text r).

(** [processImage]: the calls of [onProgress] in their order, the result
    and the store of the separators after the run. *)
Definition processImage (u : Unicode) (store : Ocr.Store) (r : Recognition)
    : list (number * jsstring) * OCRResult.t * Ocr.Store :=
  let '(reports, rawText) := performOCR r in
  let '(result, store') := Ocr.parseWordPairs u store rawText in
  ([(0, str "Afbeelding voorbereiden...")]
   ++ [(10, str "OCR starten...")]
   ++ map (fun '(progress, status) => (10 + progress * 0.8, status)) reports
   ++ [(95, str "Woordparen herkennen...")]
   ++ [(100, str "Voltooid")],
   result, store').

End Pipeline.

(** ** Vocabulary of the properties *)

(** A rating the scheduler takes as a successful recall: its quality is at
    least 3. *)
Definition remembered (rating : UserRating) : bool :=
  match rating with
  | good | easy => true
  | again | hard => false
  end.

(** A word whose counters, repetitions and interval are not negative. *)
Definition notNegative (w : Word) : Prop :=
  0 <= timesCorrect w /\ 0 <= timesIncorrect w
  /\ 0 <= repetitions w /\ 0 <= interval w.

(** An ASCII letter, and a word made of ASCII letters only. *)
Definition asciiLetter (c : N) : bool :=
  Str.isAsciiUpper c || Str.isAsciiLower c.

Definition letters (s : jsstring) : Prop :=
  Forall (fun c => asciiLetter c = true) s.

(** A word is a header word when its lower-case form is one of
    [headerWords]. *)
Definition isHeaderWord (s : jsstring) : bool :=
  existsb
    (Str.eqb (map (fun c => if Str.isAsciiUpper c then (c + 32)%N else c) s))
    Ocr.headerWords.

(** A pair a reader can use: neither side is empty, neither side starts or
    ends with white space, and the confidence lies between 0.28 and 1. *)
Definition wellFormed (p : ParsedWordPair.t) : Prop :=
  ParsedWordPair.term p <> [] /\ ParsedWordPair.definition p <> []
  /\ Str.trim (ParsedWordPair.term p) = ParsedWordPair.term p
  /\ Str.trim (ParsedWordPair.definition p) = ParsedWordPair.definition p
  /\ 0.28 <= ParsedWordPair.confidence p
  /\ ParsedWordPair.confidence p <= 1.

(** A whole number. *)
Definition whole (x : number) : Prop := exists z : Z, x == inject_Z z.

(** The double [x] is finite and its exact value is [q]. *)
Definition represents (x : PrimFloat.float) (q : number) : Prop :=
  match Binary64.value x with
  | Some v => v == q
  | None => False
  end.

(** The four fields [calculateMastery] reads hold in the doubles of [d] the
    numbers they hold in [w]. *)
Definition sameCounts (d : Binary64.Word) (w : Word) : Prop :=
  represents (Binary64.timesCorrect d) (timesCorrect w)
  /\ represents (Binary64.timesIncorrect d) (timesIncorrect w)
  /\ represents (Binary64.repetitions d) (repetitions w)
  /\ represents (Binary64.interval d) (interval w).

(** What keeps the next interval positive: the ease factor is at its floor
    or above, and a word with repetitions on record has an interval of a
    day or more. *)
Definition schedulable (w : Word) : Prop :=
  1.3 <= easeFactor w /\ (repetitions w == 0 \/ 1 <= interval w).


(** What [Math.random] promises: a number from 0 up to but not including
    1, at every call. *)
Definition fairRandom (random : nat -> number) : Prop :=
  forall call : nat, 0 <= random call /\ random call < 1.

(** The number of ratings among the events of a session. *)
Definition isRate (e : Component.Event) : bool :=
  match e with
  | Component.Rate _ _ => true
  | Component.Restart _ => false
  end.

Definition ratingCount (events : list Component.Event) : number :=
  inject_Z (Z.of_nat (List.length (filter isRate events))).

(** The words of a session are all there and all new: none is [undefined]
    and each has its repetitions at 0. *)
Definition newWords (words : list (option Word)) : Prop :=
  Forall (fun o => exists w : Word, o = Some w /\ repetitions w == 0) words.

(** A session in which every rating is [hard]. *)
Definition hardSession (events : list Component.Event) : Prop :=
  Forall (fun e => match e with
                   | Component.Rate _ rating => rating = hard
                   | Component.Restart random => fairRandom random
                   end) events.

(** ** Sample words *)

(** A word as the import flows create it: the given texts with the default
    scheduling fields of instant [now] merged in. *)
Definition newWord (term definition : jsstring) (now : number) : Word :=
  merge (mkWord (str "id") (str "list") term definition 0 0 0 0 None 0 0 now)
        (Sm2.getDefaultSM2Values now).

(** A word in the middle of its life. *)
Definition seasonedWord : Word :=
  mkWord (str "id") (str "list") (str "Hond") (str "Chien")
         2.5 6 2 0 (Some 0) 3 1 0.

(** A word with no review on record whose other fields are high. *)
Definition unreviewedWord : Word :=
  mkWord (str "id") (str "list") (str "Kat") (str "Chat")
         2.5 30 5 0 None 0 0 0.

(** A word whose exact mastery score is a tie before rounding, 52.5, and
    the doubles of the four fields the score reads. *)
Definition tieWord : Word :=
  mkWord (str "id") (str "list") (str "Hond") (str "Chien")
         2.5 9 3 0 (Some 0) 3 2 0.

Definition tieWord64 : Binary64.Word :=
  Binary64.mkWord (Binary64.ofNat 3) (Binary64.ofNat 2) (Binary64.ofNat 3)
                  (Binary64.ofNat 9).

(** The word with [c] reviews remembered, [i] not, [r] repetitions and an
    interval of [d] days, on exact numbers and on doubles. *)
Definition wordOfCounts (c i r d : nat) : Word :=
  mkWord (str "id") (str "list") (str "Hond") (str "Chien") 2.5
         (inject_Z (Z.of_nat d)) (inject_Z (Z.of_nat r)) 0 (Some 0)
         (inject_Z (Z.of_nat c)) (inject_Z (Z.of_nat i)) 0.

Definition word64OfCounts (c i r d : nat) : Binary64.Word :=
  Binary64.mkWord (Binary64.ofNat c) (Binary64.ofNat i) (Binary64.ofNat r)
                  (Binary64.ofNat d).

(** The score on doubles is the exact formula or one below it. *)
Definition nearFormula (c i r d : nat) : bool :=
  match Binary64.value (Binary64.calculateMastery (word64OfCounts c i r d))
  with
  | Some v =>
      Qeq_bool v (masteryFormula (wordOfCounts c i r d))
      || Qeq_bool v (masteryFormula (wordOfCounts c i r d) - 1)
  | None => false
  end.

(** * Properties *)

Local Open Scope Q_scope.

(** ** Numbers *)

Lemma ltb_true (a b : number) : Js.ltb a b = true <-> a < b.
Proof.
  unfold Js.ltb. rewrite negb_true_iff, <- not_true_iff_false, Qle_bool_iff.
  split; [apply Qnot_le_lt | apply Qlt_not_le].
Qed.

Lemma ltb_false (a b : number) : Js.ltb a b = false <-> b <= a.
Proof.
  unfold Js.ltb. rewrite negb_false_iff. apply Qle_bool_iff.
Qed.

Lemma leb_true (a b : number) : Js.leb a b = true <-> a <= b.
Proof. apply Qle_bool_iff. Qed.

Lemma leb_false (a b : number) : Js.leb a b = false <-> b < a.
Proof.
  unfold Js.leb. rewrite <- not_true_iff_false, Qle_bool_iff.
  split; [apply Qnot_le_lt | apply Qlt_not_le].
Qed.

Lemma eqb_true (a b : number) : Js.eqb a b = true <-> a == b.
Proof. apply Qeq_bool_iff. Qed.

Lemma round_nonneg (x : number) : 0 <= x -> 0 <= Js.round x.
Proof.
  intros Hx. unfold Js.round.
  change 0 with (inject_Z 0). rewrite <- Zle_Qle.
  change 0%Z with (Qfloor 0). apply Qfloor_resp_le. lra.
Qed.

Lemma round_compat (x y : number) : x == y -> Js.round x = Js.round y.
Proof.
  intros E. unfold Js.round. f_equal. apply Qfloor_comp. now rewrite E.
Qed.

Lemma floor_positive (x : number) :
  Js.gtb (Js.floor x) 0 = true <-> 1 <= x.
Proof.
  unfold Js.gtb, Js.floor. rewrite ltb_true.
  change 0 with (inject_Z 0). rewrite <- Zlt_Qlt. split.
  - intros H. apply Qle_trans with (inject_Z (Qfloor x)); [| apply Qfloor_le].
    change 1 with (inject_Z 1). rewrite <- Zle_Qle. lia.
  - intros H. apply (Qfloor_resp_le 1 x) in H. change (Qfloor 1) with 1%Z in H.
    lia.
Qed.

Lemma floor_not_positive (x : number) :
  Js.gtb (Js.floor x) 0 = false <-> x < 1.
Proof.
  rewrite <- not_true_iff_false, floor_positive.
  split; [apply Qnot_le_lt | apply Qlt_not_le].
Qed.

(** ** The scheduler *)

Module Sm2Facts.

Import Sm2.

Lemma easeFactor_next (w : Word) (now : number) (r : UserRating) :
  Partial.easeFactor (calculateNextReview w now r)
  = let quality := ratingToQuality r in
    let easeFactor' :=
      easeFactor w
      + (0.1 - (5 - quality) * (0.08 + (5 - quality) * 0.02)) in
    if Js.ltb easeFactor' 1.3 then 1.3 else easeFactor'.
Proof. destruct r; reflexivity. Qed.

Lemma easeFactor_floor (w : Word) (now : number) (r : UserRating) :
  1.3 <= Partial.easeFactor (calculateNextReview w now r).
Proof.
  rewrite easeFactor_next. cbv zeta.
  destruct (Js.ltb _ _) eqn:E; [lra | now apply ltb_false].
Qed.

Lemma interval_next (w : Word) (now : number) (r : UserRating) :
  Partial.interval (calculateNextReview w now r)
  = if Js.ltb (ratingToQuality r) 3 then 1
    else if Js.eqb (repetitions w) 0 then 1
    else if Js.eqb (repetitions w) 1 then 6
    else Js.round (interval w * easeFactor w).
Proof. destruct r; reflexivity. Qed.

Lemma repetitions_next (w : Word) (now : number) (r : UserRating) :
  Partial.repetitions (calculateNextReview w now r)
  = if Js.ltb (ratingToQuality r) 3 then 0 else repetitions w + 1.
Proof. destruct r; reflexivity. Qed.

Lemma nextReview_next (w : Word) (now : number) (r : UserRating) :
  Partial.nextReview (calculateNextReview w now r)
  = now + Partial.interval (calculateNextReview w now r)
          * 24 * 60 * 60 * 1000.
Proof. destruct r; reflexivity. Qed.

End Sm2Facts.

(** C1. An item whose ease factor is at least 1.3 and whose interval is not
    negative keeps both bounds through [calculateNextReview], whatever the
    rating and the review instant. *)
Theorem calculateNextReview_keeps_bounds :
  forall (w : Word) (now : number) (r : UserRating),
    1.3 <= easeFactor w ->
    0 <= interval w ->
    1.3 <= Partial.easeFactor (Sm2.calculateNextReview w now r)
    /\ 0 <= Partial.interval (Sm2.calculateNextReview w now r).
Proof.
  intros w now r Hef Hiv. split.
  - apply Sm2Facts.easeFactor_floor.
  - rewrite Sm2Facts.interval_next.
    repeat match goal with
           | |- context [if ?b then _ else _] => destruct b
           end; try lra.
    apply round_nonneg. nra.
Qed.

Lemma calculateNextReview_keeps_bounds_witness :
  1.3 <= Partial.easeFactor (Sm2.calculateNextReview seasonedWord 10 hard)
  /\ 0 <= Partial.interval (Sm2.calculateNextReview seasonedWord 10 hard).
Proof.
  apply (calculateNextReview_keeps_bounds seasonedWord 10 hard);
    unfold Qle; simpl; lia.
Defined.

(** ** Repeated lapses *)

Section Lapses.

Import Practice.

(** What one [again] does to any word. *)
Lemma again_step (w : Word) (now : number) :
  let w' := handleRate w now again in
  interval w' == 1 /\ repetitions w' == 0 /\ 1.3 <= easeFactor w'
  /\ (1.3 <= easeFactor w -> easeFactor w' <= easeFactor w).
Proof.
  cbn zeta. unfold handleRate. cbn [merge interval repetitions easeFactor].
  rewrite Sm2Facts.interval_next, Sm2Facts.repetitions_next.
  repeat split; try reflexivity.
  - apply Sm2Facts.easeFactor_floor.
  - intros H. rewrite Sm2Facts.easeFactor_next.
    cbv zeta. cbn [Sm2.ratingToQuality].
    destruct (Js.ltb _ _) eqn:E; [exact H | lra].
Qed.

Let nonIncreasing (a b : Word) : Prop := easeFactor b <= easeFactor a.

Lemma again_session (nows : list number) :
  forall w : Word,
    let run := session w (map (fun now => (now, again)) nows) in
    Forall (fun x => interval x == 1 /\ repetitions x == 0
                     /\ 1.3 <= easeFactor x) run
    /\ (1.3 <= easeFactor w -> StronglySorted nonIncreasing (w :: run)).
Proof.
  induction nows as [| now nows IH]; intros w; cbn zeta; cbn [map session].
  - split; [constructor |]. intros _. repeat constructor.
  - destruct (again_step w now) as (Hi & Hr & Hf & Hle).
    destruct (IH (handleRate w now again)) as [Hall Hsorted].
    split.
    + constructor; [now repeat split | exact Hall].
    + intros Hw. specialize (Hsorted Hf). specialize (Hle Hw).
      constructor; [exact Hsorted |].
      constructor; [exact Hle |].
      apply StronglySorted_inv in Hsorted. destruct Hsorted as [_ Hrest].
      eapply Forall_impl; [| exact Hrest].
      intros x Hx. unfold nonIncreasing in *. lra.
Qed.

End Lapses.

(** C2. Whatever the word and however many times [again] is rated (at any
    instants), after every application the interval is 1 and the repetitions
    are 0, the ease factor is at least 1.3, and the ease factors of the run
    never increase; when the word starts with an ease factor of at least 1.3,
    as the data model requires, its starting value heads the non-increasing
    sequence. *)
Theorem again_keeps_interval_1_repetitions_0 :
  forall (w : Word) (nows : list number),
    let run := Practice.session w (map (fun now => (now, again)) nows) in
    Forall (fun x => interval x == 1 /\ repetitions x == 0
                     /\ 1.3 <= easeFactor x) run
    /\ StronglySorted (fun a b => easeFactor b <= easeFactor a) run
    /\ (1.3 <= easeFactor w ->
        StronglySorted (fun a b => easeFactor b <= easeFactor a) (w :: run)).
Proof.
  intros w nows run.
  destruct (again_session nows w) as [Hall Hsorted]. fold run in Hall, Hsorted.
  split; [exact Hall |]. split; [| exact Hsorted].
  subst run. destruct nows as [| now nows]; [constructor |].
  cbn [map Practice.session].
  destruct (again_session nows (Practice.handleRate w now again)) as [_ H].
  apply H. apply (again_step w now).
Qed.

(** The run of claim C2 on a sample word: three lapses in a row. *)
Lemma again_keeps_interval_1_repetitions_0_witness :
  Forall (fun x => interval x == 1 /\ repetitions x == 0
                   /\ 1.3 <= easeFactor x)
         (Practice.session seasonedWord [(10, again); (20, again); (30, again)])
  /\ StronglySorted (fun a b => easeFactor b <= easeFactor a)
       (seasonedWord
        :: Practice.session seasonedWord
             [(10, again); (20, again); (30, again)]).
Proof.
  destruct (again_keeps_interval_1_repetitions_0 seasonedWord [10; 20; 30])
    as (H1 & _ & H3).
  split; [exact H1 | apply H3].
  unfold Qle; simpl; lia.
Defined.

(** ** Three [good] ratings from the default state *)

(** C3. From the default state (ease 2.5, interval 0, repetitions 0), three
    [good] ratings at instants that do not go back leave 3 repetitions; the
    intervals are 1, then 6, then [round(6 * easeFactor)] (which is 15, the
    ease factor still being 2.5); and the three [nextReview] timestamps
    strictly increase. *)
Theorem three_good_from_default :
  forall (w0 : Word) (t0 t1 t2 t3 : number),
    t1 <= t2 -> t2 <= t3 ->
    let w := merge w0 (Sm2.getDefaultSM2Values t0) in
    let w1 := Practice.handleRate w t1 good in
    let w2 := Practice.handleRate w1 t2 good in
    let w3 := Practice.handleRate w2 t3 good in
    repetitions w3 == 3
    /\ interval w1 == 1 /\ interval w2 == 6
    /\ interval w3 == Js.round (6 * easeFactor w2)
    /\ interval w3 == 15
    /\ nextReview w1 < nextReview w2 /\ nextReview w2 < nextReview w3.
Proof.
  intros w0 t0 t1 t2 t3 H12 H23 w w1 w2 w3.
  assert (E1 : interval w1 = 1) by reflexivity.
  assert (E2 : interval w2 = 6) by reflexivity.
  assert (E3 : interval w3 = 15) by reflexivity.
  assert (N1 : nextReview w1 = t1 + 1 * 24 * 60 * 60 * 1000) by reflexivity.
  assert (N2 : nextReview w2 = t2 + 6 * 24 * 60 * 60 * 1000) by reflexivity.
  assert (N3 : nextReview w3 = t3 + 15 * 24 * 60 * 60 * 1000) by reflexivity.
  rewrite E1, E2, E3, N1, N2, N3.
  repeat split; try reflexivity; lra.
Qed.

Lemma three_good_from_default_witness :
  repetitions
    (Practice.handleRate
       (Practice.handleRate
          (Practice.handleRate (newWord (str "Hond") (str "Chien") 0) 5 good)
          5 good) 7 good) == 3.
Proof.
  exact (proj1 (three_good_from_default
                  (mkWord (str "id") (str "list") (str "Hond") (str "Chien")
                          0 0 0 0 None 0 0 0)
                  0 5 5 7
                  ltac:(unfold Qle; simpl; lia) ltac:(unfold Qle; simpl; lia))).
Defined.

(** ** The mastery score *)

(** On exact numbers the expression of [calculateMastery] and the formula
    of the specification are the same number: with at least one review on
    record the score is the weighted formula, and with none it is 0 whatever
    the other fields hold. What the engine returns differs from the formula
    through the rounding of its doubles alone. *)
Lemma calculateMastery_exact_formula :
  forall w : Word,
    (~ timesCorrect w + timesIncorrect w == 0 ->
     Sm2.calculateMastery w == masteryFormula w)
    /\ (timesCorrect w + timesIncorrect w == 0 ->
        Sm2.calculateMastery w == 0).
Proof.
  intros w. unfold Sm2.calculateMastery.
  destruct (Js.eqb _ 0) eqn:E.
  - apply eqb_true in E. split; [intros H; now elim H | reflexivity].
  - split.
    + intros _. unfold masteryFormula.
      erewrite round_compat; [reflexivity |]. ring.
    + intros H. apply eqb_true in H. congruence.
Qed.

Section MasteryOnDoubles.

Import Floats.
#[local] Set Warnings "-inexact-float".
Local Open Scope float_scope.

(** The product of two doubles does not depend on their order. *)
Lemma SFmul_comm (prec emax : Z) (x y : spec_float) :
  SFmul prec emax x y = SFmul prec emax y x.
Proof.
  destruct x as [sx | sx | | sx mx ex], y as [sy | sy | | sy my ey];
    cbn [SFmul]; rewrite ?(xorb_comm sx sy); try reflexivity.
  now rewrite (Pos.mul_comm mx my), (Z.add_comm ex ey).
Qed.

Lemma mul_comm64 (x y : float) : x * y = y * x.
Proof.
  apply Prim2SF_inj. rewrite !mul_spec. apply SFmul_comm.
Qed.

(** For three reviews remembered and two not, three repetitions and an
    interval of nine days the exact score is 52.5 before rounding and 53
    after it; the doubles of the engine add up to 52.499999999999993, just
    under the tie, and [calculateMastery] returns 52. *)
Lemma calculateMastery_loses_a_tie :
  sameCounts tieWord64 tieWord
  /\ Binary64.calculateMastery tieWord64 = 52
  /\ ((3 / (3 + 2) * 0.5 + Binary64.min (3 / 5) 1 * 0.25
       + Binary64.min (9 / 30) 1 * 0.25) * 100 <? 52.5) = true
  /\ (masteryFormula tieWord == 53)%Q.
Proof.
  repeat apply conj; vm_compute; reflexivity.
Qed.

(** C4, as stated, fails: the score the engine returns is not always the
    rounding of the exact weighted sum. At 3 reviews remembered, 2 not,
    3 repetitions and an interval of 9 days the formula gives 53 and the
    code 52. *)
Lemma calculateMastery_exact_formula_fails :
  ~ (forall (d : Binary64.Word) (w : Word),
       sameCounts d w ->
       ~ (timesCorrect w + timesIncorrect w == 0)%Q ->
       represents (Binary64.calculateMastery d) (masteryFormula w)).
Proof.
  intros H. specialize (H tieWord64 tieWord).
  assert (S : sameCounts tieWord64 tieWord)
    by (repeat apply conj; vm_compute; reflexivity).
  assert (N : ~ (timesCorrect tieWord + timesIncorrect tieWord == 0)%Q)
    by (intros E; vm_compute in E; discriminate E).
  specialize (H S N). vm_compute in H. discriminate H.
Qed.

(** How far the engine strays from the exact formula, on the words of up to
    ten reviews remembered and ten not, whatever their repetitions and
    interval up to the caps of the two bonuses: the score is the formula's
    or one below it, never above it. *)
Lemma calculateMastery_near_exact_formula :
  forall c i r d : nat,
    (c <= 10)%nat -> (i <= 10)%nat -> (r <= 6)%nat -> (d <= 31)%nat ->
    (0 < c + i)%nat ->
    represents (Binary64.calculateMastery (word64OfCounts c i r d))
               (masteryFormula (wordOfCounts c i r d))
    \/ represents (Binary64.calculateMastery (word64OfCounts c i r d))
                  (masteryFormula (wordOfCounts c i r d) - 1)%Q.
Proof.
  assert (A : forallb
                (fun c =>
                   forallb
                     (fun i =>
                        forallb
                          (fun r =>
                             forallb
                               (fun d =>
                                  (c + i =? 0)%nat || nearFormula c i r d)
                               (seq 0 32))
                          (seq 0 7))
                     (seq 0 11))
                (seq 0 11) = true)
    by (vm_compute; reflexivity).
  intros c i r d Hc Hi Hr Hd Hn.
  rewrite forallb_forall in A.
  specialize (A c ltac:(apply in_seq; lia)). rewrite forallb_forall in A.
  specialize (A i ltac:(apply in_seq; lia)). rewrite forallb_forall in A.
  specialize (A r ltac:(apply in_seq; lia)). rewrite forallb_forall in A.
  specialize (A d ltac:(apply in_seq; lia)).
  apply orb_true_iff in A. destruct A as [A | A].
  - apply Nat.eqb_eq in A. lia.
  - unfold nearFormula in A. unfold represents.
    destruct (Binary64.value _) as [v |]; [| discriminate A].
    apply orb_true_iff in A.
    destruct A as [A | A]; apply Qeq_bool_iff in A; [left | right]; exact A.
Qed.

(** C4, amended. For every word, whatever doubles its fields hold, the score
    is the formula of the specification with each of its operations rounded
    to the nearest double, and it is 0 when [timesCorrect + timesIncorrect]
    is 0, whatever the other fields hold. *)
Theorem calculateMastery_formula_on_doubles :
  forall w : Binary64.Word,
    Binary64.calculateMastery w
    = if Binary64.timesCorrect w + Binary64.timesIncorrect w =? 0 then 0
      else Binary64.masteryFormula w.
Proof.
  intros w. unfold Binary64.calculateMastery, Binary64.masteryFormula.
  destruct (_ =? 0); [reflexivity |]. cbv zeta.
  set (accuracy := Binary64.timesCorrect w / _).
  set (repetitionBonus := Binary64.min _ 1).
  set (intervalBonus := Binary64.min _ 1).
  rewrite (mul_comm64 100 _), (mul_comm64 0.5 accuracy),
    (mul_comm64 0.25 repetitionBonus), (mul_comm64 0.25 intervalBonus).
  reflexivity.
Qed.

End MasteryOnDoubles.

(** ** The due text *)

(** C5, as stated, fails: a review due in one hour is less than a day away
    and is shown as "1 uur". *)
Lemma getNextReviewText_one_hour_is_not_now :
  ~ (forall now nextReview : number,
       nextReview - now < 86400000 ->
       Sm2.getNextReviewText now nextReview = str "Nu").
Proof.
  intros H. specialize (H 0 3600000).
  assert (H1 : 3600000 - 0 < 86400000) by (unfold Qlt; simpl; lia).
  specialize (H H1). vm_compute in H. discriminate H.
Qed.

(** C5, amended. When the review is due in less than a day (or overdue), the
    text is "Nu" under one minute, the whole minutes under one hour, and the
    whole hours otherwise. *)
Theorem getNextReviewText_under_a_day :
  forall now nextReview : number,
    nextReview - now < 86400000 ->
    Sm2.getNextReviewText now nextReview
    = if Js.ltb (nextReview - now) 60000 then str "Nu"
      else if Js.ltb (nextReview - now) 3600000 then
        Str.ofInteger (Js.floor ((nextReview - now) / (1000 * 60)))
        ++ str " min"
      else
        Str.ofInteger (Js.floor ((nextReview - now) / (1000 * 60 * 60)))
        ++ str " uur".
Proof.
  intros now nextReview. unfold Sm2.getNextReviewText.
  set (diff := nextReview - now). intros Hday.
  destruct (Js.leb diff 0) eqn:E0.
  - apply leb_true in E0.
    assert (L : Js.ltb diff 60000 = true) by (apply ltb_true; lra).
    now rewrite L.
  - apply leb_false in E0.
    assert (D : Js.gtb (Js.floor (diff / (1000 * 60 * 60 * 24))) 0 = false).
    { apply floor_not_positive. apply Qlt_shift_div_r; lra. }
    rewrite D.
    destruct (Js.ltb diff 60000) eqn:Em.
    + apply ltb_true in Em.
      assert (Hh : Js.gtb (Js.floor (diff / (1000 * 60 * 60))) 0 = false).
      { apply floor_not_positive. apply Qlt_shift_div_r; lra. }
      assert (Hm : Js.gtb (Js.floor (diff / (1000 * 60))) 0 = false).
      { apply floor_not_positive. apply Qlt_shift_div_r; lra. }
      now rewrite Hh, Hm.
    + apply ltb_false in Em.
      destruct (Js.ltb diff 3600000) eqn:Eh.
      * apply ltb_true in Eh.
        assert (Hh : Js.gtb (Js.floor (diff / (1000 * 60 * 60))) 0 = false).
        { apply floor_not_positive. apply Qlt_shift_div_r; lra. }
        assert (Hm : Js.gtb (Js.floor (diff / (1000 * 60))) 0 = true).
        { apply floor_positive. apply Qle_shift_div_l; lra. }
        now rewrite Hh, Hm.
      * apply ltb_false in Eh.
        assert (Hh : Js.gtb (Js.floor (diff / (1000 * 60 * 60))) 0 = true).
        { apply floor_positive. apply Qle_shift_div_l; lra. }
        now rewrite Hh.
Qed.

Lemma getNextReviewText_under_a_day_witness :
  Sm2.getNextReviewText 1000 31000 = str "Nu"
  /\ Sm2.getNextReviewText 1000 1801000 = str "30 min"
  /\ Sm2.getNextReviewText 1000 7201000 = str "2 uur".
Proof.
  split; [| split].
  - rewrite (getNextReviewText_under_a_day 1000 31000);
      [reflexivity | unfold Qlt; simpl; lia].
  - rewrite (getNextReviewText_under_a_day 1000 1801000);
      [reflexivity | unfold Qlt; simpl; lia].
  - rewrite (getNextReviewText_under_a_day 1000 7201000);
      [reflexivity | unfold Qlt; simpl; lia].
Defined.

(** ** A [good] rating leaves the ease factor alone *)

(** C10. The quality of [good] is 4, the update term at quality 4 is exactly
    0, and so an ease factor of at least 1.3 comes back unchanged: the floor
    at 1.3 does not fire. *)
Theorem good_keeps_easeFactor :
  forall (w : Word) (now : number),
    1.3 <= easeFactor w ->
    Sm2.ratingToQuality good == 4
    /\ 0.1 - (5 - 4) * (0.08 + (5 - 4) * 0.02) == 0
    /\ Js.ltb (easeFactor w + (0.1 - (5 - 4) * (0.08 + (5 - 4) * 0.02))) 1.3
       = false
    /\ Partial.easeFactor (Sm2.calculateNextReview w now good)
       == easeFactor w.
Proof.
  intros w now H.
  assert (F : Js.ltb (easeFactor w
                      + (0.1 - (5 - 4) * (0.08 + (5 - 4) * 0.02))) 1.3
              = false) by (apply ltb_false; lra).
  repeat split; try reflexivity; [exact F |].
  rewrite Sm2Facts.easeFactor_next. cbv zeta. cbn [Sm2.ratingToQuality].
  rewrite F. lra.
Qed.

Lemma good_keeps_easeFactor_witness :
  Partial.easeFactor (Sm2.calculateNextReview seasonedWord 10 good)
  == easeFactor seasonedWord.
Proof.
  apply (good_keeps_easeFactor seasonedWord 10).
  unfold Qle; simpl; lia.
Defined.

(** *** The same on doubles *)

Module Binary64Facts.

Import Floats.
#[local] Set Warnings "-inexact-float".
Local Open Scope float_scope.

(** On doubles too the update term of [good] is exactly zero. *)
Lemma good_update_is_zero :
  0.1 - (5 - Binary64.ratingToQuality good)
        * (0.08 + (5 - Binary64.ratingToQuality good) * 0.02) = 0.
Proof. reflexivity. Qed.

(** Whatever double comes in, the ease factor that comes out is not below
    1.3. *)
Lemma nextEaseFactor_not_below_floor (easeFactor : float)
    (rating : UserRating) :
  (Binary64.nextEaseFactor easeFactor rating <? 1.3) = false.
Proof.
  unfold Binary64.nextEaseFactor. cbv zeta.
  set (easeFactor' := easeFactor + _).
  destruct (easeFactor' <? 1.3) eqn:E; [reflexivity | exact E].
Qed.

(** A double of at least 1.3 (so not a NaN) plus zero is itself. *)
Lemma add_zero (x : float) : (1.3 <=? x) = true -> x + 0 = x.
Proof.
  intros H. apply Prim2SF_inj. rewrite add_spec. rewrite leb_spec in H.
  assert (Z0 : Prim2SF 0 = S754_zero false) by reflexivity.
  assert (T : Prim2SF 1.3 = S754_finite false 5854679515581645 (-52))
    by (vm_compute; reflexivity).
  rewrite Z0. rewrite T in H.
  destruct (Prim2SF x) as [s | s | | s m e]; try reflexivity.
  destruct s; discriminate H.
Qed.

(** A double of at least 1.3 is not below 1.3. *)
Lemma not_below (x : float) : (1.3 <=? x) = true -> (x <? 1.3) = false.
Proof.
  intros H. rewrite ltb_spec. rewrite leb_spec in H.
  assert (T : Prim2SF 1.3 = S754_finite false 5854679515581645 (-52))
    by (vm_compute; reflexivity).
  rewrite T in *. clear T. unfold SFltb, SFleb in *.
  destruct (Prim2SF x) as [s | s | | s m e].
  - destruct s; discriminate H.
  - destruct s; [discriminate H | reflexivity].
  - discriminate H.
  - destruct s; [discriminate H |].
    unfold SFcompare in *.
    rewrite (Z.compare_antisym e (-52)) in H.
    assert (P : Pos.compare_cont Eq 5854679515581645 m
                = CompOpp (Pos.compare_cont Eq m 5854679515581645))
      by (symmetry; apply (Pos.compare_cont_antisym m 5854679515581645 Eq)).
    rewrite P in H. clear P.
    destruct (Z.compare e (-52)); try reflexivity; try discriminate H.
    destruct (Pos.compare_cont Eq m 5854679515581645);
      try reflexivity; try discriminate H.
Qed.

(** On doubles too [good] gives back an ease factor of at least 1.3 as it
    came, bit for bit. *)
Lemma good_keeps_easeFactor_on_doubles (easeFactor : float) :
  (1.3 <=? easeFactor) = true ->
  Binary64.nextEaseFactor easeFactor good = easeFactor.
Proof.
  intros H. unfold Binary64.nextEaseFactor. cbv zeta.
  rewrite good_update_is_zero, (add_zero easeFactor H).
  now rewrite (not_below easeFactor H).
Qed.

End Binary64Facts.

(** ** The split loop never runs out of fuel *)

Module RegExpFacts.

Import RegExp.

Lemma skipn_shorter (n : nat) (c : N) (rest : jsstring) :
  (List.length (skipn (S n) (c :: rest)) <= List.length rest)%nat.
Proof. cbn [skipn]. rewrite length_skipn. lia. Qed.

Lemma toDo_append (piece : jsstring) (c : N) (rest : jsstring) :
  (toDo (piece ++ [c]) rest < toDo piece (c :: rest))%nat.
Proof.
  unfold toDo. cbn [List.length].
  destruct (piece ++ [c]) eqn:E; [now destruct piece |].
  destruct piece; lia.
Qed.

(** With more fuel than there is to do, the amount of fuel does not
    matter: the fallback of the loop is never reached. *)
Lemma splitLoop_fuel (r : t) :
  forall (fuel1 fuel2 q : nat) (piece rest : jsstring),
    (toDo piece rest < fuel1)%nat ->
    (toDo piece rest < fuel2)%nat ->
    splitLoop r fuel1 q piece rest = splitLoop r fuel2 q piece rest.
Proof.
  induction fuel1 as [| fuel1 IH]; intros fuel2 q piece rest H1 H2; [lia |].
  destruct fuel2 as [| fuel2]; [lia |].
  cbn [splitLoop]. destruct rest as [| c rest']; [reflexivity |].
  pose proof (toDo_append piece c rest') as Happ.
  destruct (matchAt r q (c :: rest')) as [texts |].
  - destruct (matchLength texts) as [| len] eqn:El.
    + destruct piece as [| x piece'].
      * apply IH; lia.
      * f_equal. f_equal.
        apply IH; unfold toDo in *; cbn [skipn List.length] in *; lia.
    + f_equal. f_equal.
      pose proof (skipn_shorter len c rest') as Hs.
      apply IH; unfold toDo in *; cbn [List.length] in *; lia.
  - apply IH; lia.
Qed.

(** [split] is its loop run on any fuel above twice the length. *)
Lemma split_any_fuel (r : t) (c : N) (s : jsstring) (fuel : nat) :
  (2 * List.length (c :: s) < fuel)%nat ->
  split r (c :: s) = splitLoop r fuel 0 [] (c :: s).
Proof.
  intros H. unfold split. apply splitLoop_fuel; unfold toDo; lia.
Qed.

End RegExpFacts.

(** ** The extractor on the sample texts of the specification *)

(** Two lines with a spaced dash: two pairs, no unparsed line. *)
Example two_pairs (u : Unicode) :
  let result :=
    fst (Ocr.parseWordPairs u Ocr.initialStore
           (str "Hond - Chien" ++ [10%N] ++ str "Kat - Chat")) in
  map (fun p => (ParsedWordPair.term p, ParsedWordPair.definition p))
      (OCRResult.pairs result)
  = [(str "Hond", str "Chien"); (str "Kat", str "Chat")]
  /\ OCRResult.parseErrors result = [].
Proof. split; vm_compute; reflexivity. Qed.

(** A long line with neither separator nor gap is reported as it is. *)
Example one_unparsed_line (u : Unicode) :
  let result :=
    fst (Ocr.parseWordPairs u Ocr.initialStore (str "xyzxyzxyzxyzxyz")) in
  OCRResult.pairs result = []
  /\ OCRResult.parseErrors result = [str "xyzxyzxyzxyzxyz"].
Proof. split; vm_compute; reflexivity. Qed.

(** A numbered line of two columns: the ordinal is stripped, the gap of four
    spaces separates. *)
Example numbered_columns (u : Unicode) :
  map (fun p => (ParsedWordPair.term p, ParsedWordPair.definition p))
      (OCRResult.pairs
         (fst (Ocr.parseWordPairs u Ocr.initialStore
                 (str "12. la maison    het huis"))))
  = [(str "la maison", str "het huis")].
Proof. vm_compute. reflexivity. Qed.

(** C6. On "Woord\nHond - Chien" the line "Woord" matches no separator, is
    shorter than 15 and is taken for a header; the result holds exactly one
    pair, "Hond" and "Chien" (with confidence 1), and no unparsed line, so
    the header is in neither list. *)
Theorem header_line_is_dropped :
  forall u : Unicode,
    let rawText := str "Woord" ++ [10%N] ++ str "Hond - Chien" in
    let result := fst (Ocr.parseWordPairs u Ocr.initialStore rawText) in
    Ocr.linesOf rawText = [str "Woord"; str "Hond - Chien"]
    /\ fst (Ocr.someTest Ocr.SEPARATORS Ocr.initialStore (str "Woord")) = false
    /\ Str.length (str "Woord") < 15
    /\ fst (Ocr.isLikelyHeader u Ocr.initialStore (str "Woord")) = true
    /\ map (fun p => (ParsedWordPair.term p, ParsedWordPair.definition p))
           (OCRResult.pairs result)
       = [(str "Hond", str "Chien")]
    /\ Forall (fun p => ParsedWordPair.confidence p == 1)
              (OCRResult.pairs result)
    /\ OCRResult.parseErrors result = []
    /\ ~ In (str "Woord") (map ParsedWordPair.term (OCRResult.pairs result))
    /\ ~ In (str "Woord")
            (map ParsedWordPair.definition (OCRResult.pairs result))
    /\ ~ In (str "Woord") (OCRResult.parseErrors result).
Proof.
  intros u rawText result.
  assert (E : result
              = OCRResult.mk rawText
                  [ParsedWordPair.mk (str "Hond") (str "Chien") (100 # 100)]
                  []).
  { subst result rawText. vm_compute. reflexivity. }
  rewrite E. clear E result.
  cbn [OCRResult.pairs OCRResult.parseErrors map
       ParsedWordPair.term ParsedWordPair.definition].
  repeat apply conj.
  - vm_compute. reflexivity.
  - vm_compute. reflexivity.
  - vm_compute. reflexivity.
  - vm_compute. reflexivity.
  - reflexivity.
  - constructor; [vm_compute; reflexivity | constructor].
  - reflexivity.
  - vm_compute. intros [H | []]. discriminate H.
  - vm_compute. intros [H | []]. discriminate H.
  - intros [].
Qed.

(** C7. On "asdf1 - asdf2" the result holds exactly one pair, "asdf1" and
    "asdf2", and its confidence is at most 0.7: the digits bring the factor
    0.7, and, a digit being also outside the usual letters, the factor 0.8
    compounds with it to 0.56. *)
Theorem digits_lower_the_confidence :
  forall u : Unicode,
    let result :=
      fst (Ocr.parseWordPairs u Ocr.initialStore (str "asdf1 - asdf2")) in
    exists p : ParsedWordPair.t,
      OCRResult.pairs result = [p]
      /\ ParsedWordPair.term p = str "asdf1"
      /\ ParsedWordPair.definition p = str "asdf2"
      /\ ParsedWordPair.confidence p <= 0.7
      /\ ParsedWordPair.confidence p == 1.0 * 0.7 * 0.8
      /\ OCRResult.parseErrors result = [].
Proof.
  intros u result.
  exists (ParsedWordPair.mk (str "asdf1") (str "asdf2") (56 # 100)).
  repeat apply conj.
  - vm_compute. reflexivity.
  - reflexivity.
  - reflexivity.
  - vm_compute. discriminate.
  - vm_compute. reflexivity.
  - vm_compute. reflexivity.
Qed.

(** ** The two variants *)

(** C8. The two variants differ. On "Woord" the variant with the header
    filter drops the line and the other reports it as unparsed; on a line of
    two columns three spaces apart the variant with six separators finds a
    pair and the other, whose gap starts at four spaces, reports the line as
    unparsed. *)
Theorem variants_diverge :
  forall u : Unicode,
    (OCRResult.parseErrors
       (fst (Ocr.parseWordPairs u Ocr.initialStore (str "Woord"))) = []
     /\ OCRResult.parseErrors (OcrVariant.parseWordPairs u (str "Woord"))
        = [str "Woord"])
    /\ (OCRResult.pairs
          (fst (Ocr.parseWordPairs u Ocr.initialStore
                  (str "de grote hond   le grand chien"))) = []
        /\ map (fun p => (ParsedWordPair.term p, ParsedWordPair.definition p))
               (OCRResult.pairs
                  (OcrVariant.parseWordPairs u
                     (str "de grote hond   le grand chien")))
           = [(str "de grote hond", str "le grand chien")])
    /\ exists rawText : jsstring,
         OCRResult.pairs (fst (Ocr.parseWordPairs u Ocr.initialStore rawText))
         <> OCRResult.pairs (OcrVariant.parseWordPairs u rawText)
         \/ OCRResult.parseErrors
              (fst (Ocr.parseWordPairs u Ocr.initialStore rawText))
            <> OCRResult.parseErrors (OcrVariant.parseWordPairs u rawText).
Proof.
  intros u. repeat apply conj.
  - vm_compute. reflexivity.
  - vm_compute. reflexivity.
  - vm_compute. reflexivity.
  - vm_compute. reflexivity.
  - exists (str "Woord"). right. vm_compute. discriminate.
Qed.

(** ** Determinism of the extractor *)

Section Determinism.

Variable u : Unicode.

Lemma test_flagless (r : RegExp.t) (lastIndex : nat) (s : jsstring) :
  RegExp.flagless r ->
  RegExp.test r lastIndex s = (RegExp.testLiteral r s, lastIndex).
Proof.
  intros [Hg Hy]. unfold RegExp.testLiteral, RegExp.test, RegExp.exec.
  rewrite Hg, Hy. reflexivity.
Qed.

Lemma SEPARATORS_flagless : Forall RegExp.flagless Ocr.SEPARATORS.
Proof. repeat constructor. Qed.

Lemma someTest_store (seps : list RegExp.t) (s : jsstring) :
  Forall RegExp.flagless seps ->
  forall store : Ocr.Store, snd (Ocr.someTest seps store s) = store.
Proof.
  induction 1 as [| r seps Hr _ IH]; intros store; [reflexivity |].
  destruct store as [| i store]; [reflexivity |].
  cbn [Ocr.someTest]. rewrite (test_flagless r i s Hr).
  destruct (RegExp.testLiteral r s); [reflexivity |].
  specialize (IH store). destruct (Ocr.someTest seps store s) as [b st].
  cbn [snd] in *. now subst st.
Qed.

Lemma isLikelyHeader_store (store : Ocr.Store) (line : jsstring) :
  snd (Ocr.isLikelyHeader u store line) = store.
Proof.
  unfold Ocr.isLikelyHeader.
  set (cleanLine := Str.trim _).
  pose proof (someTest_store Ocr.SEPARATORS cleanLine SEPARATORS_flagless
              store) as H.
  destruct (Ocr.someTest Ocr.SEPARATORS store cleanLine) as [b st].
  cbn [snd] in H. subst st.
  destruct (Js.ltb _ _); repeat (match goal with
                                 | |- context [if ?c then _ else _] =>
                                     destruct c
                                 end; try reflexivity).
Qed.

Lemma parseLines_store (lines : list jsstring) :
  forall store : Ocr.Store,
    snd (Ocr.parseLines u store lines) = store.
Proof.
  induction lines as [| line lines IH]; intros store; [reflexivity |].
  cbn [Ocr.parseLines].
  pose proof (isLikelyHeader_store store line) as H.
  destruct (Ocr.isLikelyHeader u store line) as [header st].
  cbn [snd] in H. subst st.
  destruct header; [apply IH |].
  specialize (IH store).
  destruct (Ocr.parseLines u store lines) as [[pairs errs] st].
  cbn [snd] in IH. subst st.
  destruct (Ocr.parseLine u line); [reflexivity |].
  destruct (Js.gtb _ _); reflexivity.
Qed.

Lemma parseWordPairs_store (store : Ocr.Store) (rawText : jsstring) :
  snd (Ocr.parseWordPairs u store rawText) = store.
Proof.
  unfold Ocr.parseWordPairs.
  pose proof (parseLines_store (Ocr.linesOf rawText) store) as H.
  destruct (Ocr.parseLines u store (Ocr.linesOf rawText)) as [[pairs errs] st].
  exact H.
Qed.

End Determinism.

(** C9. Two runs of the extractor on the same text give the same result,
    pairs and unparsed lines alike, whatever the state the shared separator
    objects were in before the first run and whatever other texts are
    extracted between the two: every run leaves the objects as it found
    them. *)
Theorem parseWordPairs_deterministic :
  forall (u : Unicode) (store : Ocr.Store) (rawText : jsstring)
         (between : list jsstring),
    let first := Ocr.parseWordPairs u store rawText in
    let store' :=
      fold_left (fun st other => snd (Ocr.parseWordPairs u st other))
                between (snd first) in
    let second := Ocr.parseWordPairs u store' rawText in
    fst second = fst first
    /\ OCRResult.pairs (fst second) = OCRResult.pairs (fst first)
    /\ OCRResult.parseErrors (fst second) = OCRResult.parseErrors (fst first)
    /\ snd second = store.
Proof.
  intros u store rawText between first store' second.
  assert (E : store' = store).
  { subst store' first. rewrite parseWordPairs_store.
    induction between as [| other between IH]; [reflexivity |].
    cbn [fold_left]. now rewrite parseWordPairs_store. }
  subst second. rewrite E. subst first.
  rewrite parseWordPairs_store. repeat apply conj; reflexivity.
Qed.

(** * Further properties of the scheduler *)

Lemma round_mono (x y : number) : x <= y -> Js.round x <= Js.round y.
Proof.
  intros H. unfold Js.round. rewrite <- Zle_Qle. apply Qfloor_resp_le. lra.
Qed.

Lemma round_whole (z : Z) : Js.round (inject_Z z) == inject_Z z.
Proof.
  unfold Js.round. apply Qle_antisym.
  - rewrite <- Zle_Qle.
    assert (H : inject_Z z + (1 # 2) < inject_Z (z + 1)).
    { rewrite inject_Z_plus. change (inject_Z 1) with 1. lra. }
    pose proof (Qfloor_le (inject_Z z + (1 # 2))) as F.
    assert (L : inject_Z (Qfloor (inject_Z z + (1 # 2))) < inject_Z (z + 1))
      by lra.
    rewrite <- Zlt_Qlt in L. lia.
  - rewrite <- Zle_Qle.
    rewrite <- (Qfloor_Z z) at 1. apply Qfloor_resp_le. lra.
Qed.

Lemma round_at_least (z : Z) (x : number) :
  inject_Z z <= x -> inject_Z z <= Js.round x.
Proof.
  intros H. rewrite <- (round_whole z). now apply round_mono.
Qed.

Lemma round_is_whole (x : number) : whole (Js.round x).
Proof. exists (Qfloor (x + (1 # 2))). reflexivity. Qed.


Lemma remembered_quality_geb (r : UserRating) :
  Js.geb (Sm2.ratingToQuality r) 3 = remembered r.
Proof. destruct r; reflexivity. Qed.

Lemma timesCorrect_next (w : Word) (now : number) (r : UserRating) :
  Partial.timesCorrect (Sm2.calculateNextReview w now r)
  = if remembered r then timesCorrect w + 1 else timesCorrect w.
Proof. destruct r; reflexivity. Qed.

Lemma timesIncorrect_next (w : Word) (now : number) (r : UserRating) :
  Partial.timesIncorrect (Sm2.calculateNextReview w now r)
  = if remembered r then timesIncorrect w else timesIncorrect w + 1.
Proof. destruct r; reflexivity. Qed.

Lemma lastReview_next (w : Word) (now : number) (r : UserRating) :
  Partial.lastReview (Sm2.calculateNextReview w now r) = Some now.
Proof. destruct r; reflexivity. Qed.

Lemma round_above_half (z : Z) (x : number) :
  inject_Z z - (1 # 2) <= x -> inject_Z z <= Js.round x.
Proof.
  intros H. unfold Js.round. rewrite <- Zle_Qle.
  rewrite <- (Qfloor_Z z). apply Qfloor_resp_le. lra.
Qed.

Lemma eqb_false (a b : number) : Js.eqb a b = false <-> ~ a == b.
Proof.
  unfold Js.eqb. rewrite <- not_true_iff_false, Qeq_bool_iff. reflexivity.
Qed.

Lemma schedulable_step (w : Word) (now : number) (r : UserRating) :
  schedulable w ->
  let w' := Practice.handleRate w now r in
  1 <= interval w' /\ whole (interval w') /\ 1.3 <= easeFactor w'
  /\ lastReview w' = Some now
  /\ nextReview w' == now + interval w' * 86400000.
Proof.
  intros [Hef Hiv]. cbn zeta. unfold Practice.handleRate.
  cbn [merge interval easeFactor lastReview nextReview].
  rewrite Sm2Facts.nextReview_next, lastReview_next.
  assert (I : 1 <= Partial.interval (Sm2.calculateNextReview w now r)
              /\ whole (Partial.interval (Sm2.calculateNextReview w now r))).
  { rewrite Sm2Facts.interval_next.
    destruct (Js.ltb _ 3); [split; [lra | now exists 1%Z] |].
    destruct (Js.eqb (repetitions w) 0) eqn:E0;
      [split; [lra | now exists 1%Z] |].
    destruct (Js.eqb (repetitions w) 1);
      [split; [lra | now exists 6%Z] |].
    apply eqb_false in E0. destruct Hiv as [Hiv | Hiv]; [contradiction |].
    split; [| apply round_is_whole].
    change 1 with (inject_Z 1) at 1. apply round_above_half.
    change (inject_Z 1) with 1. nra. }
  destruct I as [I1 I2].
  repeat apply conj; try assumption.
  - apply Sm2Facts.easeFactor_floor.
  - reflexivity.
  - lra.
Qed.

Lemma schedulable_session (events : list (number * UserRating)) :
  forall w : Word,
    schedulable w ->
    Forall (fun x =>
              1 <= interval x /\ whole (interval x) /\ 1.3 <= easeFactor x
              /\ exists now : number,
                   lastReview x = Some now
                   /\ nextReview x == now + interval x * 86400000
                   /\ now + 86400000 <= nextReview x)
           (Practice.session w events).
Proof.
  induction events as [| [now r] events IH]; intros w Hw; [constructor |].
  cbn [Practice.session].
  destruct (schedulable_step w now r Hw) as (H1 & H2 & H3 & H4 & H5).
  constructor.
  - repeat apply conj; try assumption.
    exists now. repeat apply conj; [assumption | assumption | lra].
  - apply IH. split; [assumption | now right].
Qed.

(** X2. Every review stores a word that waits at least a day. A word is
    schedulable with the default fields, and the review at instant [now] of
    a schedulable word, whatever the rating, stores a word that is
    schedulable again, whose interval is a whole number of at least one
    day, whose ease factor is at least 1.3, whose [lastReview] is [now] and
    whose [nextReview] is [now] plus the interval in days, so at least one
    day after [now]. The instant is one a [Date] can hold, in whole
    milliseconds, and the product of interval and ease factor at most a
    million days: there the doubles of the engine hold the interval and the
    two instants exactly. *)
Theorem reviewed_word_waits_a_day :
  forall (w0 : Word) (t0 : number) (w : Word) (now : number)
         (r : UserRating),
    schedulable w ->
    interval w * easeFactor w <= 1000000 ->
    whole now -> 0 <= now -> now <= 8640000000000000 ->
    let w' := Practice.handleRate w now r in
    schedulable (merge w0 (Sm2.getDefaultSM2Values t0))
    /\ schedulable w'
    /\ 1 <= interval w' /\ whole (interval w') /\ 1.3 <= easeFactor w'
    /\ lastReview w' = Some now
    /\ nextReview w' == now + interval w' * 86400000
    /\ now + 86400000 <= nextReview w'.
Proof.
  intros w0 t0 w now r Hw _ _ _ _. cbv zeta.
  destruct (schedulable_step w now r Hw) as (H1 & H2 & H3 & H4 & H5).
  repeat apply conj; try assumption.
  - cbn. lra.
  - left. reflexivity.
  - now right.
  - lra.
Qed.

Lemma reviewed_word_waits_a_day_witness :
  lastReview (Practice.handleRate seasonedWord 10 hard) = Some 10
  /\ nextReview (Practice.handleRate seasonedWord 10 hard) == 10 + 86400000.
Proof.
  assert (S : schedulable seasonedWord).
  { split; [unfold Qle; simpl; lia | right; unfold Qle; simpl; lia]. }
  assert (W : whole 10) by (exists 10%Z; reflexivity).
  pose proof (reviewed_word_waits_a_day
                seasonedWord 0 seasonedWord 10 hard S
                ltac:(unfold Qle; simpl; lia) W
                ltac:(unfold Qle; simpl; lia) ltac:(unfold Qle; simpl; lia))
    as H.
  cbv zeta in H. destruct H as (_ & _ & _ & _ & _ & L & N & _).
  split; [exact L |]. rewrite N. reflexivity.
Defined.




(** X4. A better rating never gives a lower ease factor: for ratings of
    qualities [q1 <= q2] on the same word, the ease factor after the first
    is at most the ease factor after the second. *)
Theorem better_rating_higher_easeFactor :
  forall (w : Word) (now : number) (r1 r2 : UserRating),
    Sm2.ratingToQuality r1 <= Sm2.ratingToQuality r2 ->
    Partial.easeFactor (Sm2.calculateNextReview w now r1)
    <= Partial.easeFactor (Sm2.calculateNextReview w now r2).
Proof.
  intros w now r1 r2 H. rewrite !Sm2Facts.easeFactor_next. cbv zeta.
  destruct r1, r2; cbn [Sm2.ratingToQuality] in *;
    try (exfalso; revert H; apply Qlt_not_le; reflexivity);
    repeat match goal with
           | |- context [Js.ltb ?a ?b] =>
               let E := fresh "E" in
               destruct (Js.ltb a b) eqn:E;
               [apply ltb_true in E | apply ltb_false in E]
           end; lra.
Qed.

Lemma better_rating_higher_easeFactor_witness :
  Partial.easeFactor (Sm2.calculateNextReview seasonedWord 10 hard)
  <= Partial.easeFactor (Sm2.calculateNextReview seasonedWord 10 easy).
Proof.
  apply (better_rating_higher_easeFactor seasonedWord 10 hard easy).
  unfold Qle; simpl; lia.
Defined.

(** ** The preview of the intervals *)

(** X5. The preview agrees with the scheduler for each of the four ratings
    (the fixed text of [again] being the text of the one-day interval the
    scheduler gives it); [hard], a lapse, always previews "1 dag"; [good]
    and [easy] always preview the same text; and the preview does not
    depend on the clock. *)
Theorem preview_agrees_with_scheduler :
  forall (w : Word) (now now' : number) (r : UserRating),
    Sm2Preview.getEstimatedIntervals w now r
    = Sm2Preview.estimateText
        (Partial.interval (Sm2.calculateNextReview w now r))
    /\ Sm2Preview.getEstimatedIntervals w now hard = str "1 dag"
    /\ Sm2Preview.getEstimatedIntervals w now good
       = Sm2Preview.getEstimatedIntervals w now easy
    /\ Sm2Preview.getEstimatedIntervals w now r
       = Sm2Preview.getEstimatedIntervals w now' r.
Proof.
  intros w now now' r. repeat apply conj.
  - destruct r; reflexivity.
  - reflexivity.
  - unfold Sm2Preview.getEstimatedIntervals.
    now rewrite !Sm2Facts.interval_next.
  - unfold Sm2Preview.getEstimatedIntervals.
    destruct r; try reflexivity; now rewrite !Sm2Facts.interval_next.
Qed.

(** ** The mastery score, continued *)

Lemma min_one_bounds (x : number) :
  0 <= x -> 0 <= Js.min x 1 /\ Js.min x 1 <= 1.
Proof.
  intros H. unfold Js.min. destruct (Qle_bool x 1) eqn:E.
  - apply Qle_bool_iff in E. split; assumption.
  - split; lra.
Qed.

Lemma min_one_mono (x y : number) : x <= y -> Js.min x 1 <= Js.min y 1.
Proof.
  intros H. unfold Js.min.
  destruct (Qle_bool x 1) eqn:Ex, (Qle_bool y 1) eqn:Ey;
    try apply Qle_bool_iff in Ex; try apply Qle_bool_iff in Ey; try lra.
  apply not_true_iff_false in Ex. rewrite Qle_bool_iff in Ex.
  exfalso. apply Ex. lra.
Qed.

Lemma accuracy_bounds (c i : number) :
  0 <= c -> 0 <= i -> ~ c + i == 0 ->
  0 <= c / (c + i) /\ c / (c + i) <= 1.
Proof.
  intros Hc Hi Hn.
  assert (P : 0 < c + i).
  { destruct (Qlt_le_dec 0 (c + i)) as [L | L]; [exact L |].
    exfalso. apply Hn. lra. }
  split.
  - apply Qle_shift_div_l; [exact P | lra].
  - apply Qle_shift_div_r; [exact P | lra].
Qed.

Lemma calculateMastery_unfold (w : Word) :
  ~ timesCorrect w + timesIncorrect w == 0 ->
  Sm2.calculateMastery w
  = Js.round
      ((timesCorrect w / (timesCorrect w + timesIncorrect w) * 0.5
        + Js.min (repetitions w / 5) 1 * 0.25
        + Js.min (interval w / 30) 1 * 0.25) * 100).
Proof.
  intros H. unfold Sm2.calculateMastery.
  apply eqb_false in H. now rewrite H.
Qed.

Lemma calculateMastery_bounds (w : Word) :
  0 <= timesCorrect w -> 0 <= timesIncorrect w ->
  0 <= repetitions w -> 0 <= interval w ->
  0 <= Sm2.calculateMastery w /\ Sm2.calculateMastery w <= 100
  /\ whole (Sm2.calculateMastery w).
Proof.
  intros Hc Hi Hr Hv.
  destruct (Qeq_dec (timesCorrect w + timesIncorrect w) 0) as [E | E].
  - unfold Sm2.calculateMastery. apply eqb_true in E. rewrite E.
    repeat apply conj; [lra | lra | now exists 0%Z].
  - rewrite (calculateMastery_unfold w E).
    destruct (accuracy_bounds (timesCorrect w) (timesIncorrect w) Hc Hi E)
      as [A0 A1].
    destruct (min_one_bounds (repetitions w / 5)) as [R0 R1];
      [apply Qle_shift_div_l; lra |].
    destruct (min_one_bounds (interval w / 30)) as [I0 I1];
      [apply Qle_shift_div_l; lra |].
    repeat apply conj.
    + apply round_nonneg. nra.
    + apply Qle_trans with (Js.round 100);
        [apply round_mono; nra | vm_compute; discriminate].
    + apply round_is_whole.
Qed.

(** X6. With counters, repetitions and interval that are not negative, the
    mastery score is a whole number between 0 and 100. *)
Theorem calculateMastery_in_range :
  forall w : Word,
    0 <= timesCorrect w -> 0 <= timesIncorrect w ->
    0 <= repetitions w -> 0 <= interval w ->
    0 <= Sm2.calculateMastery w /\ Sm2.calculateMastery w <= 100
    /\ whole (Sm2.calculateMastery w).
Proof. exact calculateMastery_bounds. Qed.

Lemma calculateMastery_in_range_witness :
  0 <= Sm2.calculateMastery seasonedWord
  /\ Sm2.calculateMastery seasonedWord <= 100
  /\ whole (Sm2.calculateMastery seasonedWord).
Proof.
  apply (calculateMastery_in_range seasonedWord); unfold Qle; simpl; lia.
Defined.

(** X7. With the same counters, a word with more repetitions and a longer
    interval never has a lower mastery score. *)
Theorem calculateMastery_monotone :
  forall w1 w2 : Word,
    timesCorrect w1 = timesCorrect w2 ->
    timesIncorrect w1 = timesIncorrect w2 ->
    repetitions w1 <= repetitions w2 ->
    interval w1 <= interval w2 ->
    Sm2.calculateMastery w1 <= Sm2.calculateMastery w2.
Proof.
  intros w1 w2 Ec Ei Hr Hv. unfold Sm2.calculateMastery.
  rewrite Ec, Ei. destruct (Js.eqb _ 0); [lra |].
  apply round_mono.
  assert (R : Js.min (repetitions w1 / 5) 1 <= Js.min (repetitions w2 / 5) 1).
  { apply min_one_mono. apply Qle_shift_div_l; [lra |].
    unfold Qdiv. rewrite <- Qmult_assoc, (Qmult_comm (/ 5)), Qmult_inv_r;
      [lra | discriminate]. }
  assert (I : Js.min (interval w1 / 30) 1 <= Js.min (interval w2 / 30) 1).
  { apply min_one_mono. apply Qle_shift_div_l; [lra |].
    unfold Qdiv. rewrite <- Qmult_assoc, (Qmult_comm (/ 30)), Qmult_inv_r;
      [lra | discriminate]. }
  lra.
Qed.

Lemma calculateMastery_monotone_witness :
  Sm2.calculateMastery seasonedWord
  <= Sm2.calculateMastery
       (mkWord (str "id") (str "list") (str "Hond") (str "Chien")
               2.5 15 3 0 (Some 0) 3 1 0).
Proof.
  apply (calculateMastery_monotone seasonedWord
           (mkWord (str "id") (str "list") (str "Hond") (str "Chien")
                   2.5 15 3 0 (Some 0) 3 1 0));
    try reflexivity; unfold Qle; simpl; lia.
Defined.

(** ** The due text, continued *)

Lemma floor_above_one (x : number) :
  Js.gtb (Js.floor x) 1 = true <-> 2 <= x.
Proof.
  unfold Js.gtb, Js.floor. rewrite ltb_true.
  change 1 with (inject_Z 1). rewrite <- Zlt_Qlt. split.
  - intros H. apply Qle_trans with (inject_Z (Qfloor x)); [| apply Qfloor_le].
    change 2 with (inject_Z 2). rewrite <- Zle_Qle. lia.
  - intros H. apply (Qfloor_resp_le 2 x) in H. change (Qfloor 2) with 2%Z in H.
    lia.
Qed.

(** The text by the distance to the review. *)
Lemma getNextReviewText_table (now nextReview : number) :
  Sm2.getNextReviewText now nextReview
  = if Js.ltb (nextReview - now) 60000 then str "Nu"
    else if Js.ltb (nextReview - now) 3600000 then
      Str.ofInteger (Js.floor ((nextReview - now) / (1000 * 60)))
      ++ str " min"
    else if Js.ltb (nextReview - now) 86400000 then
      Str.ofInteger (Js.floor ((nextReview - now) / (1000 * 60 * 60)))
      ++ str " uur"
    else
      Str.ofInteger (Js.floor ((nextReview - now) / (1000 * 60 * 60 * 24)))
      ++ str " dag"
      ++ (if Js.ltb (nextReview - now) 172800000 then [] else str "en").
Proof.
  unfold Sm2.getNextReviewText. set (diff := nextReview - now).
  destruct (Js.leb diff 0) eqn:E0.
  - apply leb_true in E0.
    assert (L : Js.ltb diff 60000 = true) by (apply ltb_true; lra).
    now rewrite L.
  - apply leb_false in E0.
    destruct (Js.ltb diff 60000) eqn:Em;
      [apply ltb_true in Em | apply ltb_false in Em].
    { assert (D : Js.gtb (Js.floor (diff / (1000 * 60 * 60 * 24))) 0 = false)
        by (apply floor_not_positive; apply Qlt_shift_div_r; lra).
      assert (H : Js.gtb (Js.floor (diff / (1000 * 60 * 60))) 0 = false)
        by (apply floor_not_positive; apply Qlt_shift_div_r; lra).
      assert (M : Js.gtb (Js.floor (diff / (1000 * 60))) 0 = false)
        by (apply floor_not_positive; apply Qlt_shift_div_r; lra).
      now rewrite D, H, M. }
    destruct (Js.ltb diff 3600000) eqn:Eh;
      [apply ltb_true in Eh | apply ltb_false in Eh].
    { assert (D : Js.gtb (Js.floor (diff / (1000 * 60 * 60 * 24))) 0 = false)
        by (apply floor_not_positive; apply Qlt_shift_div_r; lra).
      assert (H : Js.gtb (Js.floor (diff / (1000 * 60 * 60))) 0 = false)
        by (apply floor_not_positive; apply Qlt_shift_div_r; lra).
      assert (M : Js.gtb (Js.floor (diff / (1000 * 60))) 0 = true)
        by (apply floor_positive; apply Qle_shift_div_l; lra).
      now rewrite D, H, M. }
    destruct (Js.ltb diff 86400000) eqn:Ed;
      [apply ltb_true in Ed | apply ltb_false in Ed].
    { assert (D : Js.gtb (Js.floor (diff / (1000 * 60 * 60 * 24))) 0 = false)
        by (apply floor_not_positive; apply Qlt_shift_div_r; lra).
      assert (H : Js.gtb (Js.floor (diff / (1000 * 60 * 60))) 0 = true)
        by (apply floor_positive; apply Qle_shift_div_l; lra).
      now rewrite D, H. }
    assert (D : Js.gtb (Js.floor (diff / (1000 * 60 * 60 * 24))) 0 = true)
      by (apply floor_positive; apply Qle_shift_div_l; lra).
    rewrite D.
    destruct (Js.ltb diff 172800000) eqn:E2;
      [apply ltb_true in E2 | apply ltb_false in E2].
    + assert (D1 : Js.gtb (Js.floor (diff / (1000 * 60 * 60 * 24))) 1 = false).
      { apply not_true_iff_false. rewrite floor_above_one.
        apply Qlt_not_le. apply Qlt_shift_div_r; lra. }
      now rewrite D1.
    + assert (D1 : Js.gtb (Js.floor (diff / (1000 * 60 * 60 * 24))) 1 = true)
        by (apply floor_above_one; apply Qle_shift_div_l; lra).
      now rewrite D1.
Qed.

Lemma ends_differently (xs ys : jsstring) (a b : N) :
  a <> b -> xs ++ ys ++ [a] <> [78; b]%N.
Proof.
  intros Hab H. apply (f_equal (fun l => last l 0%N)) in H.
  rewrite app_assoc, last_last in H. cbn in H. contradiction.
Qed.

(** X8. The due text is "Nu" exactly when the review is less than one
    minute away (or overdue): a review a minute or more ahead is shown with
    its minutes, hours or days. *)
Theorem getNextReviewText_now_iff :
  forall now nextReview : number,
    Sm2.getNextReviewText now nextReview = str "Nu"
    <-> nextReview - now < 60000.
Proof.
  intros now nextReview. rewrite getNextReviewText_table.
  destruct (Js.ltb (nextReview - now) 60000) eqn:E;
    [apply ltb_true in E | apply ltb_false in E].
  - split; [intros _; exact E | reflexivity].
  - split; [| intros H; exfalso; lra].
    destruct (Js.ltb _ 3600000); [| destruct (Js.ltb _ 86400000)].
    + intros H. exfalso.
      eapply (ends_differently _ [32; 109; 105]%N 110%N 117%N);
        [discriminate | exact H].
    + intros H. exfalso.
      eapply (ends_differently _ [32; 117; 117]%N 114%N 117%N);
        [discriminate | exact H].
    + destruct (Js.ltb _ 172800000); intros H; exfalso.
      * rewrite app_nil_r in H.
        eapply (ends_differently _ [32; 100; 97]%N 103%N 117%N);
          [discriminate | exact H].
      * eapply (ends_differently _ [32; 100; 97; 103; 101]%N 110%N 117%N);
          [discriminate | exact H].
Qed.

(** ** The words that are due *)

(** X9. A word created with the default fields is due from its creation
    on: it is among the due words of its store at every instant that is not
    before the creation, whether the words of its list or all words are
    asked for. *)
Theorem new_word_is_due_at_once :
  forall (w0 : Word) (t0 now : number) (store : list Word),
    t0 <= now ->
    In (merge w0 (Sm2.getDefaultSM2Values t0)) store ->
    In (merge w0 (Sm2.getDefaultSM2Values t0))
       (Db.getDueWords store None now)
    /\ In (merge w0 (Sm2.getDefaultSM2Values t0))
          (Db.getDueWords store (Some (listId w0)) now).
Proof.
  intros w0 t0 now store Ht Hin.
  assert (D : Js.leb (nextReview (merge w0 (Sm2.getDefaultSM2Values t0))) now
              = true) by (apply leb_true; exact Ht).
  unfold Db.getDueWords. split.
  - apply filter_In. split; assumption.
  - apply filter_In. split; [| assumption].
    destruct (listId w0) as [| c l] eqn:El; [assumption |].
    apply filter_In. split; [assumption |].
    cbn [merge listId]. rewrite El. unfold Str.eqb.
    destruct (list_eq_dec N.eq_dec (c :: l) (c :: l)); [reflexivity |].
    contradiction.
Qed.

Lemma new_word_is_due_at_once_witness :
  In (newWord (str "Hond") (str "Chien") 5)
     (Db.getDueWords [seasonedWord; newWord (str "Hond") (str "Chien") 5]
                     None 7).
Proof.
  apply (new_word_is_due_at_once
           (mkWord (str "id") (str "list") (str "Hond") (str "Chien")
                   0 0 0 0 None 0 0 5) 5 7
           [seasonedWord; newWord (str "Hond") (str "Chien") 5]).
  - unfold Qle; simpl; lia.
  - right. left. reflexivity.
Defined.

(** X10. A word that started from the default fields and has been reviewed
    is not due again within the day that follows its last review. *)
Theorem reviewed_word_is_not_due_for_a_day :
  forall (w0 : Word) (t0 : number) (events : list (number * UserRating))
         (x : Word) (t now : number) (store : list Word)
         (ofList : option jsstring),
    In x (Practice.session (merge w0 (Sm2.getDefaultSM2Values t0)) events) ->
    lastReview x = Some t ->
    now < t + 86400000 ->
    ~ In x (Db.getDueWords store ofList now).
Proof.
  intros w0 t0 events x t now store ofList Hx Ht Hnow Hdue.
  assert (S : schedulable (merge w0 (Sm2.getDefaultSM2Values t0)))
    by (split; [cbn; lra | left; reflexivity]).
  pose proof (schedulable_session events _ S) as F.
  rewrite Forall_forall in F. destruct (F x Hx) as (_ & _ & _ & t' & E & _ & L).
  rewrite Ht in E. injection E as E. subst t'.
  unfold Db.getDueWords in Hdue. apply filter_In in Hdue.
  destruct Hdue as [_ Hdue]. apply leb_true in Hdue. lra.
Qed.

Lemma reviewed_word_is_not_due_for_a_day_witness :
  ~ In (Practice.handleRate (newWord (str "Hond") (str "Chien") 0) 10 good)
       (Db.getDueWords
          [Practice.handleRate (newWord (str "Hond") (str "Chien") 0) 10 good]
          None 3600010).
Proof.
  apply (reviewed_word_is_not_due_for_a_day
           (mkWord (str "id") (str "list") (str "Hond") (str "Chien")
                   0 0 0 0 None 0 0 0) 0 [(10, good)]
           (Practice.handleRate (newWord (str "Hond") (str "Chien") 0) 10 good)
           10 3600010).
  - left. reflexivity.
  - reflexivity.
  - unfold Qlt; simpl; lia.
Defined.

(** ** The mastery distribution of the statistics page *)

Lemma list_sum_step (a : nat) (l : list nat) :
  list_sum (a :: l) = (a + list_sum l)%nat.
Proof. reflexivity. Qed.

Lemma bump_from (level : nat) (counts : list nat) :
  forall start : nat,
    list_sum
      (map (fun '(i, count) => if (i =? level)%nat then S count else count)
           (combine (seq start (List.length counts)) counts))
    = (list_sum counts
       + if (start <=? level)%nat && (level <? start + List.length counts)%nat
         then 1 else 0)%nat.
Proof.
  induction counts as [| c counts IH]; intros start.
  - cbn [List.length seq combine map]. rewrite Nat.add_0_r.
    destruct (start <=? level)%nat eqn:E, (level <? start)%nat eqn:F;
      cbn [andb]; try reflexivity.
    apply Nat.leb_le in E. apply Nat.ltb_lt in F. lia.
  - cbn [List.length seq combine map]. rewrite !list_sum_step, IH.
    destruct (start =? level)%nat eqn:E.
    + apply Nat.eqb_eq in E. subst level.
      replace (S start <=? start)%nat with false
        by (symmetry; apply Nat.leb_gt; lia).
      replace (start <=? start)%nat with true
        by (symmetry; apply Nat.leb_le; lia).
      replace (start <? start + S (List.length counts))%nat with true
        by (symmetry; apply Nat.ltb_lt; lia).
      cbn. lia.
    + apply Nat.eqb_neq in E.
      destruct (Nat.leb_spec (S start) level),
               (Nat.ltb_spec level (S start + List.length counts)),
               (Nat.leb_spec start level),
               (Nat.ltb_spec level (start + S (List.length counts)));
        cbn [andb]; lia.
Qed.

Lemma bump_length (level : nat) (counts : list nat) :
  List.length (Stats.bump level counts) = List.length counts.
Proof.
  unfold Stats.bump. rewrite length_map, length_combine, length_seq. lia.
Qed.

Lemma bump_sum (level : nat) (counts : list nat) :
  (level < List.length counts)%nat ->
  list_sum (Stats.bump level counts) = S (list_sum counts).
Proof.
  intros H. unfold Stats.bump. rewrite bump_from.
  replace (level <? 0 + List.length counts)%nat with true
    by (symmetry; apply Nat.ltb_lt; lia).
  cbn. lia.
Qed.

Lemma levelOf_below_4 (w : Word) : (Stats.levelOf w < 4)%nat.
Proof.
  unfold Stats.levelOf.
  destruct (Js.eqb _ 0); [lia |].
  destruct (Js.ltb _ 40); [lia |].
  destruct (Js.ltb _ 80); lia.
Qed.

(** X11. The four counts of the mastery distribution add up to the number
    of words: every word is counted in exactly one of "Nieuw", "Leren",
    "Bekend" and "Geleerd". *)
Theorem masteryLevels_count_every_word :
  forall words : list Word,
    List.length (Stats.masteryLevels words) = 4%nat
    /\ list_sum (Stats.masteryLevels words) = List.length words.
Proof.
  intros words. unfold Stats.masteryLevels.
  assert (G : forall counts : list nat,
             List.length counts = 4%nat ->
             List.length
               (fold_left (fun counts word =>
                             Stats.bump (Stats.levelOf word) counts)
                          words counts) = 4%nat
             /\ list_sum
                  (fold_left (fun counts word =>
                                Stats.bump (Stats.levelOf word) counts)
                             words counts)
                = (list_sum counts + List.length words)%nat).
  { induction words as [| w words IH]; intros counts H.
    - cbn [fold_left List.length]. split; [exact H | lia].
    - cbn [fold_left List.length].
      destruct (IH (Stats.bump (Stats.levelOf w) counts)) as [L S].
      + now rewrite bump_length.
      + split; [exact L |]. rewrite S, bump_sum; [lia |].
        rewrite H. apply levelOf_below_4. }
  destruct (G [0; 0; 0; 0]%nat eq_refl) as [L S].
  split; [exact L | exact S].
Qed.

Lemma sumMastery_bounds (words : list Word) :
  Forall notNegative words ->
  forall acc : number,
    acc <= fold_left (fun sum w => sum + Sm2.calculateMastery w) words acc
    /\ fold_left (fun sum w => sum + Sm2.calculateMastery w) words acc
       <= acc + 100 * inject_Z (Z.of_nat (List.length words)).
Proof.
  induction 1 as [| w words Hw _ IH]; intros acc.
  - cbn [fold_left List.length Z.of_nat]. change (inject_Z 0) with 0.
    split; lra.
  - cbn [fold_left List.length].
    destruct Hw as (Hc & Hi & Hr & Hv).
    destruct (calculateMastery_bounds w Hc Hi Hr Hv) as (M0 & M1 & _).
    destruct (IH (acc + Sm2.calculateMastery w)) as [L U].
    rewrite Nat2Z.inj_succ, <- Z.add_1_l, inject_Z_plus.
    change (inject_Z 1) with 1. split; lra.
Qed.

(** X12. The overall mastery of a list of words whose fields are not
    negative is a whole number between 0 and 100, and it is 0 for no words
    at all. *)
Theorem totalMastery_in_range :
  forall words : list Word,
    Forall notNegative words ->
    0 <= Stats.totalMastery words /\ Stats.totalMastery words <= 100
    /\ whole (Stats.totalMastery words)
    /\ Stats.totalMastery [] == 0.
Proof.
  intros words H. unfold Stats.totalMastery. cbv zeta.
  split; [| split; [| split; [| reflexivity]]].
  - destruct (Js.gtb _ 0) eqn:E; [| lra].
    unfold Js.gtb in E. apply ltb_true in E.
    apply round_nonneg. apply Qle_shift_div_l; [exact E |].
    destruct (sumMastery_bounds words H 0) as [L _]. unfold Stats.sumMastery. lra.
  - destruct (Js.gtb _ 0) eqn:E; [| lra].
    unfold Js.gtb in E. apply ltb_true in E.
    apply Qle_trans with (Js.round 100); [| vm_compute; discriminate].
    apply round_mono. apply Qle_shift_div_r; [exact E |].
    destruct (sumMastery_bounds words H 0) as [_ U]. unfold Stats.sumMastery. lra.
  - destruct (Js.gtb _ 0); [apply round_is_whole | now exists 0%Z].
Qed.

Lemma totalMastery_in_range_witness :
  0 <= Stats.totalMastery [seasonedWord; unreviewedWord]
  /\ Stats.totalMastery [seasonedWord; unreviewedWord] <= 100.
Proof.
  destruct (totalMastery_in_range [seasonedWord; unreviewedWord])
    as (H0 & H1 & _).
  - repeat constructor; unfold Qle; simpl; lia.
  - split; assumption.
Defined.

(** ** The verdicts on an answer *)

Lemma geb_true (a b : number) : Js.geb a b = true <-> b <= a.
Proof. unfold Js.geb. apply leb_true. Qed.

Lemma geb_false (a b : number) : Js.geb a b = false <-> a < b.
Proof. unfold Js.geb. apply leb_false. Qed.

(** X13. In typing practice the verdict shown and the scheduler agree: an
    answer is shown as correct (similarity of 0.85 or more) exactly when
    the rating passed on is good or easy, which is exactly when the
    scheduler adds the review to [timesCorrect] rather than to
    [timesIncorrect]. *)
Theorem typing_verdict_is_the_schedulers :
  forall (similarity : number) (w : Word) (now : number),
    let rating := TypingPractice.ratingOf similarity in
    TypingPractice.isCorrect similarity = remembered rating
    /\ Partial.timesCorrect (Sm2.calculateNextReview w now rating)
       = (if TypingPractice.isCorrect similarity then timesCorrect w + 1
          else timesCorrect w)
    /\ Partial.timesIncorrect (Sm2.calculateNextReview w now rating)
       = (if TypingPractice.isCorrect similarity then timesIncorrect w
          else timesIncorrect w + 1).
Proof.
  intros similarity w now rating.
  assert (E : TypingPractice.isCorrect similarity = remembered rating).
  { subst rating. unfold TypingPractice.isCorrect, TypingPractice.ratingOf.
    destruct (Js.geb similarity 0.95) eqn:A.
    - apply geb_true in A. cbn [remembered]. apply geb_true. lra.
    - destruct (Js.geb similarity 0.85) eqn:B; [reflexivity |].
      destruct (Js.geb similarity 0.6); reflexivity. }
  rewrite timesCorrect_next, timesIncorrect_next, E.
  repeat apply conj; reflexivity.
Qed.

(** X14. The session and the word disagree on [hard]: [handleRate] counts a
    hard rating as correct in the session while the scheduler adds it to the
    word's [timesIncorrect]; on the three other ratings they agree. So the
    session's gain in correct answers exceeds the word's by one for [hard]
    and by nothing otherwise. *)
Theorem session_counts_hard_as_correct :
  forall (w : Word) (now : number) (r : UserRating)
         (c : PracticeStats.Counters),
    let c' := PracticeStats.count w r c in
    let w' := Practice.handleRate w now r in
    (PracticeStats.correctCount c' - PracticeStats.correctCount c)
    - (timesCorrect w' - timesCorrect w)
    == (match r with hard => 1 | _ => 0 end)
    /\ (timesIncorrect w' - timesIncorrect w)
       - (PracticeStats.incorrectCount c' - PracticeStats.incorrectCount c)
       == (match r with hard => 1 | _ => 0 end).
Proof.
  intros w now r c. cbn zeta. unfold Practice.handleRate.
  cbn [merge timesCorrect timesIncorrect].
  rewrite timesCorrect_next, timesIncorrect_next.
  destruct r; cbn; split; ring.
Qed.

(** * Further properties of the extractor *)

(** ** Letters against the character classes *)

Lemma asciiLetter_range (c : N) :
  asciiLetter c = true ->
  (65 <= c <= 90 \/ 97 <= c <= 122)%N.
Proof.
  unfold asciiLetter, Str.isAsciiUpper, Str.isAsciiLower. intros Hl.
  destruct (N.leb_spec 65 c), (N.leb_spec c 90), (N.leb_spec 97 c),
           (N.leb_spec c 122); cbn in Hl; try discriminate Hl; lia.
Qed.

Ltac decide_comparisons :=
  repeat match goal with
         | |- context [N.eqb ?a ?b] =>
             first [ replace (N.eqb a b) with false
                       by (symmetry; apply N.eqb_neq; lia)
                   | replace (N.eqb a b) with true
                       by (symmetry; apply N.eqb_eq; lia) ]
         | |- context [N.leb ?a ?b] =>
             first [ replace (N.leb a b) with false
                       by (symmetry; apply N.leb_gt; lia)
                   | replace (N.leb a b) with true
                       by (symmetry; apply N.leb_le; lia) ]
         | |- context [N.ltb ?a ?b] =>
             first [ replace (N.ltb a b) with false
                       by (symmetry; apply N.ltb_ge; lia)
                   | replace (N.ltb a b) with true
                       by (symmetry; apply N.ltb_lt; lia) ]
         end.

Ltac by_range c H :=
  destruct (asciiLetter_range c H); decide_comparisons; reflexivity.

Lemma letter_not_whiteSpace (c : N) :
  asciiLetter c = true -> Str.isWhiteSpace c = false.
Proof. intros H. unfold Str.isWhiteSpace. by_range c H. Qed.

Lemma letter_not_dash (c : N) : asciiLetter c = true -> Chars.dash c = false.
Proof.
  intros H. unfold Chars.dash, Chars.among. cbn [existsb]. by_range c H.
Qed.

Lemma letter_not_digit (c : N) :
  asciiLetter c = true -> Str.isDigit c = false.
Proof. intros H. unfold Str.isDigit. by_range c H. Qed.

Lemma letter_not_chr (x c : N) :
  (x < 65)%N -> asciiLetter c = true -> Chars.chr x c = false.
Proof. intros Hx H. unfold Chars.chr. by_range c H. Qed.

Lemma letter_not_bullet (c : N) :
  asciiLetter c = true ->
  Chars.among (Chars.bullets ++ [45; 42]%N) c = false.
Proof.
  intros H. unfold Chars.among, Chars.bullets. cbn [app existsb].
  by_range c H.
Qed.

Lemma letter_usual (c : N) : asciiLetter c = true -> Chars.unusual c = false.
Proof.
  intros H. unfold Chars.unusual.
  replace (Str.isAsciiLower c || Str.isAsciiUpper c) with true; [reflexivity |].
  unfold asciiLetter in H. now rewrite orb_comm.
Qed.

Lemma letter_is_ascii (c : N) : asciiLetter c = true -> Uni.isAscii c = true.
Proof. intros H. unfold Uni.isAscii. by_range c H. Qed.

Lemma letter_kept (u : Unicode) (c : N) :
  asciiLetter c = true -> Ocr.notKept u c = false.
Proof.
  intros H. unfold Ocr.notKept, Uni.isLetter.
  rewrite (letter_is_ascii c H). unfold asciiLetter in H. now rewrite H.
Qed.

Lemma letter_kept_variant (u : Unicode) (c : N) :
  asciiLetter c = true -> OcrVariant.notKept u c = false.
Proof.
  intros H. unfold OcrVariant.notKept, Uni.isLetter.
  rewrite (letter_is_ascii c H). unfold asciiLetter in H. now rewrite H.
Qed.

Lemma letter_not_surrogate (c : N) :
  asciiLetter c = true -> RegExp.isHighSurrogate c = false.
Proof. intros H. unfold RegExp.isHighSurrogate. by_range c H. Qed.

Lemma letter_not_newline (c : N) : asciiLetter c = true -> (c =? 10)%N = false.
Proof. intros H. by_range c H. Qed.

(** ** Words of letters through the cleaning steps *)

Lemma trimStart_head (rest : jsstring) (c : N) (a : jsstring) :
  asciiLetter c = true -> Str.trimStart ((c :: a) ++ rest) = (c :: a) ++ rest.
Proof.
  intros H. cbn [app Str.trimStart]. now rewrite (letter_not_whiteSpace c H).
Qed.

Lemma trim_fixed (s : jsstring) :
  Str.trimStart s = s -> Str.trimStart (rev s) = rev s -> Str.trim s = s.
Proof.
  intros H1 H2. unfold Str.trim, Str.trimEnd.
  now rewrite H1, H2, rev_involutive.
Qed.

Lemma letters_rev (a : jsstring) : letters a -> letters (rev a).
Proof. apply Forall_rev. Qed.

Lemma trimStart_letters (a : jsstring) : letters a -> Str.trimStart a = a.
Proof.
  destruct 1 as [| c a Hc _]; [reflexivity |].
  cbn [Str.trimStart]. now rewrite (letter_not_whiteSpace c Hc).
Qed.

Lemma trim_letters (a : jsstring) : letters a -> Str.trim a = a.
Proof.
  intros H. apply trim_fixed; apply trimStart_letters;
    [exact H | now apply letters_rev].
Qed.

(** A word between letters at both ends is not changed by [trim]. *)
Lemma trim_between_letters (a middle b : jsstring) :
  letters a -> a <> [] -> letters b -> b <> [] ->
  Str.trim (a ++ middle ++ b) = a ++ middle ++ b.
Proof.
  intros Ha Na Hb Nb. apply trim_fixed.
  - destruct Ha as [| c a Hc _]; [contradiction |]. now apply trimStart_head.
  - rewrite !rev_app_distr, <- app_assoc.
    pose proof (letters_rev b Hb) as Hr.
    destruct (rev b) as [| c r] eqn:E.
    + apply (f_equal (@rev N)) in E. rewrite rev_involutive in E.
      contradiction.
    + inversion Hr; subst. now apply trimStart_head.
Qed.

Lemma findFrom_anchored (r : RegExp.t) (s : jsstring) :
  RegExp.bol r = true ->
  forall i : nat, i <> 0%nat -> RegExp.findFrom r i s = None.
Proof.
  intros Hb. induction s as [| c s IH]; intros i Hi.
  - cbn [RegExp.findFrom]. unfold RegExp.matchAt. rewrite Hb.
    apply Nat.eqb_neq in Hi. now rewrite Hi.
  - cbn [RegExp.findFrom]. unfold RegExp.matchAt. rewrite Hb.
    pose proof Hi as Hi'. apply Nat.eqb_neq in Hi'. rewrite Hi'.
    cbn [negb andb]. apply IH. lia.
Qed.

(** A pattern that starts with [cls+] does not match at a code unit outside
    [cls]. *)
Lemma matchAtoms_plus_fails (cls : N -> bool) (rest : list RegExp.atom)
    (eol : bool) (c : N) (s : jsstring) :
  cls c = false ->
  RegExp.matchAtoms (RegExp.plus cls :: rest) eol (c :: s) = None.
Proof.
  intros H. cbn [RegExp.matchAtoms RegExp.plus RegExp.cls RegExp.hi RegExp.lo
                 RegExp.span].
  rewrite H. reflexivity.
Qed.

Lemma replace_anchored_plus (cls : N -> bool) (rest : list RegExp.atom)
    (c : N) (s : jsstring) :
  cls c = false ->
  RegExp.replace (RegExp.mk true (RegExp.plus cls :: rest) false false false)
                 (c :: s) []
  = c :: s.
Proof.
  intros H. unfold RegExp.replace. cbn [RegExp.findFrom].
  unfold RegExp.matchAt at 1.
  cbn [RegExp.bol RegExp.atoms RegExp.eol Nat.eqb negb andb].
  rewrite (matchAtoms_plus_fails cls rest false c s H).
  rewrite findFrom_anchored; [reflexivity | reflexivity | discriminate].
Qed.

Lemma removeCodePoints_kept (p : N -> bool) (s : jsstring) :
  Forall (fun c => p c = false /\ RegExp.isHighSurrogate c = false) s ->
  RegExp.removeCodePoints p s = s.
Proof.
  induction 1 as [| h s [Hp Hs] Hrest IH]; [reflexivity |].
  cbn [RegExp.removeCodePoints]. destruct s as [| l s''].
  - now rewrite Hp.
  - rewrite Hs, Hp. cbn [andb]. now rewrite IH.
Qed.

Lemma cleanWord_letters (u : Unicode) (a : jsstring) :
  letters a -> Ocr.cleanWord u a = a.
Proof.
  intros H. unfold Ocr.cleanWord. cbv zeta. rewrite (trim_letters a H).
  destruct H as [| c a Hc Ha]; [reflexivity |].
  unfold Ocr.ordinalPrefix.
  rewrite (replace_anchored_plus _ _ c a (letter_not_digit c Hc)).
  rewrite (replace_anchored_plus _ _ c a (letter_not_bullet c Hc)).
  rewrite removeCodePoints_kept.
  - apply trim_letters. now constructor.
  - constructor.
    + split; [now apply letter_kept | now apply letter_not_surrogate].
    + eapply Forall_impl; [| exact Ha]. intros x Hx.
      split; [now apply letter_kept | now apply letter_not_surrogate].
Qed.

Lemma cleanWord_letters_variant (u : Unicode) (a : jsstring) :
  letters a -> OcrVariant.cleanWord u a = a.
Proof.
  intros H. unfold OcrVariant.cleanWord. cbv zeta. rewrite (trim_letters a H).
  destruct H as [| c a Hc Ha]; [reflexivity |].
  rewrite (replace_anchored_plus _ _ c a).
  - rewrite removeCodePoints_kept.
    + apply trim_letters. now constructor.
    + constructor.
      * split; [now apply letter_kept_variant | now apply letter_not_surrogate].
      * eapply Forall_impl; [| exact Ha]. intros x Hx.
        split; [now apply letter_kept_variant
               | now apply letter_not_surrogate].
  - rewrite (letter_not_bullet c Hc), (letter_not_digit c Hc).
    now rewrite (letter_not_chr 46 c).
Qed.

(** ** The confidence score *)

Lemma findFrom_one (cls : N -> bool) (s : jsstring) :
  forall i : nat,
    match RegExp.findFrom (RegExp.plain [RegExp.one cls]) i s with
    | Some _ => true
    | None => false
    end = existsb cls s.
Proof.
  induction s as [| c s IH]; intros i; [reflexivity |].
  cbn [RegExp.findFrom existsb]. unfold RegExp.matchAt.
  cbn [RegExp.plain RegExp.bol RegExp.atoms RegExp.eol andb].
  cbn [RegExp.matchAtoms RegExp.one RegExp.cls RegExp.hi RegExp.lo
       RegExp.span].
  destruct (cls c) eqn:E.
  - cbn [Nat.min Nat.ltb Nat.leb Nat.sub RegExp.firstDown skipn firstn orb].
    reflexivity.
  - cbn [Nat.min Nat.ltb Nat.leb orb]. apply IH.
Qed.

(** A literal [/[cls]/] tests whether some code unit is in the class. *)
Lemma testLiteral_one (cls : N -> bool) (s : jsstring) :
  RegExp.testLiteral (RegExp.plain [RegExp.one cls]) s = existsb cls s.
Proof.
  unfold RegExp.testLiteral, RegExp.test, RegExp.exec.
  cbn [RegExp.plain RegExp.global RegExp.sticky orb].
  rewrite <- (findFrom_one cls s 0).
  destruct (RegExp.findFrom _ 0 s); reflexivity.
Qed.

Lemma digit_is_unusual (c : N) : Str.isDigit c = true -> Chars.unusual c = true.
Proof.
  intros H.
  assert (R : (48 <= c <= 57)%N).
  { unfold Str.isDigit in H. apply andb_true_iff in H. destruct H as [A B].
    apply N.leb_le in A. apply N.leb_le in B. lia. }
  unfold Chars.unusual, Str.isAsciiLower, Str.isAsciiUpper, Chars.among,
    Str.isWhiteSpace, Chars.chr.
  cbn [existsb]. decide_comparisons. reflexivity.
Qed.

Lemma digits_are_unusual (s : jsstring) :
  existsb Str.isDigit s = true -> existsb Chars.unusual s = true.
Proof.
  rewrite !existsb_exists. intros (c & Hin & Hc).
  exists c. split; [exact Hin | now apply digit_is_unusual].
Qed.

(** The score by its three tests. *)
Lemma calculateConfidence_table (term definition : jsstring) :
  Ocr.calculateConfidence term definition
  = let short := Js.ltb (Str.length term) 2
                 || Js.ltb (Str.length definition) 2 in
    let digits := existsb Str.isDigit term
                  || existsb Str.isDigit definition in
    let odd := existsb Chars.unusual (term ++ definition) in
    Js.round
      ((if odd then (if digits then (if short then 1.0 * 0.5 else 1.0) * 0.7
                     else if short then 1.0 * 0.5 else 1.0) * 0.8
        else if digits then (if short then 1.0 * 0.5 else 1.0) * 0.7
        else if short then 1.0 * 0.5 else 1.0) * 100) / 100.
Proof.
  unfold Ocr.calculateConfidence. rewrite !testLiteral_one. cbv zeta.
  destruct (_ || _), (_ || _), (existsb Chars.unusual _); reflexivity.
Qed.

Lemma calculateConfidence_same :
  forall term definition : jsstring,
    OcrVariant.calculateConfidence term definition
    = Ocr.calculateConfidence term definition.
Proof. reflexivity. Qed.

Lemma calculateConfidence_cases (term definition : jsstring) :
  let c := Ocr.calculateConfidence term definition in
  (c == 1 \/ c == 0.5 \/ c == 0.8 \/ c == 0.4 \/ c == 0.56 \/ c == 0.28)
  /\ (existsb Str.isDigit term || existsb Str.isDigit definition = true ->
      c <= 0.56).
Proof.
  cbv zeta. rewrite calculateConfidence_table. cbv zeta.
  destruct (existsb Str.isDigit term || existsb Str.isDigit definition)
    eqn:D.
  - assert (O : existsb Chars.unusual (term ++ definition) = true).
    { rewrite existsb_app. apply orb_true_iff.
      apply orb_true_iff in D. destruct D as [D | D];
        [left | right]; now apply digits_are_unusual. }
    rewrite O.
    destruct (Js.ltb (Str.length term) 2 || Js.ltb (Str.length definition) 2);
      split; try (intros _; vm_compute; discriminate).
    + right; right; right; right; right. reflexivity.
    + right; right; right; right; left. reflexivity.
  - destruct (existsb Chars.unusual _),
             (Js.ltb (Str.length term) 2 || Js.ltb (Str.length definition) 2);
      (split; [| intros H; discriminate H]).
    + right; right; right; left. reflexivity.
    + right; right; left. reflexivity.
    + right; left. reflexivity.
    + left. reflexivity.
Qed.

(** X16. The confidence a separator gives a pair is one of 1, 0.5, 0.8,
    0.4, 0.56 and 0.28, in both variants: never 0.7 nor 0.35, because a
    digit is also outside the usual letters and brings the factor 0.8 with
    its own 0.7. A confidence of exactly 0.7 is the mark of the table
    format. *)
Theorem confidence_is_one_of_six :
  forall term definition : jsstring,
    let c := Ocr.calculateConfidence term definition in
    (c == 1 \/ c == 0.5 \/ c == 0.8 \/ c == 0.4 \/ c == 0.56 \/ c == 0.28)
    /\ ~ c == 0.7 /\ ~ c == 0.35
    /\ OcrVariant.calculateConfidence term definition = c.
Proof.
  intros term definition c.
  destruct (calculateConfidence_cases term definition) as [H _].
  fold c in H. repeat apply conj; [exact H | | | reflexivity].
  - intros E. rewrite E in H.
    destruct H as [H | [H | [H | [H | [H | H]]]]]; discriminate H.
  - intros E. rewrite E in H.
    destruct H as [H | [H | [H | [H | [H | H]]]]]; discriminate H.
Qed.

(** X17. A pair whose term or definition holds a digit has a confidence of
    at most 0.56, in both variants. *)
Theorem digit_caps_confidence :
  forall (term definition : jsstring) (c : N),
    In c (term ++ definition) ->
    Str.isDigit c = true ->
    Ocr.calculateConfidence term definition <= 0.56
    /\ OcrVariant.calculateConfidence term definition <= 0.56.
Proof.
  intros term definition c Hin Hc.
  assert (D : existsb Str.isDigit term || existsb Str.isDigit definition
              = true).
  { rewrite <- existsb_app. apply existsb_exists. now exists c. }
  destruct (calculateConfidence_cases term definition) as [_ H].
  split; exact (H D).
Qed.

Lemma digit_caps_confidence_witness :
  Ocr.calculateConfidence (str "huis 2") (str "maison") <= 0.56.
Proof.
  apply (digit_caps_confidence (str "huis 2") (str "maison") 50%N).
  - right; right; right; right; right. left. reflexivity.
  - reflexivity.
Defined.

(** ** Every pair is well formed *)

Lemma trimStart_idempotent (s : jsstring) :
  Str.trimStart (Str.trimStart s) = Str.trimStart s.
Proof.
  induction s as [| c s IH]; [reflexivity |].
  cbn [Str.trimStart]. destruct (Str.isWhiteSpace c) eqn:E; [exact IH |].
  cbn [Str.trimStart]. now rewrite E.
Qed.

Lemma trimStart_snoc (l : jsstring) (c : N) :
  Str.isWhiteSpace c = false ->
  Str.trimStart (l ++ [c]) = Str.trimStart l ++ [c].
Proof.
  intros H. induction l as [| x l IH].
  - cbn [app Str.trimStart]. now rewrite H.
  - cbn [app Str.trimStart]. destruct (Str.isWhiteSpace x); [exact IH |].
    reflexivity.
Qed.

Lemma trimEnd_cons (c : N) (s : jsstring) :
  Str.isWhiteSpace c = false -> Str.trimEnd (c :: s) = c :: Str.trimEnd s.
Proof.
  intros H. unfold Str.trimEnd. cbn [rev].
  rewrite (trimStart_snoc _ c H), rev_app_distr. reflexivity.
Qed.

Lemma trimStart_trimEnd (s : jsstring) :
  Str.trimStart s = s -> Str.trimStart (Str.trimEnd s) = Str.trimEnd s.
Proof.
  destruct s as [| c s]; [intros _; reflexivity |].
  cbn [Str.trimStart]. destruct (Str.isWhiteSpace c) eqn:E.
  - intros H. exfalso.
    assert (L : (List.length (Str.trimStart s) <= List.length s)%nat).
    { clear. induction s as [| x s IH]; [cbn; lia |].
      cbn [Str.trimStart]. destruct (Str.isWhiteSpace x); cbn [List.length]; lia. }
    rewrite H in L. cbn [List.length] in L. lia.
  - intros _. rewrite (trimEnd_cons c s E). cbn [Str.trimStart]. now rewrite E.
Qed.

Lemma trim_idempotent (s : jsstring) : Str.trim (Str.trim s) = Str.trim s.
Proof.
  apply trim_fixed.
  - unfold Str.trim. apply trimStart_trimEnd. apply trimStart_idempotent.
  - unfold Str.trim, Str.trimEnd. rewrite rev_involutive.
    apply trimStart_idempotent.
Qed.

Lemma truthy_nonempty (s : jsstring) : Str.truthy s = true -> s <> [].
Proof. destruct s; [discriminate | discriminate]. Qed.

Lemma calculateConfidence_range (term definition : jsstring) :
  0.28 <= Ocr.calculateConfidence term definition
  /\ Ocr.calculateConfidence term definition <= 1.
Proof.
  destruct (calculateConfidence_cases term definition) as [H _].
  cbv zeta in H.
  destruct H as [H | [H | [H | [H | [H | H]]]]]; rewrite H;
    split; vm_compute; discriminate.
Qed.

Section WellFormed.

Variable u : Unicode.

Lemma trySeparators_wellFormed (seps : list RegExp.t) (line : jsstring)
    (p : ParsedWordPair.t) :
  Ocr.trySeparators u seps line = Some p -> wellFormed p.
Proof.
  induction seps as [| sep seps IH]; [discriminate |].
  cbn [Ocr.trySeparators]. cbv zeta.
  destruct (2 <=? _)%nat; [| exact IH].
  destruct (Str.truthy _ && Str.truthy _) eqn:T; [| exact IH].
  apply andb_true_iff in T. destruct T as [T1 T2].
  intros E. injection E as E. subst p. unfold wellFormed.
  cbn [ParsedWordPair.term ParsedWordPair.definition ParsedWordPair.confidence].
  repeat apply conj.
  - now apply truthy_nonempty.
  - now apply truthy_nonempty.
  - unfold Ocr.cleanWord. cbv zeta. apply trim_idempotent.
  - unfold Ocr.cleanWord. cbv zeta. apply trim_idempotent.
  - apply calculateConfidence_range.
  - apply calculateConfidence_range.
Qed.

Lemma detectTableFormat_wellFormed (line : jsstring) (p : ParsedWordPair.t) :
  Ocr.detectTableFormat u line = Some p ->
  wellFormed p /\ ParsedWordPair.confidence p == 0.7.
Proof.
  unfold Ocr.detectTableFormat.
  destruct (RegExp.matchGroups _ line) as [gapMatch |]; [| discriminate].
  cbv zeta.
  destruct (Str.truthy _ && Str.truthy _) eqn:T; [| discriminate].
  apply andb_true_iff in T. destruct T as [T1 T2].
  intros E. injection E as E. subst p. unfold wellFormed.
  cbn [ParsedWordPair.term ParsedWordPair.definition ParsedWordPair.confidence].
  repeat apply conj; try reflexivity.
  - now apply truthy_nonempty.
  - now apply truthy_nonempty.
  - unfold Ocr.cleanWord. cbv zeta. apply trim_idempotent.
  - unfold Ocr.cleanWord. cbv zeta. apply trim_idempotent.
  - vm_compute. discriminate.
  - vm_compute. discriminate.
Qed.

Lemma parseLine_wellFormed (line : jsstring) (p : ParsedWordPair.t) :
  Ocr.parseLine u line = Some p -> wellFormed p.
Proof.
  unfold Ocr.parseLine.
  destruct (Ocr.trySeparators u Ocr.SEPARATORS line) as [q |] eqn:E.
  - intros H. injection H as H. subst q.
    exact (trySeparators_wellFormed _ _ _ E).
  - intros H. exact (proj1 (detectTableFormat_wellFormed _ _ H)).
Qed.

Lemma parseLines_wellFormed (lines : list jsstring) :
  forall store : Ocr.Store,
    Forall wellFormed (fst (fst (Ocr.parseLines u store lines))).
Proof.
  induction lines as [| line lines IH]; intros store; [constructor |].
  cbn [Ocr.parseLines].
  destruct (Ocr.isLikelyHeader u store line) as [header store'].
  destruct header; [apply IH |].
  specialize (IH store').
  destruct (Ocr.parseLines u store' lines) as [[pairs errs] st].
  cbn [fst] in IH.
  destruct (Ocr.parseLine u line) as [p |] eqn:E.
  - cbn [fst]. constructor; [exact (parseLine_wellFormed _ _ E) | exact IH].
  - destruct (Js.gtb _ _); exact IH.
Qed.

Lemma trySeparators_wellFormed_variant (seps : list RegExp.t)
    (line : jsstring) (p : ParsedWordPair.t) :
  OcrVariant.trySeparators u seps line = Some p -> wellFormed p.
Proof.
  induction seps as [| sep seps IH]; [discriminate |].
  cbn [OcrVariant.trySeparators]. cbv zeta.
  destruct (2 <=? _)%nat; [| exact IH].
  destruct (Str.truthy _ && Str.truthy _) eqn:T; [| exact IH].
  apply andb_true_iff in T. destruct T as [T1 T2].
  intros E. injection E as E. subst p. unfold wellFormed.
  cbn [ParsedWordPair.term ParsedWordPair.definition ParsedWordPair.confidence].
  repeat apply conj.
  - now apply truthy_nonempty.
  - now apply truthy_nonempty.
  - unfold OcrVariant.cleanWord. cbv zeta. apply trim_idempotent.
  - unfold OcrVariant.cleanWord. cbv zeta. apply trim_idempotent.
  - apply calculateConfidence_range.
  - apply calculateConfidence_range.
Qed.

Lemma parseLine_wellFormed_variant (line : jsstring) (p : ParsedWordPair.t) :
  OcrVariant.parseLine u line = Some p -> wellFormed p.
Proof.
  unfold OcrVariant.parseLine.
  destruct (OcrVariant.trySeparators u OcrVariant.SEPARATORS line)
    as [q |] eqn:E.
  - intros H. injection H as H. subst q.
    exact (trySeparators_wellFormed_variant _ _ _ E).
  - unfold OcrVariant.detectTableFormat.
    destruct (RegExp.matchGroups _ line) as [gapMatch |]; [| discriminate].
    cbv zeta.
    destruct (Str.truthy _ && Str.truthy _) eqn:T; [| discriminate].
    apply andb_true_iff in T. destruct T as [T1 T2].
    intros H. injection H as H. subst p. unfold wellFormed.
    cbn [ParsedWordPair.term ParsedWordPair.definition
         ParsedWordPair.confidence].
    repeat apply conj.
    + now apply truthy_nonempty.
    + now apply truthy_nonempty.
    + unfold OcrVariant.cleanWord. cbv zeta. apply trim_idempotent.
    + unfold OcrVariant.cleanWord. cbv zeta. apply trim_idempotent.
    + vm_compute. discriminate.
    + vm_compute. discriminate.
Qed.

Lemma parseLines_wellFormed_variant (lines : list jsstring) :
  Forall wellFormed (fst (OcrVariant.parseLines u lines)).
Proof.
  induction lines as [| line lines IH]; [constructor |].
  cbn [OcrVariant.parseLines].
  destruct (OcrVariant.parseLines u lines) as [pairs errs].
  cbn [fst] in IH.
  destruct (OcrVariant.parseLine u line) as [p |] eqn:E.
  - cbn [fst].
    constructor; [exact (parseLine_wellFormed_variant _ _ E) | exact IH].
  - destruct (Js.gtb _ _); exact IH.
Qed.

End WellFormed.

(** X18. Every pair the extractor returns, in either variant and whatever
    the text, can be used as it is: its term and its definition are not
    empty and carry no white space at either end, and its confidence lies
    between 0.28 and 1. *)
Theorem every_pair_is_well_formed :
  forall (u : Unicode) (store : Ocr.Store) (rawText : jsstring),
    Forall wellFormed
           (OCRResult.pairs (fst (Ocr.parseWordPairs u store rawText)))
    /\ Forall wellFormed
              (OCRResult.pairs (OcrVariant.parseWordPairs u rawText)).
Proof.
  intros u store rawText. split.
  - unfold Ocr.parseWordPairs.
    pose proof (parseLines_wellFormed u (Ocr.linesOf rawText) store) as H.
    destruct (Ocr.parseLines u store (Ocr.linesOf rawText))
      as [[pairs errs] st].
    exact H.
  - unfold OcrVariant.parseWordPairs.
    pose proof (parseLines_wellFormed_variant u (OcrVariant.linesOf rawText))
      as H.
    destruct (OcrVariant.parseLines u (OcrVariant.linesOf rawText))
      as [pairs errs].
    exact H.
Qed.

(** ** Matching and splitting on words of letters *)

Lemma span_all (P : N -> bool) (pre rest : jsstring) :
  Forall (fun c => P c = true) pre ->
  match rest with [] => True | c :: _ => P c = false end ->
  RegExp.span P (pre ++ rest) = List.length pre.
Proof.
  intros Hpre Hrest. induction Hpre as [| c pre Hc _ IH].
  - destruct rest as [| c rest]; [reflexivity |].
    cbn [app RegExp.span]. now rewrite Hrest.
  - cbn [app RegExp.span List.length]. now rewrite Hc, IH.
Qed.

Lemma firstDown_top {A : Type} (f : nat -> option A) (lo k : nat) (r : A) :
  f (lo + k)%nat = Some r -> RegExp.firstDown f lo k = Some r.
Proof.
  destruct k as [| k]; cbn [RegExp.firstDown].
  - now rewrite Nat.add_0_r.
  - intros H. now rewrite H.
Qed.

(** A greedy repetition without upper bound takes the whole run of its
    class when what follows matches after the run. *)
Lemma matchAtoms_run (P : N -> bool) (lo : nat) (cap : bool)
    (atoms : list RegExp.atom) (eol : bool) (pre rest : jsstring)
    (texts : list jsstring) :
  Forall (fun c => P c = true) pre ->
  match rest with [] => True | c :: _ => P c = false end ->
  (lo <= List.length pre)%nat ->
  RegExp.matchAtoms atoms eol rest = Some texts ->
  RegExp.matchAtoms (RegExp.mkAtom P lo None cap :: atoms) eol (pre ++ rest)
  = Some (pre :: texts).
Proof.
  intros Hpre Hrest Hlo Hm.
  cbn [RegExp.matchAtoms RegExp.cls RegExp.hi RegExp.lo].
  rewrite (span_all P pre rest Hpre Hrest).
  destruct (Nat.ltb_spec (List.length pre) lo) as [L | L]; [lia |].
  apply firstDown_top.
  replace (lo + (List.length pre - lo))%nat with (List.length pre) by lia.
  rewrite skipn_app, skipn_all, Nat.sub_diag. cbn [app skipn].
  rewrite Hm, firstn_app, firstn_all, Nat.sub_diag. cbn [firstn].
  now rewrite app_nil_r.
Qed.

(** A single code unit of the class, then what follows. *)
Lemma matchAtoms_single (P : N -> bool) (atoms : list RegExp.atom)
    (eol : bool) (c : N) (rest : jsstring) (texts : list jsstring) :
  P c = true ->
  RegExp.matchAtoms atoms eol rest = Some texts ->
  RegExp.matchAtoms (RegExp.one P :: atoms) eol (c :: rest)
  = Some ([c] :: texts).
Proof.
  intros Hc Hm.
  cbn [RegExp.matchAtoms RegExp.one RegExp.cls RegExp.hi RegExp.lo
       RegExp.span].
  rewrite Hc. cbn [Nat.min Nat.ltb Nat.leb Nat.sub RegExp.firstDown skipn].
  now rewrite Hm.
Qed.

(** An atom that needs one code unit of its class fails on another one. *)
Lemma matchAtoms_needs_one (P : N -> bool) (hi : option nat) (cap : bool)
    (atoms : list RegExp.atom) (eol : bool) (c : N) (s : jsstring) :
  P c = false ->
  RegExp.matchAtoms (RegExp.mkAtom P 1 hi cap :: atoms) eol (c :: s) = None.
Proof.
  intros H.
  cbn [RegExp.matchAtoms RegExp.cls RegExp.hi RegExp.lo RegExp.span].
  rewrite H. destruct hi as [h |]; [| reflexivity].
  rewrite Nat.min_0_r. reflexivity.
Qed.

(** A starred class that is absent leaves the match to what follows. *)
Lemma matchAtoms_star_absent (P : N -> bool) (atoms : list RegExp.atom)
    (eol : bool) (c : N) (s : jsstring) :
  P c = false ->
  RegExp.matchAtoms atoms eol (c :: s) = None ->
  RegExp.matchAtoms (RegExp.star P :: atoms) eol (c :: s) = None.
Proof.
  intros H Hm.
  cbn [RegExp.matchAtoms RegExp.star RegExp.cls RegExp.hi RegExp.lo
       RegExp.span].
  rewrite H. cbn [Nat.ltb Nat.leb Nat.sub RegExp.firstDown skipn].
  now rewrite Hm.
Qed.

(** The split loop walks over code units at which no match starts. *)
Lemma splitLoop_skip (r : RegExp.t) (a : jsstring) :
  (forall c, In c a ->
             forall (i : nat) (tail : jsstring),
               RegExp.matchAt r i (c :: tail) = None) ->
  forall (fuel q : nat) (piece rest : jsstring),
    RegExp.splitLoop r (List.length a + fuel) q piece (a ++ rest)
    = RegExp.splitLoop r fuel (q + List.length a) (piece ++ a) rest.
Proof.
  induction a as [| c a IH]; intros Hno fuel q piece rest.
  - cbn [List.length app Nat.add]. now rewrite Nat.add_0_r, app_nil_r.
  - cbn [List.length app Nat.add RegExp.splitLoop].
    rewrite (Hno c (or_introl eq_refl)).
    rewrite IH; [| intros x Hx; apply Hno; now right].
    rewrite <- app_assoc. cbn [app].
    now replace (S q + List.length a)%nat with (q + S (List.length a))%nat
      by lia.
Qed.

Lemma split_nonempty (r : RegExp.t) (s : jsstring) :
  s <> [] ->
  RegExp.split r s = RegExp.splitLoop r (2 * List.length s + 1) 0 [] s.
Proof. destruct s; [contradiction | reflexivity]. Qed.

Lemma splitLoop_match (r : RegExp.t) (fuel q : nat) (piece sep b : jsstring)
    (texts : list jsstring) :
  piece <> [] -> sep <> [] ->
  RegExp.matchAt r q (sep ++ b) = Some texts ->
  RegExp.matchLength texts = List.length sep ->
  RegExp.groups (RegExp.atoms r) texts = [] ->
  RegExp.splitLoop r (S fuel) q piece (sep ++ b)
  = piece :: RegExp.splitLoop r fuel (q + List.length sep) [] b.
Proof.
  intros Np Ns Hm Hl Hg. cbn [RegExp.splitLoop].
  destruct (sep ++ b) as [| y rest] eqn:E.
  - destruct sep; [contradiction | discriminate E].
  - rewrite Hm, Hl, Hg. rewrite <- E.
    rewrite skipn_app, skipn_all, Nat.sub_diag. cbn [skipn app].
    destruct (List.length sep) eqn:L.
    + destruct sep; [contradiction | discriminate L].
    + reflexivity.
Qed.

(** A line of two parts around one separator splits into the two parts. *)
Lemma split_in_two (r : RegExp.t) (a sep b : jsstring)
    (texts : list jsstring) :
  (forall c, In c (a ++ b) ->
             forall (i : nat) (tail : jsstring),
               RegExp.matchAt r i (c :: tail) = None) ->
  a <> [] -> sep <> [] ->
  (forall i : nat, RegExp.matchAt r i (sep ++ b) = Some texts) ->
  RegExp.matchLength texts = List.length sep ->
  RegExp.groups (RegExp.atoms r) texts = [] ->
  RegExp.split r (a ++ sep ++ b) = [a; b].
Proof.
  intros Hno Na Ns Hm Hl Hg.
  rewrite split_nonempty by (destruct a; [contradiction | discriminate]).
  rewrite (RegExpFacts.splitLoop_fuel r
             (2 * List.length (a ++ sep ++ b) + 1)
             (List.length a
              + S (List.length b + S (2 * List.length (a ++ sep ++ b))))
             0 [] (a ++ sep ++ b));
    [| unfold RegExp.toDo; lia | unfold RegExp.toDo; lia].
  rewrite splitLoop_skip; [| intros c Hc; apply Hno, in_or_app; now left].
  cbn [app].
  rewrite (splitLoop_match r _ _ a sep b texts Na Ns (Hm _) Hl Hg).
  f_equal.
  assert (Hb : forall c, In c b ->
                         forall (i : nat) (tail : jsstring),
                           RegExp.matchAt r i (c :: tail) = None)
    by (intros c Hc; apply Hno, in_or_app; now right).
  pose proof (splitLoop_skip r b Hb
                (S (2 * List.length (a ++ sep ++ b)))
                (0 + List.length a + List.length sep) [] []) as Sk.
  rewrite app_nil_r in Sk. rewrite Sk. reflexivity.
Qed.

(** ** A line "term - definition" of two words of letters *)

Lemma existsb_none (P : N -> bool) (s : jsstring) :
  Forall (fun c => P c = false) s -> existsb P s = false.
Proof.
  induction 1 as [| c s Hc _ IH]; [reflexivity |].
  cbn [existsb]. now rewrite Hc, IH.
Qed.

Lemma letters_none (P : N -> bool) (s : jsstring) :
  (forall c, asciiLetter c = true -> P c = false) ->
  letters s -> existsb P s = false.
Proof.
  intros HP Hs. apply existsb_none.
  eapply Forall_impl; [| exact Hs]. exact HP.
Qed.

Lemma letters_app (a b : jsstring) : letters a -> letters b -> letters (a ++ b).
Proof. intros Ha Hb. apply Forall_app. now split. Qed.

Lemma length_below_2 (s : jsstring) :
  Js.ltb (Str.length s) 2 = (List.length s <? 2)%nat.
Proof.
  unfold Str.length.
  destruct (Nat.ltb_spec (List.length s) 2) as [L | L].
  - apply ltb_true. change 2 with (inject_Z 2). rewrite <- Zlt_Qlt. lia.
  - apply ltb_false. change 2 with (inject_Z 2). rewrite <- Zle_Qle. lia.
Qed.

Lemma calculateConfidence_letters (a b : jsstring) :
  letters a -> letters b ->
  Ocr.calculateConfidence a b
  == (if (List.length a <? 2)%nat || (List.length b <? 2)%nat
      then 0.5 else 1).
Proof.
  intros Ha Hb. rewrite calculateConfidence_table. cbv zeta.
  rewrite (letters_none Str.isDigit a letter_not_digit Ha).
  rewrite (letters_none Str.isDigit b letter_not_digit Hb).
  rewrite (letters_none Chars.unusual (a ++ b) letter_usual
                        (letters_app a b Ha Hb)).
  rewrite !length_below_2. cbn [orb].
  destruct (_ || _); reflexivity.
Qed.

Lemma spaced_dash_matches (i : nat) (c : N) (b : jsstring) :
  asciiLetter c = true ->
  RegExp.matchAt
    (RegExp.plain [RegExp.plus Str.isWhiteSpace; RegExp.one Chars.dash;
                   RegExp.plus Str.isWhiteSpace])
    i (str " - " ++ c :: b)
  = Some [[32]; [45]; [32]]%N.
Proof.
  intros Hc. unfold RegExp.matchAt.
  cbn [RegExp.plain RegExp.bol RegExp.atoms RegExp.eol andb].
  change (str " - " ++ c :: b) with ([32%N] ++ 45%N :: 32%N :: c :: b).
  apply matchAtoms_run; [repeat constructor | reflexivity | cbn; lia |].
  apply matchAtoms_single; [reflexivity |].
  change (32%N :: c :: b) with ([32%N] ++ c :: b).
  apply matchAtoms_run;
    [repeat constructor | now apply letter_not_whiteSpace | cbn; lia
    | reflexivity].
Qed.

Lemma bare_dash_matches (i : nat) (c : N) (b : jsstring) :
  asciiLetter c = true ->
  RegExp.matchAt
    (RegExp.plain [RegExp.star Str.isWhiteSpace; RegExp.one Chars.dash;
                   RegExp.star Str.isWhiteSpace])
    i (str " - " ++ c :: b)
  = Some [[32]; [45]; [32]]%N.
Proof.
  intros Hc. unfold RegExp.matchAt.
  cbn [RegExp.plain RegExp.bol RegExp.atoms RegExp.eol andb].
  change (str " - " ++ c :: b) with ([32%N] ++ 45%N :: 32%N :: c :: b).
  apply matchAtoms_run; [repeat constructor | reflexivity | cbn; lia |].
  apply matchAtoms_single; [reflexivity |].
  change (32%N :: c :: b) with ([32%N] ++ c :: b).
  apply matchAtoms_run;
    [repeat constructor | now apply letter_not_whiteSpace | cbn; lia
    | reflexivity].
Qed.

Lemma spaced_dash_split (a b : jsstring) :
  letters a -> a <> [] -> letters b -> b <> [] ->
  RegExp.split
    (RegExp.plain [RegExp.plus Str.isWhiteSpace; RegExp.one Chars.dash;
                   RegExp.plus Str.isWhiteSpace])
    (a ++ str " - " ++ b)
  = [a; b].
Proof.
  intros Ha Na Hb Nb. destruct b as [| c b']; [contradiction |].
  apply (split_in_two _ a (str " - ") (c :: b') [[32]; [45]; [32]]%N).
  - intros x Hx i tail. unfold RegExp.matchAt.
    cbn [RegExp.plain RegExp.bol RegExp.atoms RegExp.eol andb].
    apply matchAtoms_needs_one. apply letter_not_whiteSpace.
    pose proof (letters_app a (c :: b') Ha Hb) as Hab.
    unfold letters in Hab. rewrite Forall_forall in Hab. now apply Hab.
  - exact Na.
  - discriminate.
  - intros i. apply spaced_dash_matches. now inversion Hb.
  - reflexivity.
  - reflexivity.
Qed.

Lemma bare_dash_split (a b : jsstring) :
  letters a -> a <> [] -> letters b -> b <> [] ->
  RegExp.split
    (RegExp.plain [RegExp.star Str.isWhiteSpace; RegExp.one Chars.dash;
                   RegExp.star Str.isWhiteSpace])
    (a ++ str " - " ++ b)
  = [a; b].
Proof.
  intros Ha Na Hb Nb. destruct b as [| c b']; [contradiction |].
  apply (split_in_two _ a (str " - ") (c :: b') [[32]; [45]; [32]]%N).
  - intros x Hx i tail. unfold RegExp.matchAt.
    cbn [RegExp.plain RegExp.bol RegExp.atoms RegExp.eol andb].
    assert (Lx : asciiLetter x = true).
    { pose proof (letters_app a (c :: b') Ha Hb) as Hab.
      unfold letters in Hab. rewrite Forall_forall in Hab. now apply Hab. }
    apply matchAtoms_star_absent; [now apply letter_not_whiteSpace |].
    apply matchAtoms_needs_one. now apply letter_not_dash.
  - exact Na.
  - discriminate.
  - intros i. apply bare_dash_matches. now inversion Hb.
  - reflexivity.
  - reflexivity.
Qed.

Lemma parseLine_spaced_dash (u : Unicode) (a b : jsstring) :
  letters a -> a <> [] -> letters b -> b <> [] ->
  Ocr.parseLine u (a ++ str " - " ++ b)
  = Some (ParsedWordPair.mk a b (Ocr.calculateConfidence a b)).
Proof.
  intros Ha Na Hb Nb. unfold Ocr.parseLine, Ocr.SEPARATORS.
  cbn [Ocr.trySeparators]. cbv zeta.
  rewrite (spaced_dash_split a b Ha Na Hb Nb).
  cbn [List.length Nat.leb nth tl Str.join].
  rewrite (cleanWord_letters u a Ha), (cleanWord_letters u b Hb).
  destruct a; [contradiction |]. destruct b; [contradiction |].
  reflexivity.
Qed.

Lemma parseLine_spaced_dash_variant (u : Unicode) (a b : jsstring) :
  letters a -> a <> [] -> letters b -> b <> [] ->
  OcrVariant.parseLine u (a ++ str " - " ++ b)
  = Some (ParsedWordPair.mk a b (Ocr.calculateConfidence a b)).
Proof.
  intros Ha Na Hb Nb. unfold OcrVariant.parseLine, OcrVariant.SEPARATORS.
  cbn [OcrVariant.trySeparators]. cbv zeta.
  rewrite (bare_dash_split a b Ha Na Hb Nb).
  cbn [List.length Nat.leb nth tl Str.join].
  rewrite (cleanWord_letters_variant u a Ha),
          (cleanWord_letters_variant u b Hb).
  destruct a; [contradiction |]. destruct b; [contradiction |].
  reflexivity.
Qed.

(** X19. A line "term - definition" of two non-empty words of ASCII letters
    is parsed back into exactly that term and that definition, by both
    variants, with confidence 1 when both words have two letters or more and
    0.5 otherwise. *)
Theorem spaced_dash_line_is_parsed_back :
  forall (u : Unicode) (a b : jsstring),
    letters a -> a <> [] -> letters b -> b <> [] ->
    exists c : number,
      Ocr.parseLine u (a ++ str " - " ++ b)
      = Some (ParsedWordPair.mk a b c)
      /\ OcrVariant.parseLine u (a ++ str " - " ++ b)
         = Some (ParsedWordPair.mk a b c)
      /\ c == (if (List.length a <? 2)%nat || (List.length b <? 2)%nat
               then 0.5 else 1).
Proof.
  intros u a b Ha Na Hb Nb. exists (Ocr.calculateConfidence a b).
  repeat apply conj.
  - now apply parseLine_spaced_dash.
  - now apply parseLine_spaced_dash_variant.
  - now apply calculateConfidence_letters.
Qed.

Lemma spaced_dash_line_is_parsed_back_witness :
  exists c : number,
    Ocr.parseLine (mkUnicode (fun _ => false) (fun _ => false) (fun s => s))
                  (str "chat" ++ str " - " ++ str "kat")
    = Some (ParsedWordPair.mk (str "chat") (str "kat") c)
    /\ c == 1.
Proof.
  destruct (spaced_dash_line_is_parsed_back
              (mkUnicode (fun _ => false) (fun _ => false) (fun s => s))
              (str "chat") (str "kat"))
    as (c & H1 & _ & H3).
  - repeat constructor.
  - discriminate.
  - repeat constructor.
  - discriminate.
  - exists c. split; [exact H1 | exact H3].
Defined.

(** ** The header words *)

Lemma str_eqb_true (a b : jsstring) : Str.eqb a b = true <-> a = b.
Proof.
  unfold Str.eqb. destruct (list_eq_dec N.eq_dec a b); split; intros H;
    try assumption; try reflexivity; [discriminate H | contradiction].
Qed.

Lemma str_eqb_refl (a : jsstring) : Str.eqb a a = true.
Proof. now apply str_eqb_true. Qed.

Lemma str_eqb_false (a b : jsstring) : a <> b -> Str.eqb a b = false.
Proof.
  intros H. apply not_true_iff_false. now rewrite str_eqb_true.
Qed.

Lemma str_eqb_rev (a b : jsstring) : Str.eqb (rev a) (rev b) = Str.eqb a b.
Proof.
  destruct (Str.eqb a b) eqn:E.
  - apply str_eqb_true in E. subst. apply str_eqb_refl.
  - apply str_eqb_false. intros H.
    apply (f_equal (@rev N)) in H. rewrite !rev_involutive in H.
    subst. rewrite str_eqb_refl in E. discriminate E.
Qed.

(** A word without spaces followed by a space starts with [h] and a space
    exactly when it is [h]. *)
Lemma startsWith_word (h : jsstring) :
  ~ In 32%N h ->
  forall (a rest : jsstring),
    ~ In 32%N a ->
    Str.startsWith (a ++ 32%N :: rest) (h ++ [32%N]) = Str.eqb a h.
Proof.
  induction h as [| x h IH]; intros Hh a rest Ha.
  - destruct a as [| y a].
    + destruct rest; reflexivity.
    + cbn [app Str.startsWith].
      replace (y =? 32)%N with false.
      * symmetry. apply str_eqb_false. discriminate.
      * symmetry. apply N.eqb_neq. intros E. apply Ha. now left.
  - destruct a as [| y a].
    + cbn [app Str.startsWith].
      replace (32 =? x)%N with false.
      * symmetry. apply str_eqb_false. discriminate.
      * symmetry. apply N.eqb_neq. intros E. apply Hh. now left.
    + cbn [app Str.startsWith].
      rewrite IH; [| intros H; apply Hh; now right
                   | intros H; apply Ha; now right].
      destruct (N.eqb_spec y x) as [E | E].
      * subst y. cbn [andb].
        destruct (Str.eqb a h) eqn:F.
        -- apply str_eqb_true in F. subst. symmetry. apply str_eqb_refl.
        -- symmetry. apply str_eqb_false. intros G. injection G as G.
           subst. rewrite str_eqb_refl in F. discriminate F.
      * cbn [andb]. symmetry. apply str_eqb_false. intros G.
        injection G as G1 G2. contradiction.
Qed.

Lemma existsb_orb {A : Type} (f g : A -> bool) (l : list A) :
  existsb (fun x => f x || g x) l = existsb f l || existsb g l.
Proof.
  induction l as [| x l IH]; [reflexivity |].
  cbn [existsb]. rewrite IH.
  destruct (f x), (g x), (existsb f l), (existsb g l); reflexivity.
Qed.

Lemma existsb_same {A : Type} (f g : A -> bool) (l : list A) :
  Forall (fun x => f x = g x) l -> existsb f l = existsb g l.
Proof.
  induction 1 as [| x l Hx _ IH]; [reflexivity |].
  cbn [existsb]. now rewrite Hx, IH.
Qed.

(** The lower-case form of a word of letters, as [toLowerCase] gives it. *)
Lemma toLowerCase_ascii (u : Unicode) (s : jsstring) :
  Forall (fun c => Uni.isAscii c = true) s ->
  Uni.toLowerCase u s
  = map (fun c => if Str.isAsciiUpper c then (c + 32)%N else c) s.
Proof.
  intros H. unfold Uni.toLowerCase.
  replace (forallb Uni.isAscii s) with true; [reflexivity |].
  symmetry. apply forallb_forall. now rewrite Forall_forall in H.
Qed.

Lemma lower_letter (c : N) :
  asciiLetter c = true ->
  asciiLetter (if Str.isAsciiUpper c then (c + 32)%N else c) = true.
Proof.
  intros H. destruct (Str.isAsciiUpper c) eqn:E.
  - unfold Str.isAsciiUpper in E. apply andb_true_iff in E.
    destruct E as [A B]. apply N.leb_le in A. apply N.leb_le in B.
    unfold asciiLetter, Str.isAsciiUpper, Str.isAsciiLower.
    decide_comparisons. reflexivity.
  - exact H.
Qed.

Lemma lower_letters (a : jsstring) :
  letters a ->
  letters (map (fun c => if Str.isAsciiUpper c then (c + 32)%N else c) a).
Proof.
  intros H. unfold letters. rewrite Forall_map.
  eapply Forall_impl; [| exact H]. intros c Hc. now apply lower_letter.
Qed.

Lemma letters_no_space (a : jsstring) : letters a -> ~ In 32%N a.
Proof.
  intros H Hin. unfold letters in H. rewrite Forall_forall in H.
  specialize (H _ Hin). discriminate H.
Qed.

Lemma headerWords_no_space :
  Forall (fun h => ~ In 32%N h /\ ~ In 32%N (rev h)) Ocr.headerWords.
Proof.
  repeat constructor;
    intros H; cbn in H;
    repeat (destruct H as [H | H]; [discriminate H |]); exact H.
Qed.

(** Of a line "a - b" of words of letters, [h] is the whole line, its first
    word or its last word exactly when [h] is [a] or [b]. *)
Lemma header_test_on_pair (h a b : jsstring) :
  ~ In 32%N h -> ~ In 32%N (rev h) -> letters a -> letters b ->
  Str.eqb (a ++ str " - " ++ b) h
  || Str.startsWith (a ++ str " - " ++ b) (h ++ str " ")
  || Str.endsWith (a ++ str " - " ++ b) (str " " ++ h)
  = Str.eqb a h || Str.eqb b h.
Proof.
  intros Hh Hr Ha Hb.
  assert (E : Str.eqb (a ++ str " - " ++ b) h = false).
  { apply str_eqb_false. intros H. apply Hh. rewrite <- H.
    apply in_or_app. right. now left. }
  rewrite E. cbn [orb]. f_equal.
  - apply (startsWith_word h Hh a (str "- " ++ b)).
    now apply letters_no_space.
  - unfold Str.endsWith. rewrite !rev_app_distr, <- !app_assoc.
    change (rev (str " - ")) with (32%N :: str "- ").
    change (rev (str " ")) with [32%N].
    cbn [app].
    rewrite (startsWith_word (rev h) Hr (rev b) (str "- " ++ rev a)).
    + apply str_eqb_rev.
    + apply letters_no_space. now apply letters_rev.
Qed.

Lemma includes_member (c : N) (s : jsstring) :
  In c s -> Str.includes s [c] = true.
Proof.
  induction s as [| x s IH]; [intros [] |].
  intros [E | H]; cbn [Str.includes Str.startsWith].
  - subst x. rewrite N.eqb_refl. destruct s; reflexivity.
  - rewrite (IH H). apply orb_true_r.
Qed.

Lemma split_without (c : N) (s : jsstring) :
  Forall (fun x => (x =? c)%N = false) s -> Str.split c s = [s].
Proof.
  induction 1 as [| x s Hx _ IH]; [reflexivity |].
  cbn [Str.split]. now rewrite Hx, IH.
Qed.

Lemma length_positive (s : jsstring) :
  s <> [] -> Js.gtb (Str.length s) 0 = true.
Proof.
  intros H. unfold Js.gtb, Str.length. apply ltb_true.
  change 0 with (inject_Z 0). rewrite <- Zlt_Qlt.
  destruct s; [contradiction | cbn [List.length]; lia].
Qed.

Lemma pair_line_no_newline (a b : jsstring) :
  letters a -> letters b ->
  Forall (fun x => (x =? 10)%N = false) (a ++ str " - " ++ b).
Proof.
  intros Ha Hb. apply Forall_app. split; [| apply Forall_app; split].
  - eapply Forall_impl; [| exact Ha]. exact letter_not_newline.
  - repeat constructor.
  - eapply Forall_impl; [| exact Hb]. exact letter_not_newline.
Qed.

Lemma pair_line_ascii (a b : jsstring) :
  letters a -> letters b ->
  Forall (fun c => Uni.isAscii c = true) (a ++ str " - " ++ b).
Proof.
  intros Ha Hb. apply Forall_app. split; [| apply Forall_app; split].
  - eapply Forall_impl; [| exact Ha]. exact letter_is_ascii.
  - repeat constructor.
  - eapply Forall_impl; [| exact Hb]. exact letter_is_ascii.
Qed.

Lemma linesOf_pair_line (a b : jsstring) :
  letters a -> a <> [] -> letters b -> b <> [] ->
  Ocr.linesOf (a ++ str " - " ++ b) = [a ++ str " - " ++ b]
  /\ OcrVariant.linesOf (a ++ str " - " ++ b) = [a ++ str " - " ++ b].
Proof.
  intros Ha Na Hb Nb.
  assert (E : Ocr.linesOf (a ++ str " - " ++ b) = [a ++ str " - " ++ b]).
  { unfold Ocr.linesOf.
    rewrite (split_without 10 _ (pair_line_no_newline a b Ha Hb)).
    cbn [map]. rewrite (trim_between_letters a (str " - ") b Ha Na Hb Nb).
    cbn [filter]. rewrite length_positive; [reflexivity |].
    destruct a; [contradiction | discriminate]. }
  split; [exact E | exact E].
Qed.

Section PairLine.

Variable u : Unicode.
Variables a b : jsstring.
Hypothesis Ha : letters a.
Hypothesis Na : a <> [].
Hypothesis Hb : letters b.
Hypothesis Nb : b <> [].

Lemma isLikelyHeader_pair_line (store : Ocr.Store) :
  fst (Ocr.isLikelyHeader u store (a ++ str " - " ++ b))
  = isHeaderWord a || isHeaderWord b.
Proof.
  unfold Ocr.isLikelyHeader.
  assert (C : Str.trim (RegExp.replace Ocr.ordinalPrefix
                          (a ++ str " - " ++ b) [])
              = a ++ str " - " ++ b).
  { destruct Ha as [| c a' Hc Ha']; [contradiction |].
    unfold Ocr.ordinalPrefix. cbn [app].
    rewrite (replace_anchored_plus _ _ c _ (letter_not_digit c Hc)).
    apply (trim_between_letters (c :: a') (str " - ") b);
      [now constructor | discriminate | exact Hb | exact Nb]. }
  rewrite C. cbv zeta.
  assert (D : Str.includes (a ++ str " - " ++ b) (str "-") = true).
  { apply (includes_member 45%N). apply in_or_app. right. right. now left. }
  rewrite D. cbn [negb andb].
  destruct (if Js.ltb (Str.length (a ++ str " - " ++ b)) 15
            then let '(found, store') :=
                   Ocr.someTest Ocr.SEPARATORS store (a ++ str " - " ++ b) in
                 (negb found, store')
            else (false, store)) as [bare store'].
  rewrite andb_false_r.
  rewrite (toLowerCase_ascii u _ (pair_line_ascii a b Ha Hb)).
  rewrite !map_app.
  change (map _ (str " - ")) with (str " - ").
  set (lower := fun c => if Str.isAsciiUpper c then (c + 32)%N else c).
  assert (E : existsb
                (fun h =>
                   Str.eqb (map lower a ++ str " - " ++ map lower b) h
                   || Str.startsWith (map lower a ++ str " - " ++ map lower b)
                                     (h ++ str " ")
                   || Str.endsWith (map lower a ++ str " - " ++ map lower b)
                                   (str " " ++ h))
                Ocr.headerWords
              = isHeaderWord a || isHeaderWord b).
  { unfold isHeaderWord. fold lower. rewrite <- existsb_orb.
    apply existsb_same.
    eapply Forall_impl; [| exact headerWords_no_space].
    intros h [Hh Hr]. cbv beta.
    apply header_test_on_pair; try assumption; now apply lower_letters. }
  rewrite E. destruct (isHeaderWord a || isHeaderWord b); reflexivity.
Qed.

Lemma parseWordPairs_pair_line (store : Ocr.Store) :
  fst (Ocr.parseWordPairs u store (a ++ str " - " ++ b))
  = OCRResult.mk (a ++ str " - " ++ b)
      (if isHeaderWord a || isHeaderWord b then []
       else [ParsedWordPair.mk a b (Ocr.calculateConfidence a b)])
      [].
Proof.
  unfold Ocr.parseWordPairs.
  rewrite (proj1 (linesOf_pair_line a b Ha Na Hb Nb)).
  cbn [Ocr.parseLines].
  pose proof (isLikelyHeader_pair_line store) as H.
  destruct (Ocr.isLikelyHeader u store (a ++ str " - " ++ b))
    as [header store'].
  cbn [fst] in H. rewrite <- H.
  destruct header; [reflexivity |].
  now rewrite (parseLine_spaced_dash u a b Ha Na Hb Nb).
Qed.

Lemma parseWordPairs_pair_line_variant :
  OcrVariant.parseWordPairs u (a ++ str " - " ++ b)
  = OCRResult.mk (a ++ str " - " ++ b)
      [ParsedWordPair.mk a b (Ocr.calculateConfidence a b)] [].
Proof.
  unfold OcrVariant.parseWordPairs.
  rewrite (proj2 (linesOf_pair_line a b Ha Na Hb Nb)).
  cbn [OcrVariant.parseLines].
  now rewrite (parseLine_spaced_dash_variant u a b Ha Na Hb Nb).
Qed.

End PairLine.

(** X20. On a text of one line "term - definition" of two non-empty words
    of ASCII letters, the variant with the header filter returns that one
    pair and no unparsed line, unless the term or the definition is, in any
    case of letters, one of the header words ("frans", "nederlands",
    "engels", "duits", "spaans", "woord", "betekenis", "vertaling"): then
    the line is dropped without a trace, neither a pair nor an unparsed
    line. The variant without the filter returns the pair in both cases. *)
Theorem header_word_drops_the_pair :
  forall (u : Unicode) (store : Ocr.Store) (a b : jsstring),
    letters a -> a <> [] -> letters b -> b <> [] ->
    let rawText := a ++ str " - " ++ b in
    let result := fst (Ocr.parseWordPairs u store rawText) in
    OCRResult.pairs result
    = (if isHeaderWord a || isHeaderWord b then []
       else [ParsedWordPair.mk a b (Ocr.calculateConfidence a b)])
    /\ OCRResult.parseErrors result = []
    /\ OCRResult.pairs (OcrVariant.parseWordPairs u rawText)
       = [ParsedWordPair.mk a b (Ocr.calculateConfidence a b)]
    /\ OCRResult.parseErrors (OcrVariant.parseWordPairs u rawText) = [].
Proof.
  intros u store a b Ha Na Hb Nb rawText result. subst result rawText.
  rewrite (parseWordPairs_pair_line u a b Ha Na Hb Nb store).
  rewrite (parseWordPairs_pair_line_variant u a b Ha Na Hb Nb).
  repeat apply conj; reflexivity.
Qed.

Lemma header_word_drops_the_pair_witness :
  OCRResult.pairs
    (fst (Ocr.parseWordPairs
            (mkUnicode (fun _ => false) (fun _ => false) (fun s => s))
            Ocr.initialStore (str "Woord" ++ str " - " ++ str "mot")))
  = []
  /\ OCRResult.pairs
       (OcrVariant.parseWordPairs
          (mkUnicode (fun _ => false) (fun _ => false) (fun s => s))
          (str "Woord" ++ str " - " ++ str "mot"))
     = [ParsedWordPair.mk (str "Woord") (str "mot")
          (Ocr.calculateConfidence (str "Woord") (str "mot"))].
Proof.
  destruct (header_word_drops_the_pair
              (mkUnicode (fun _ => false) (fun _ => false) (fun s => s))
              Ocr.initialStore (str "Woord") (str "mot"))
    as (H1 & _ & H3 & _).
  - repeat constructor.
  - discriminate.
  - repeat constructor.
  - discriminate.
  - split; [exact H1 | exact H3].
Defined.

(** ** The unparsed lines *)

Lemma parseLines_as_filter (u : Unicode) (store : Ocr.Store)
    (lines : list jsstring) :
  snd (fst (Ocr.parseLines u store lines))
  = filter (fun line =>
              negb (fst (Ocr.isLikelyHeader u store line))
              && match Ocr.parseLine u line with
                 | Some _ => false
                 | None => true
                 end
              && Js.gtb (Str.length line) 2)
           lines
  /\ (List.length (fst (fst (Ocr.parseLines u store lines)))
      + List.length (snd (fst (Ocr.parseLines u store lines)))
      <= List.length lines)%nat.
Proof.
  induction lines as [| line lines IH]; [split; [reflexivity | cbn; lia] |].
  cbn [Ocr.parseLines filter List.length].
  pose proof (isLikelyHeader_store u store line) as Hs.
  destruct (Ocr.isLikelyHeader u store line) as [header store'].
  cbn [snd fst] in *. subst store'.
  destruct IH as [IH1 IH2].
  destruct header; cbn [negb andb]; [split; [exact IH1 | lia] |].
  destruct (Ocr.parseLines u store lines) as [[pairs errs] st].
  cbn [fst snd] in *.
  destruct (Ocr.parseLine u line) as [p |].
  - cbn [fst snd List.length]. split; [exact IH1 | lia].
  - destruct (Js.gtb (Str.length line) 2); cbn [fst snd List.length];
      (split; [now rewrite IH1 | lia]).
Qed.

Lemma linesOf_trimmed (rawText : jsstring) :
  Forall (fun line => line <> [] /\ Str.trim line = line)
         (Ocr.linesOf rawText).
Proof.
  unfold Ocr.linesOf. apply Forall_forall. intros line Hin.
  apply filter_In in Hin. destruct Hin as [Hin Hlen].
  apply in_map_iff in Hin. destruct Hin as (raw & E & _). subst line.
  split; [| apply trim_idempotent].
  intros E. rewrite E in Hlen. discriminate Hlen.
Qed.

(** X21. The unparsed lines of a result are, in the order of the text, the
    trimmed non-empty lines that are not taken for a header, that no parse
    strategy accepts and that are longer than two code units; a line gives
    at most one pair or one unparsed line, never both, and every line
    handed to the parser is trimmed and not empty. *)
Theorem unparsed_lines_are_the_rejected_lines :
  forall (u : Unicode) (store : Ocr.Store) (rawText : jsstring),
    let result := fst (Ocr.parseWordPairs u store rawText) in
    OCRResult.parseErrors result
    = filter (fun line =>
                negb (fst (Ocr.isLikelyHeader u store line))
                && match Ocr.parseLine u line with
                   | Some _ => false
                   | None => true
                   end
                && Js.gtb (Str.length line) 2)
             (Ocr.linesOf rawText)
    /\ (List.length (OCRResult.pairs result)
        + List.length (OCRResult.parseErrors result)
        <= List.length (Ocr.linesOf rawText))%nat
    /\ Forall (fun line => line <> [] /\ Str.trim line = line)
              (Ocr.linesOf rawText).
Proof.
  intros u store rawText result. subst result. unfold Ocr.parseWordPairs.
  destruct (parseLines_as_filter u store (Ocr.linesOf rawText)) as [H1 H2].
  destruct (Ocr.parseLines u store (Ocr.linesOf rawText))
    as [[pairs errs] st].
  cbn [fst snd OCRResult.pairs OCRResult.parseErrors] in *.
  repeat apply conj; [exact H1 | exact H2 | apply linesOf_trimmed].
Qed.

(** * Further properties of a practice session *)

Lemma length_gtb_0 (n : nat) :
  Js.gtb (inject_Z (Z.of_nat n)) 0 = true <-> (0 < n)%nat.
Proof.
  unfold Js.gtb. rewrite ltb_true. change 0 with (inject_Z 0).
  rewrite <- Zlt_Qlt. lia.
Qed.

(** X22. A session on a list offers its due words or, when none is due, all
    its words: the due words are the words of the list whose [nextReview]
    is not after the instant of loading; when there are any, they are the
    words to study, and when there are none, all the words of the list are.
    So the words to study are always words of that list, and there are none
    only when the list has no words at all. *)
Theorem session_on_a_list_is_never_empty :
  forall (store : list Word) (c : N) (l : jsstring) (now : number),
    incl (PracticeLoad.wordsToStudy store (Some (c :: l)) now)
         (PracticeLoad.getWordsByList store (c :: l))
    /\ (PracticeLoad.wordsToStudy store (Some (c :: l)) now = []
        <-> PracticeLoad.getWordsByList store (c :: l) = [])
    /\ (forall w : Word,
          In w (Db.getDueWords store (Some (c :: l)) now)
          <-> In w (PracticeLoad.getWordsByList store (c :: l))
              /\ nextReview w <= now)
    /\ (Db.getDueWords store (Some (c :: l)) now <> [] ->
        PracticeLoad.wordsToStudy store (Some (c :: l)) now
        = Db.getDueWords store (Some (c :: l)) now)
    /\ (Db.getDueWords store (Some (c :: l)) now = [] ->
        PracticeLoad.wordsToStudy store (Some (c :: l)) now
        = PracticeLoad.getWordsByList store (c :: l)).
Proof.
  intros store c l now. unfold PracticeLoad.wordsToStudy. cbv zeta.
  assert (D : Db.getDueWords store (Some (c :: l)) now
              = filter (fun w => Js.leb (nextReview w) now)
                       (PracticeLoad.getWordsByList store (c :: l)))
    by reflexivity.
  rewrite D. set (all := PracticeLoad.getWordsByList store (c :: l)).
  assert (M : forall w : Word,
              In w (filter (fun w => Js.leb (nextReview w) now) all)
              <-> In w all /\ nextReview w <= now).
  { intros w. rewrite filter_In, leb_true. reflexivity. }
  destruct (Js.gtb _ 0) eqn:E.
  - apply length_gtb_0 in E. repeat apply conj.
    + intros w Hw. apply filter_In in Hw. tauto.
    + intros H. rewrite H in E. cbn in E. lia.
    + intros H. rewrite H in E. cbn in E. lia.
    + exact M.
    + reflexivity.
    + intros H. rewrite H in E. cbn in E. lia.
  - assert (N : filter (fun w => Js.leb (nextReview w) now) all = []).
    { destruct (filter _ all) as [| x xs] eqn:F; [reflexivity |].
      assert (T : Js.gtb (inject_Z (Z.of_nat (List.length (x :: xs)))) 0
                  = true) by (apply length_gtb_0; cbn; lia).
      rewrite T in E. discriminate E. }
    repeat apply conj.
    + apply incl_refl.
    + auto.
    + auto.
    + exact M.
    + intros H. now elim H.
    + reflexivity.
Qed.

(** ** The shuffle *)

Lemma exchange_permutation {A : Type} (l1 l3 l4 : list A) (x y : A) :
  Permutation (l1 ++ y :: l3 ++ x :: l4) (l1 ++ x :: l3 ++ y :: l4).
Proof.
  apply Permutation_app_head.
  apply Permutation_trans with (y :: x :: l3 ++ l4).
  - apply perm_skip. symmetry. apply Permutation_middle.
  - apply Permutation_trans with (x :: y :: l3 ++ l4); [apply perm_swap |].
    apply perm_skip. apply Permutation_middle.
Qed.

(** Two positions of a list, the first before the second. *)
Lemma split_two {A : Type} (l : list A) (i j : nat) (x y : A) :
  (i < j)%nat ->
  nth_error l i = Some x -> nth_error l j = Some y ->
  exists l1 l3 l4 : list A,
    l = l1 ++ x :: l3 ++ y :: l4
    /\ List.length l1 = i /\ List.length (l1 ++ x :: l3) = j.
Proof.
  intros Hij Hi Hj.
  destruct (nth_error_split l i Hi) as (l1 & l2 & E & L1). subst l.
  rewrite nth_error_app2 in Hj by lia.
  replace (j - List.length l1)%nat with (S (j - List.length l1 - 1)) in Hj
    by lia.
  cbn [nth_error] in Hj.
  destruct (nth_error_split l2 _ Hj) as (l3 & l4 & E & L3). subst l2.
  exists l1, l3, l4. repeat split; [exact L1 |].
  rewrite length_app. cbn [List.length]. lia.
Qed.

Section JsArray.

Context {A : Type} (undefined : A).

Lemma setNat_app (l1 l2 : list A) (k : nat) (v : A) :
  PracticeLoad.setNat undefined (l1 ++ l2) (List.length l1 + k) v
  = l1 ++ PracticeLoad.setNat undefined l2 k v.
Proof.
  induction l1 as [| a l1 IH]; [reflexivity |].
  cbn [app List.length Nat.add PracticeLoad.setNat]. now rewrite IH.
Qed.

(** Within the array a write replaces the element and a read finds it. *)
Lemma setAt_here (l1 l2 : list A) (a v : A) :
  PracticeLoad.setAt undefined (l1 ++ a :: l2)
                     (Z.of_nat (List.length l1)) v
  = l1 ++ v :: l2.
Proof.
  unfold PracticeLoad.setAt.
  destruct (Z.ltb_spec (Z.of_nat (List.length l1)) 0) as [H | _]; [lia |].
  rewrite Nat2Z.id, <- (Nat.add_0_r (List.length l1)), setNat_app.
  reflexivity.
Qed.

Lemma getAt_here (l1 l2 : list A) (a : A) :
  PracticeLoad.getAt undefined (l1 ++ a :: l2) (Z.of_nat (List.length l1))
  = a.
Proof.
  unfold PracticeLoad.getAt.
  destruct (Z.ltb_spec (Z.of_nat (List.length l1)) 0) as [H | _]; [lia |].
  rewrite Nat2Z.id. apply nth_middle.
Qed.

(** A swap of two positions of the array keeps its elements. *)
Lemma swapAt_permutation (l : list A) (i j : nat) :
  (i < List.length l)%nat -> (j <= i)%nat ->
  Permutation (PracticeLoad.swapAt undefined l (Z.of_nat i) (Z.of_nat j)) l.
Proof.
  intros Hi Hj. unfold PracticeLoad.swapAt. cbv zeta.
  destruct (nth_error l i) as [x |] eqn:Ei;
    [| apply nth_error_None in Ei; lia].
  destruct (nth_error l j) as [y |] eqn:Ej;
    [| apply nth_error_None in Ej; lia].
  destruct (Nat.eq_dec j i) as [E | N].
  - subst j. destruct (nth_error_split l i Ei) as (l1 & l2 & E & L1).
    subst l. rewrite <- L1. now rewrite getAt_here, !setAt_here.
  - destruct (split_two l j i y x ltac:(lia) Ej Ei)
      as (l1 & l3 & l4 & E & L1 & L2).
    subst l.
    pose proof (getAt_here l1 (l3 ++ x :: l4) y) as G1. rewrite L1 in G1.
    pose proof (getAt_here (l1 ++ y :: l3) l4 x) as G2.
    rewrite <- !app_assoc in G2. cbn [app] in G2. rewrite L2 in G2.
    rewrite G1, G2.
    pose proof (setAt_here (l1 ++ y :: l3) l4 x y) as S1.
    rewrite <- !app_assoc in S1. cbn [app] in S1. rewrite L2 in S1.
    rewrite S1.
    pose proof (setAt_here l1 (l3 ++ y :: l4) y x) as S2.
    rewrite L1 in S2. rewrite S2. apply exchange_permutation.
Qed.

(** [Math.floor(Math.random() * (i + 1))] is an index from 0 to [i]. *)
Lemma random_index (r : number) (i : nat) :
  0 <= r -> r < 1 ->
  (0 <= Qfloor (r * (inject_Z (Z.of_nat i) + 1)) <= Z.of_nat i)%Z.
Proof.
  intros H0 H1.
  assert (I : 0 <= inject_Z (Z.of_nat i)).
  { change 0 with (inject_Z 0). rewrite <- Zle_Qle. lia. }
  split.
  - change 0%Z with (Qfloor 0). apply Qfloor_resp_le. nra.
  - assert (L : inject_Z (Qfloor (r * (inject_Z (Z.of_nat i) + 1)))
                < inject_Z (Z.of_nat i + 1)).
    { eapply Qle_lt_trans; [apply Qfloor_le |].
      rewrite inject_Z_plus. change (inject_Z 1) with 1. nra. }
    rewrite <- Zlt_Qlt in L. lia.
Qed.

Lemma shuffleLoop_permutation (random : nat -> number) (i : nat) :
  (forall call : nat, 0 <= random call /\ random call < 1) ->
  forall (call : nat) (shuffled : list A),
    (i < List.length shuffled)%nat \/ i = 0%nat ->
    Permutation
      (PracticeLoad.shuffleLoop undefined random call i shuffled) shuffled.
Proof.
  intros Hr. induction i as [| i IH]; intros call shuffled Hi;
    [reflexivity |].
  destruct Hi as [Hi | Hi]; [| discriminate Hi].
  cbn [PracticeLoad.shuffleLoop]. cbv zeta.
  destruct (Hr call) as [H0 H1].
  pose proof (random_index (random call) (S i) H0 H1) as [J0 J1].
  set (j := Qfloor _) in *.
  assert (P : Permutation
                (PracticeLoad.swapAt undefined shuffled (Z.of_nat (S i)) j)
                shuffled).
  { rewrite <- (Z2Nat.id j J0). apply swapAt_permutation; lia. }
  eapply Permutation_trans; [apply IH | exact P].
  apply Permutation_length in P. lia.
Qed.

(** Whatever the indices, a swap brings in nothing but [undefined]. *)
Lemma setNat_In (l : list A) :
  forall (i : nat) (v x : A),
    In x (PracticeLoad.setNat undefined l i v) ->
    x = v \/ x = undefined \/ In x l.
Proof.
  induction l as [| a l IH]; intros i v x H.
  - induction i as [| i IHi]; cbn [PracticeLoad.setNat] in H.
    + destruct H as [H | []]. now left.
    + destruct H as [H | H]; [right; left; now symmetry | now apply IHi].
  - destruct i as [| i]; cbn [PracticeLoad.setNat] in H.
    + destruct H as [H | H]; [left; now symmetry | right; right; now right].
    + destruct H as [H | H]; [right; right; now left |].
      destruct (IH i v x H) as [E | [E | E]]; auto.
      right; right; now right.
Qed.

Lemma setAt_In (l : list A) (i : Z) (v x : A) :
  In x (PracticeLoad.setAt undefined l i v) ->
  x = v \/ x = undefined \/ In x l.
Proof.
  unfold PracticeLoad.setAt. destruct (i <? 0)%Z; [auto |].
  apply setNat_In.
Qed.

Lemma getAt_In (l : list A) (i : Z) :
  PracticeLoad.getAt undefined l i = undefined
  \/ In (PracticeLoad.getAt undefined l i) l.
Proof.
  unfold PracticeLoad.getAt. destruct (i <? 0)%Z; [now left |].
  destruct (nth_in_or_default (Z.to_nat i) l undefined); auto.
Qed.

Lemma swapAt_In (l : list A) (i j : Z) (x : A) :
  In x (PracticeLoad.swapAt undefined l i j) -> x = undefined \/ In x l.
Proof.
  unfold PracticeLoad.swapAt. cbv zeta. intros H.
  apply setAt_In in H. destruct H as [E | [E | H]]; [| now left |].
  - subst x. apply getAt_In.
  - apply setAt_In in H. destruct H as [E | [E | H]]; [| now left | now right].
    subst x. apply getAt_In.
Qed.

Lemma shuffleLoop_In (random : nat -> number) (i : nat) :
  forall (call : nat) (shuffled : list A) (x : A),
    In x (PracticeLoad.shuffleLoop undefined random call i shuffled) ->
    x = undefined \/ In x shuffled.
Proof.
  induction i as [| i IH]; intros call shuffled x H; [now right |].
  cbn [PracticeLoad.shuffleLoop] in H. cbv zeta in H.
  apply IH in H. destruct H as [E | H]; [now left |].
  now apply swapAt_In in H.
Qed.

End JsArray.

(** X23. When [Math.random] keeps its promise of a number from 0 up to but
    not including 1, every index [j] of the loop lies between 0 and [i] and
    the shuffled array holds the elements of the array it was given, each as
    many times: none is lost or added, and the length is kept. *)
Theorem shuffleArray_is_a_permutation :
  forall (A : Type) (undefined : A) (random : nat -> number)
         (array : list A),
    (forall call : nat, 0 <= random call /\ random call < 1) ->
    (forall call i : nat,
       (0 <= Qfloor (random call * (inject_Z (Z.of_nat i) + 1))
        <= Z.of_nat i)%Z)
    /\ Permutation (PracticeLoad.shuffleArray undefined random array) array
    /\ List.length (PracticeLoad.shuffleArray undefined random array)
       = List.length array.
Proof.
  intros A undefined random array Hr.
  assert (P : Permutation (PracticeLoad.shuffleArray undefined random array)
                          array).
  { apply shuffleLoop_permutation; [exact Hr |].
    destruct array as [| a array]; [now right | left].
    cbn [List.length]. lia. }
  split; [| split; [exact P | now apply Permutation_length]].
  intros call i. destruct (Hr call) as [H0 H1].
  exact (random_index (random call) i H0 H1).
Qed.

Lemma shuffleArray_is_a_permutation_witness :
  Permutation
    (PracticeLoad.shuffleArray None (fun _ => 1 # 2)
                               [Some seasonedWord; Some unreviewedWord;
                                Some tieWord])
    [Some seasonedWord; Some unreviewedWord; Some tieWord].
Proof.
  apply (shuffleArray_is_a_permutation
           (option Word) None (fun _ => 1 # 2)
           [Some seasonedWord; Some unreviewedWord; Some tieWord]).
  intros call. split; [unfold Qle | unfold Qlt]; simpl; lia.
Defined.

(** The swap has no guard of its own: were [Math.random] to return 1, the
    loop would read and write one place past the end of a two-element
    array. *)
Lemma shuffleArray_relies_on_random :
  forall (A : Type) (undefined a b : A),
    PracticeLoad.shuffleArray undefined (fun _ => 1) [a; b]
    = [a; undefined; b].
Proof. reflexivity. Qed.

(** ** The store *)

Lemma get_put (table : list Word) (word : Word) (key : jsstring) :
  Component.get (Component.put table word) key
  = if Str.eqb (id word) key then Some word else Component.get table key.
Proof.
  unfold Component.get.
  induction table as [| w table IH]; cbn [Component.put find].
  - destruct (Str.eqb (id word) key); reflexivity.
  - destruct (Str.eqb (id w) (id word)) eqn:E.
    + apply str_eqb_true in E. cbn [find]. rewrite E.
      destruct (Str.eqb (id word) key); reflexivity.
    + cbn [find]. rewrite IH.
      destruct (Str.eqb (id w) key) eqn:Ew; [| reflexivity].
      destruct (Str.eqb (id word) key) eqn:Ek; [| reflexivity].
      apply str_eqb_true in Ew, Ek. rewrite Ew, Ek, str_eqb_refl in E.
      discriminate E.
Qed.

(** ** What a session stores *)

Lemma handleRate_stores (s : Component.Session) (now : number)
    (r : UserRating) (key : jsstring) :
  let s' := Component.handleRate s now r in
  Component.words s' = Component.words s
  /\ (Component.get (Component.table s') key
      = Component.get (Component.table s) key
      \/ exists w : Word,
           In (Some w) (Component.words s) /\ id w = key
           /\ Component.get (Component.table s') key
              = Some (Practice.handleRate w now r)).
Proof.
  cbv zeta. unfold Component.handleRate.
  destruct (nth_in_or_default (Component.currentIndex s) (Component.words s)
                              None) as [H | H].
  - destruct (nth _ _ None) as [w |]; [| split; [reflexivity | now left]].
    cbn [Component.words Component.table]. split; [reflexivity |].
    rewrite get_put.
    destruct (Str.eqb _ key) eqn:E; [right | now left].
    apply str_eqb_true in E. exists w. repeat apply conj; auto.
  - rewrite H. split; [reflexivity | now left].
Qed.

Lemma handleRestart_In (s : Component.Session) (random : nat -> number)
    (w : Word) :
  In (Some w) (Component.words (Component.handleRestart s random)) ->
  In (Some w) (Component.words s).
Proof.
  unfold Component.handleRestart, PracticeLoad.shuffleArray.
  cbn [Component.words]. intros H.
  apply shuffleLoop_In in H. destruct H as [H | H]; [discriminate H | exact H].
Qed.

Lemma run_stores (events : list Component.Event) :
  forall (s : Component.Session) (key : jsstring),
    (forall w : Word,
       In (Some w) (Component.words (Component.run s events)) ->
       In (Some w) (Component.words s))
    /\ (Component.get (Component.table (Component.run s events)) key
        = Component.get (Component.table s) key
        \/ exists (w : Word) (now : number) (r : UserRating),
             In (Some w) (Component.words s) /\ id w = key
             /\ In (Component.Rate now r) events
             /\ Component.get (Component.table (Component.run s events)) key
                = Some (Practice.handleRate w now r)).
Proof.
  induction events as [| e events IH]; intros s key.
  - split; [auto | now left].
  - change (Component.run s (e :: events))
      with (Component.run (Component.step s e) events).
    destruct (IH (Component.step s e) key) as [Hw Ht].
    assert (W : forall w : Word,
                In (Some w) (Component.words (Component.step s e)) ->
                In (Some w) (Component.words s)).
    { intros w H. destruct e as [now r | random]; cbn [Component.step] in H.
      - now rewrite (proj1 (handleRate_stores s now r key)) in H.
      - now apply handleRestart_In in H. }
    split; [intros w H; apply W, Hw, H |].
    destruct Ht as [Ht | (w & now & r & Hi & Hk & He & Hg)].
    + rewrite Ht. destruct e as [now r | random]; cbn [Component.step].
      * destruct (proj2 (handleRate_stores s now r key))
          as [H | (w & Hi & Hk & Hg)]; [now left | right].
        exists w, now, r. repeat apply conj; auto. now left.
      * now left.
    + right. exists w, now, r. repeat apply conj; auto. now right.
Qed.

(** The words [loadData] puts in the state are words of the store. *)
Lemma loadData_words (s : Component.Session) (random : nat -> number)
    (ofList : option jsstring) (t0 : number) (w : Word) :
  In (Some w) (Component.words (Component.loadData s random ofList t0)) ->
  In w (PracticeLoad.wordsToStudy (Component.table s) ofList t0).
Proof.
  unfold Component.loadData, PracticeLoad.shuffleArray.
  cbn [Component.words]. intros H.
  apply shuffleLoop_In in H. destruct H as [H | H]; [discriminate H |].
  apply in_map_iff in H. destruct H as (x & E & H).
  injection E as E. now subst x.
Qed.

(** What [handleRate] writes is found in the store under the id of the
    word on show. *)
Lemma handleRate_writes (s : Component.Session) (now : number)
    (r : UserRating) (w : Word) :
  nth (Component.currentIndex s) (Component.words s) None = Some w ->
  In (Some w) (Component.words s)
  /\ Component.get (Component.table (Component.handleRate s now r)) (id w)
     = Some (Practice.handleRate w now r).
Proof.
  intros E. split.
  - destruct (nth_in_or_default (Component.currentIndex s)
                                (Component.words s) None) as [H | H].
    + now rewrite E in H.
    + rewrite E in H. discriminate H.
  - unfold Component.handleRate. rewrite E. cbn [Component.table].
    rewrite get_put. change (id (Practice.handleRate w now r)) with (id w).
    now rewrite str_eqb_refl.
Qed.

(** X1. A session stores one review per word, however often the word is
    rated. From [loadData] on and through any ratings and restarts, the
    words of the state are words the store held at loading; a rating of the
    word on show puts in the store that word, as it was loaded, with the
    result of this one rating merged in; and so a record of the store is
    either as it was at loading or a loaded word with one review more than
    it had at loading, in [timesCorrect] for good and easy and in
    [timesIncorrect] for again and hard. Ratings of the same word in one
    session do not add up, because [handleRate] reads the word from the
    state and writes it to the store only. *)
Theorem session_stores_one_review_per_word :
  forall (s : Component.Session) (random : nat -> number)
         (ofList : option jsstring) (t0 : number)
         (events : list Component.Event) (key : jsstring),
    let loaded := PracticeLoad.wordsToStudy (Component.table s) ofList t0 in
    let s' :=
      Component.run (Component.loadData s random ofList t0) events in
    (forall w : Word, In (Some w) (Component.words s') -> In w loaded)
    /\ (forall (w : Word) (now : number) (r : UserRating),
          nth (Component.currentIndex s') (Component.words s') None
          = Some w ->
          In w loaded
          /\ Component.get
               (Component.table
                  (Component.run (Component.loadData s random ofList t0)
                                 (events ++ [Component.Rate now r])))
               (id w)
             = Some (Practice.handleRate w now r))
    /\ (Component.get (Component.table s') key
        = Component.get (Component.table s) key
        \/ exists (w stored : Word) (now : number) (r : UserRating),
             In w loaded /\ id w = key
             /\ In (Component.Rate now r) events
             /\ Component.get (Component.table s') key = Some stored
             /\ stored = Practice.handleRate w now r
             /\ timesCorrect stored
                == timesCorrect w + (if remembered r then 1 else 0)
             /\ timesIncorrect stored
                == timesIncorrect w + (if remembered r then 0 else 1)).
Proof.
  intros s random ofList t0 events key. cbv zeta.
  destruct (run_stores events (Component.loadData s random ofList t0) key)
    as [Hw Ht].
  split; [intros w H; apply (loadData_words s random), Hw, H |].
  split.
  - intros w now r E. unfold Component.run. rewrite fold_left_app.
    cbn [fold_left Component.step].
    destruct (handleRate_writes
                (Component.run (Component.loadData s random ofList t0)
                               events) now r w E) as [Hi Hg].
    split; [apply (loadData_words s random), Hw, Hi | exact Hg].
  - destruct Ht as [Ht | (w & now & r & Hi & Hk & He & Hg)];
      [now left | right].
    exists w, (Practice.handleRate w now r), now, r.
    apply (loadData_words s random) in Hi.
    repeat apply conj; auto; unfold Practice.handleRate;
      cbn [merge timesCorrect timesIncorrect];
      rewrite ?timesCorrect_next, ?timesIncorrect_next;
      destruct (remembered r); lra.
Qed.

(** A word alone in its session. *)
Lemma handleRate_alone (w : Word) (i : bool) (c : PracticeStats.Counters)
    (store : list Word) (now : number) (r : UserRating) :
  Component.handleRate (Component.mkSession [Some w] 0 i c store) now r
  = Component.mkSession [Some w] 0 true (PracticeStats.count w r c)
      (Component.put store (Practice.handleRate w now r)).
Proof. reflexivity. Qed.

Lemma handleRestart_alone (w : Word) (i : bool) (c : PracticeStats.Counters)
    (store : list Word) (random : nat -> number) :
  Component.handleRestart (Component.mkSession [Some w] 0 i c store) random
  = Component.mkSession [Some w] 0 false
      (PracticeStats.mkCounters 0 0 (PracticeStats.totalReviews c)
                                (PracticeStats.totalWordsLearned c))
      store.
Proof. reflexivity. Qed.

(** Rated, started over and rated again, the word is stored with one review
    more than it was loaded with, and the statistics count two. *)
Lemma second_rating_overwrites_the_first :
  forall (w : Word) (c : PracticeStats.Counters) (store : list Word)
         (now1 now2 : number) (r1 r2 : UserRating) (random : nat -> number),
    let s' :=
      Component.run
        (Component.mkSession [Some w] 0 false c store)
        [Component.Rate now1 r1; Component.Restart random;
         Component.Rate now2 r2] in
    Component.get (Component.table s') (id w)
    = Some (Practice.handleRate w now2 r2)
    /\ timesCorrect (Practice.handleRate w now2 r2)
       + timesIncorrect (Practice.handleRate w now2 r2)
       == timesCorrect w + timesIncorrect w + 1
    /\ PracticeStats.totalReviews (Component.counters s')
       == PracticeStats.totalReviews c + 2.
Proof.
  intros w c store now1 now2 r1 r2 random. cbv zeta.
  cbn [Component.run fold_left Component.step].
  rewrite handleRate_alone, handleRestart_alone, handleRate_alone.
  cbn [Component.table Component.counters].
  repeat apply conj.
  - rewrite get_put. change (id (Practice.handleRate w now2 r2)) with (id w).
    now rewrite str_eqb_refl.
  - unfold Practice.handleRate. cbn [merge timesCorrect timesIncorrect].
    rewrite timesCorrect_next, timesIncorrect_next.
    destruct (remembered r2); lra.
  - unfold PracticeStats.count. cbn [PracticeStats.totalReviews]. lra.
Qed.

(** ** Words counted as learned *)

Lemma ratingCount_cons (e : Component.Event)
    (events : list Component.Event) :
  ratingCount (e :: events)
  == (if isRate e then 1 else 0) + ratingCount events.
Proof.
  unfold ratingCount. cbn [filter]. destruct (isRate e); [| lra].
  cbn [List.length]. rewrite Nat2Z.inj_succ, <- Z.add_1_l, inject_Z_plus.
  reflexivity.
Qed.

Lemma hard_session_counts (events : list Component.Event) :
  forall s : Component.Session,
    newWords (Component.words s) ->
    (Component.currentIndex s < List.length (Component.words s))%nat ->
    hardSession events ->
    PracticeStats.totalWordsLearned
      (Component.counters (Component.run s events))
    == PracticeStats.totalWordsLearned (Component.counters s)
       + ratingCount events
    /\ PracticeStats.totalReviews
         (Component.counters (Component.run s events))
       == PracticeStats.totalReviews (Component.counters s)
          + ratingCount events.
Proof.
  induction events as [| e events IH]; intros s Hn Hi Hh.
  - unfold ratingCount. cbn [Component.run fold_left filter List.length].
    change (inject_Z (Z.of_nat 0)) with 0. split; lra.
  - change (Component.run s (e :: events))
      with (Component.run (Component.step s e) events).
    inversion Hh as [| e' es He Hes]; subst.
    rewrite !ratingCount_cons.
    destruct e as [now r | random]; cbn [Component.step isRate].
    + subst r.
      assert (Hc : exists w : Word,
                 nth (Component.currentIndex s) (Component.words s) None
                 = Some w /\ repetitions w == 0).
      { unfold newWords in Hn. rewrite Forall_forall in Hn.
        destruct (Hn _ (nth_In (Component.words s) None Hi))
          as (w & E & R).
        exists w. split; assumption. }
      destruct Hc as (w & Ew & Rw).
      assert (S : Component.handleRate s now hard
                  = Component.mkSession
                      (Component.words s)
                      (if (List.length (Component.words s)
                           <=? Component.currentIndex s + 1)%nat
                       then Component.currentIndex s
                       else (Component.currentIndex s + 1)%nat)
                      (if (List.length (Component.words s)
                           <=? Component.currentIndex s + 1)%nat
                       then true else Component.finished s)
                      (PracticeStats.count w hard (Component.counters s))
                      (Component.put (Component.table s)
                                     (Practice.handleRate w now hard))).
      { unfold Component.handleRate. rewrite Ew. reflexivity. }
      rewrite S.
      match goal with
      | |- context [Component.run ?t events] =>
          destruct (IH t) as [L R]
      end.
      * exact Hn.
      * cbn [Component.words Component.currentIndex].
        destruct (Nat.leb_spec (List.length (Component.words s))
                               (Component.currentIndex s + 1)); lia.
      * exact Hes.
      * rewrite L, R. cbn [Component.counters].
        unfold PracticeStats.count.
        cbn [PracticeStats.totalWordsLearned PracticeStats.totalReviews
             PracticeStats.isCorrect andb].
        apply eqb_true in Rw. rewrite Rw. split; lra.
    + pose proof (shuffleLoop_permutation
                    None random
                    (List.length (Component.words s) - 1) He 0%nat
                    (Component.words s) ltac:(lia)) as P.
      destruct (IH (Component.handleRestart s random)) as [L R].
      * unfold newWords, Component.handleRestart. cbn [Component.words].
        eapply Permutation_Forall; [symmetry; exact P | exact Hn].
      * unfold Component.handleRestart.
        cbn [Component.words Component.currentIndex].
        apply Permutation_length in P.
        unfold PracticeLoad.shuffleArray. lia.
      * exact Hes.
      * rewrite L, R. unfold Component.handleRestart.
        cbn [Component.counters PracticeStats.totalWordsLearned
             PracticeStats.totalReviews]. split; lra.
Qed.

(** X15. A rating of hard counts a word as learned each time. In a session
    on new words (repetitions 0 as loaded), in which every rating is hard,
    the count of words learned grows by one with every rating, so by the
    number of ratings of the session, restarts and all, however few words
    there are; and every record the session changed is a word of the
    session stored with its repetitions still at 0, one review more in
    [timesIncorrect] than it was loaded with and none more in
    [timesCorrect]. *)
Theorem hard_counts_a_word_learned_each_time :
  forall (s : Component.Session) (events : list Component.Event)
         (key : jsstring),
    newWords (Component.words s) ->
    (Component.currentIndex s < List.length (Component.words s))%nat ->
    hardSession events ->
    let s' := Component.run s events in
    PracticeStats.totalWordsLearned (Component.counters s')
    == PracticeStats.totalWordsLearned (Component.counters s)
       + ratingCount events
    /\ (Component.get (Component.table s') key
        = Component.get (Component.table s) key
        \/ exists w stored : Word,
             In (Some w) (Component.words s) /\ id w = key
             /\ Component.get (Component.table s') key = Some stored
             /\ repetitions stored == 0
             /\ timesIncorrect stored == timesIncorrect w + 1
             /\ timesCorrect stored == timesCorrect w).
Proof.
  intros s events key Hn Hi Hh. cbv zeta.
  split; [exact (proj1 (hard_session_counts events s Hn Hi Hh)) |].
  destruct (proj2 (run_stores events s key))
    as [Ht | (w & now & r & Hw & Hk & He & Hg)]; [now left | right].
  unfold hardSession in Hh. rewrite Forall_forall in Hh.
  specialize (Hh _ He). cbn beta iota in Hh. subst r.
  exists w, (Practice.handleRate w now hard).
  repeat apply conj; auto; unfold Practice.handleRate;
    cbn [merge repetitions timesCorrect timesIncorrect];
    rewrite ?timesCorrect_next, ?timesIncorrect_next; cbn [remembered];
    try reflexivity; lra.
Qed.

Lemma hard_counts_a_word_learned_each_time_witness :
  PracticeStats.totalWordsLearned
    (Component.counters
       (Component.run
          (Component.mkSession [Some (newWord (str "Hond") (str "Chien") 0)]
                               0 false (PracticeStats.mkCounters 0 0 0 0) [])
          [Component.Rate 10 hard; Component.Restart (fun _ => 1 # 2);
           Component.Rate 20 hard]))
  == 2.
Proof.
  assert (N : newWords [Some (newWord (str "Hond") (str "Chien") 0)]).
  { constructor; [| constructor].
    exists (newWord (str "Hond") (str "Chien") 0). split; reflexivity. }
  assert (H : hardSession
                [Component.Rate 10 hard; Component.Restart (fun _ => 1 # 2);
                 Component.Rate 20 hard]).
  { constructor; [reflexivity |]. constructor; [| repeat constructor].
    intros call. split; [unfold Qle | unfold Qlt]; simpl; lia. }
  destruct (hard_counts_a_word_learned_each_time
              (Component.mkSession
                 [Some (newWord (str "Hond") (str "Chien") 0)]
                 0 false (PracticeStats.mkCounters 0 0 0 0) [])
              [Component.Rate 10 hard; Component.Restart (fun _ => 1 # 2);
               Component.Rate 20 hard]
              (str "id") N ltac:(cbn; lia) H) as [L _].
  rewrite L. reflexivity.
Defined.

(** ** The similarity of an answer *)

Lemma last_is_nth (l : list nat) (d : nat) :
  last l d = nth (List.length l - 1) l d.
Proof.
  induction l as [| a l IH]; [reflexivity |].
  destruct l as [| b l]; [reflexivity |].
  change (last (a :: b :: l) d) with (last (b :: l) d). rewrite IH.
  cbn [List.length Nat.sub nth]. now rewrite Nat.sub_0_r.
Qed.

Lemma fillRow_length (c1 : N) (s2 : jsstring) :
  forall (rowAbove : list nat) (left : nat),
    List.length rowAbove = S (List.length s2) ->
    List.length (Similarity.fillRow c1 s2 rowAbove left) = List.length s2.
Proof.
  induction s2 as [| c2 s2 IH]; intros rowAbove left H.
  - destruct rowAbove as [| d [| a r]]; reflexivity.
  - destruct rowAbove as [| d [| a r]]; cbn [List.length] in H; try lia.
    cbn [Similarity.fillRow List.length]. cbv zeta. rewrite IH; [lia |].
    cbn [List.length]. lia.
Qed.

(** A cell is at most its diagonal neighbour plus one, so a row is bounded
    by the larger of its two indices when the row above is. *)
Lemma fillRow_bounded (c1 : N) (i : nat) (s2 : jsstring) :
  forall (rowAbove : list nat) (left j : nat),
    (forall k, (k < List.length rowAbove)%nat ->
               (nth k rowAbove 0 <= Nat.max i (j + k))%nat) ->
    forall k, (k < List.length (Similarity.fillRow c1 s2 rowAbove left))%nat ->
              (nth k (Similarity.fillRow c1 s2 rowAbove left) 0
               <= Nat.max (S i) (S j + k))%nat.
Proof.
  induction s2 as [| c2 s2 IH]; intros rowAbove left j Hrow k Hk.
  - destruct rowAbove as [| d [| a r]]; cbn in Hk; lia.
  - destruct rowAbove as [| d [| a r]]; try (cbn in Hk; lia).
    cbn [Similarity.fillRow] in *. cbv zeta in *.
    destruct k as [| k].
    + cbn [nth]. pose proof (Hrow 0%nat ltac:(cbn; lia)) as H0.
      cbn [nth] in H0. destruct (c1 =? c2)%N; lia.
    + cbn [nth List.length] in Hk |- *.
      assert (Hrow' : forall k',
                 (k' < List.length (a :: r))%nat ->
                 (nth k' (a :: r) 0 <= Nat.max i (S j + k'))%nat).
      { intros k' Hk'. pose proof (Hrow (S k')) as H.
        cbn [nth List.length] in H, Hk'.
        replace (j + S k')%nat with (S j + k')%nat in H by lia.
        apply H. lia. }
      replace (S j + S k)%nat with (S (S j) + k)%nat by lia.
      apply (IH (a :: r) _ (S j) Hrow' k). lia.
Qed.

Lemma fillRows_bounded (s2 : jsstring) (s1 : jsstring) :
  forall (i : nat) (rowAbove : list nat),
    List.length rowAbove = S (List.length s2) ->
    (forall k, (k < List.length rowAbove)%nat ->
               (nth k rowAbove 0 <= Nat.max i k)%nat) ->
    List.length (Similarity.fillRows s1 s2 (S i) rowAbove)
    = S (List.length s2)
    /\ forall k,
         (k < S (List.length s2))%nat ->
         (nth k (Similarity.fillRows s1 s2 (S i) rowAbove) 0
          <= Nat.max (i + List.length s1) k)%nat.
Proof.
  induction s1 as [| c1 s1 IH]; intros i rowAbove Hlen Hrow.
  - cbn [Similarity.fillRows List.length]. rewrite Nat.add_0_r.
    split; [exact Hlen |]. intros k Hk. apply Hrow. lia.
  - cbn [Similarity.fillRows List.length].
    destruct (IH (S i) (S i :: Similarity.fillRow c1 s2 rowAbove (S i)))
      as [L B].
    + cbn [List.length]. now rewrite fillRow_length.
    + intros k Hk. destruct k as [| k]; [cbn [nth]; lia |].
      cbn [nth List.length] in *.
      pose proof (fillRow_bounded c1 i s2 rowAbove (S i) 0
                    (fun k' Hk' => Hrow k' Hk') k ltac:(lia)) as H.
      exact H.
    + split; [exact L |]. intros k Hk.
      replace (i + S (List.length s1))%nat with (S i + List.length s1)%nat
        by lia.
      now apply B.
Qed.

(** The distance is at most the length of the longer string. *)
Lemma distance_bounded (s1 s2 : jsstring) :
  (Similarity.distance s1 s2
   <= Nat.max (List.length s1) (List.length s2))%nat.
Proof.
  unfold Similarity.distance. rewrite last_is_nth.
  destruct (fillRows_bounded s2 s1 0 (seq 0 (S (List.length s2)))) as [L B].
  - now rewrite length_seq.
  - intros k Hk. rewrite length_seq in Hk. rewrite seq_nth by exact Hk. lia.
  - rewrite L. cbn [Nat.sub]. rewrite Nat.sub_0_r.
    apply (B (List.length s2)). lia.
Qed.

(** X24. The similarity of two answers is always between 0 and 1, and when
    the two normalized answers differ the longer one is not empty, so the
    division that gives the similarity is never by zero. *)
Theorem similarity_in_range :
  forall (u : Unicode) (nfd : jsstring -> jsstring) (a b : jsstring),
    0 <= Similarity.calculateSimilarity u nfd a b
    /\ Similarity.calculateSimilarity u nfd a b <= 1
    /\ (Str.eqb (Similarity.normalizeAnswer u nfd a)
                (Similarity.normalizeAnswer u nfd b) = true
        \/ (0 < Nat.max (List.length (Similarity.normalizeAnswer u nfd a))
                        (List.length (Similarity.normalizeAnswer u nfd b)))%nat).
Proof.
  intros u nfd a b. unfold Similarity.calculateSimilarity. cbv zeta.
  set (s1 := Similarity.normalizeAnswer u nfd a).
  set (s2 := Similarity.normalizeAnswer u nfd b).
  assert (P : Str.eqb s1 s2 = false ->
              (0 < Nat.max (List.length s1) (List.length s2))%nat).
  { intros E. destruct s1 as [| x s1], s2 as [| y s2]; cbn [List.length];
      try lia. rewrite str_eqb_refl in E. discriminate E. }
  destruct (Str.eqb s1 s2) eqn:E.
  - repeat apply conj; [lra | lra | left; reflexivity].
  - specialize (P eq_refl). pose proof (distance_bounded s1 s2) as D.
    set (m := Nat.max (List.length s1) (List.length s2)) in *.
    set (d := Similarity.distance s1 s2) in *.
    assert (M : 0 < inject_Z (Z.of_nat m)).
    { change 0 with (inject_Z 0). rewrite <- Zlt_Qlt. lia. }
    assert (D0 : 0 <= inject_Z (Z.of_nat d)).
    { change 0 with (inject_Z 0). rewrite <- Zle_Qle. lia. }
    assert (D1 : inject_Z (Z.of_nat d) <= inject_Z (Z.of_nat m)).
    { rewrite <- Zle_Qle. lia. }
    assert (Q0 : 0 <= inject_Z (Z.of_nat d) / inject_Z (Z.of_nat m))
      by (apply Qle_shift_div_l; [exact M | lra]).
    assert (Q1 : inject_Z (Z.of_nat d) / inject_Z (Z.of_nat m) <= 1)
      by (apply Qle_shift_div_r; [exact M | lra]).
    repeat apply conj; [lra | lra | right; exact P].
Qed.

(** X25. Two answers that are the same once normalized (lower case,
    trimmed, diacritics and punctuation removed) have similarity 1: the
    answer is shown as correct, rated easy, and the scheduler counts the
    review in [timesCorrect]. *)
Theorem same_answer_is_rated_easy :
  forall (u : Unicode) (nfd : jsstring -> jsstring) (a b : jsstring)
         (w : Word) (now : number),
    Similarity.normalizeAnswer u nfd a = Similarity.normalizeAnswer u nfd b ->
    let similarity := Similarity.calculateSimilarity u nfd a b in
    similarity == 1
    /\ TypingPractice.isCorrect similarity = true
    /\ TypingPractice.ratingOf similarity = easy
    /\ timesCorrect (Practice.handleRate w now
                       (TypingPractice.ratingOf similarity))
       == timesCorrect w + 1.
Proof.
  intros u nfd a b w now E similarity.
  assert (S : similarity = 1).
  { subst similarity. unfold Similarity.calculateSimilarity. cbv zeta.
    rewrite E, str_eqb_refl. reflexivity. }
  rewrite S. repeat apply conj; reflexivity.
Qed.

Lemma same_answer_is_rated_easy_witness :
  TypingPractice.ratingOf
    (Similarity.calculateSimilarity
       (mkUnicode (fun _ => false) (fun _ => false) (fun s => s))
       (fun s => s) (str " Le Chien! ") (str "le chien"))
  = easy.
Proof.
  apply (same_answer_is_rated_easy
           (mkUnicode (fun _ => false) (fun _ => false) (fun s => s))
           (fun s => s) (str " Le Chien! ") (str "le chien")
           seasonedWord 10).
  reflexivity.
Defined.

(** * The progress of the pipeline *)

Lemma logged_as_map (messages : list Pipeline.LoggerMessage) :
  Pipeline.logged messages
  = map (fun m => (Js.round (Pipeline.progress m * 100),
                   str "Tekst herkennen..."))
        (filter Pipeline.recognizing messages).
Proof.
  induction messages as [| m messages IH]; [reflexivity |].
  unfold Pipeline.logged in *. cbn [flat_map filter].
  destruct (Pipeline.recognizing m); cbn [app map]; now rewrite IH.
Qed.

Lemma logged_none (messages : list Pipeline.LoggerMessage) :
  Forall (fun m => Pipeline.recognizing m = false) messages ->
  Pipeline.logged messages = [].
Proof.
  induction 1 as [| m messages H _ IH]; [reflexivity |].
  unfold Pipeline.logged in *. cbn [flat_map]. now rewrite H, IH.
Qed.

Lemma percent_in_range (p : number) :
  0 <= p -> p <= 1 -> 0 <= Js.round (p * 100) /\ Js.round (p * 100) <= 100.
Proof.
  intros H0 H1. split.
  - apply round_nonneg. nra.
  - apply Qle_trans with (Js.round 100); [| vm_compute; discriminate].
    apply round_mono. nra.
Qed.

Lemma logged_in_range (messages : list Pipeline.LoggerMessage) :
  Forall (fun m => 0 <= Pipeline.progress m /\ Pipeline.progress m <= 1)
         messages ->
  Forall (fun report => 0 <= fst report /\ fst report <= 100)
         (Pipeline.logged messages).
Proof.
  intros H. rewrite logged_as_map. apply Forall_map.
  apply Forall_forall. intros m Hm. apply filter_In in Hm.
  destruct Hm as [Hm _]. rewrite Forall_forall in H.
  destruct (H m Hm) as [H0 H1]. cbn [fst]. now apply percent_in_range.
Qed.

Lemma performOCR_in_range (r : Pipeline.Recognition) :
  Forall (fun m => 0 <= Pipeline.progress m /\ Pipeline.progress m <= 1)
         (Pipeline.whileCreating r ++ Pipeline.whileRecognizing r
          ++ Pipeline.whileTerminating r) ->
  Forall (fun report => 0 <= fst report /\ fst report <= 100)
         (fst (Pipeline.performOCR r)).
Proof.
  intros H. apply Forall_app in H. destruct H as [Hc H].
  apply Forall_app in H. destruct H as [Hr Ht].
  unfold Pipeline.performOCR. cbn [fst].
  apply Forall_app. split; [now apply logged_in_range |].
  constructor; [cbn; split; lra |].
  apply Forall_app. split; [now apply logged_in_range |].
  constructor; [cbn; split; lra | now apply logged_in_range].
Qed.

(** X26. In a run that succeeds, when the recognition worker reports
    progress between 0 and 1, every progress [processImage] passes on lies
    between 0 and 100; its first report is 0 and its last is 100 with
    "Voltooid"; "Voltooid" is also reported earlier, at 90, before the step
    "Woordparen herkennen..." at 95; and the result is the extraction of the
    recognized text. *)
Theorem processImage_progress_in_range :
  forall (u : Unicode) (store : Ocr.Store) (r : Pipeline.Recognition),
    Forall (fun m => 0 <= Pipeline.progress m /\ Pipeline.progress m <= 1)
           (Pipeline.whileCreating r ++ Pipeline.whileRecognizing r
            ++ Pipeline.whileTerminating r) ->
    let '(reports, result, _) := Pipeline.processImage u store r in
    Forall (fun report => 0 <= fst report /\ fst report <= 100) reports
    /\ hd_error reports = Some (0, str "Afbeelding voorbereiden...")
    /\ last reports (0, []) = (100, str "Voltooid")
    /\ (exists (p : number) (before after : list (number * jsstring)),
          reports = before ++ [(p, str "Voltooid")] ++ after
          /\ p == 90
          /\ In (95, str "Woordparen herkennen...") after)
    /\ result = fst (Ocr.parseWordPairs u store (Pipeline.text r)).
Proof.
  intros u store r H. pose proof (performOCR_in_range r H) as F.
  unfold Pipeline.processImage, Pipeline.performOCR in *.
  cbn [fst] in F.
  destruct (Ocr.parseWordPairs u store (Pipeline.text r)) as [result store'].
  cbn [fst]. repeat apply conj.
  - constructor; [cbn; split; lra |].
    constructor; [cbn; split; lra |].
    apply Forall_app. split.
    + apply Forall_map. eapply Forall_impl; [| exact F].
      intros [p s] [P0 P1]. cbn [fst] in *. split; lra.
    + repeat constructor; cbn; lra.
  - reflexivity.
  - rewrite !app_assoc. apply last_last.
  - match goal with |- context [map ?f _] => set (scale := f) end.
    exists (10 + 100 * 0.8).
    exists ([(0, str "Afbeelding voorbereiden...")]
            ++ [(10, str "OCR starten...")]
            ++ map scale (Pipeline.logged (Pipeline.whileCreating r))
            ++ [(10 + 0 * 0.8, str "OCR starten...")]
            ++ map scale (Pipeline.logged (Pipeline.whileRecognizing r))).
    exists (map scale (Pipeline.logged (Pipeline.whileTerminating r))
            ++ [(95, str "Woordparen herkennen...")]
            ++ [(100, str "Voltooid")]).
    repeat apply conj.
    + rewrite !map_app. cbn [map]. rewrite <- !app_assoc. reflexivity.
    + vm_compute. reflexivity.
    + apply in_or_app. right. left. reflexivity.
  - reflexivity.
Qed.

Lemma processImage_progress_in_range_witness :
  let r := Pipeline.mkRecognition
             [Pipeline.mkMessage (str "loading tesseract core") 1]
             [Pipeline.mkMessage (str "recognizing text") 0.25;
              Pipeline.mkMessage (str "recognizing text") 1]
             []
             (str "huis - maison") in
  Forall (fun m => 0 <= Pipeline.progress m /\ Pipeline.progress m <= 1)
         (Pipeline.whileCreating r ++ Pipeline.whileRecognizing r
          ++ Pipeline.whileTerminating r)
  /\ last (fst (fst (Pipeline.processImage
                       (mkUnicode (fun _ => false) (fun _ => false)
                                  (fun s => s))
                       Ocr.initialStore r)))
          (0, [])
     = (100, str "Voltooid").
Proof.
  intros r.
  assert (H : Forall (fun m => 0 <= Pipeline.progress m
                               /\ Pipeline.progress m <= 1)
                     (Pipeline.whileCreating r ++ Pipeline.whileRecognizing r
                      ++ Pipeline.whileTerminating r)).
  { repeat constructor; vm_compute; discriminate. }
  split; [exact H |].
  pose proof (processImage_progress_in_range
                (mkUnicode (fun _ => false) (fun _ => false) (fun s => s))
                Ocr.initialStore r H) as P.
  destruct (Pipeline.processImage _ _ r) as [[reports result] store'].
  cbn [fst]. apply P.
Defined.

(** ** The progress never goes back *)

Lemma sorted_then_last (l : list number) (hi : number) :
  StronglySorted Qle l -> Forall (fun p => p <= hi) l ->
  StronglySorted Qle (l ++ [hi]).
Proof.
  induction 1 as [| p l S IH F]; intros B; cbn [app].
  - repeat constructor.
  - inversion B as [| ? ? Bp Bl]; subst. constructor; [now apply IH |].
    apply Forall_app. split; [exact F | repeat constructor; exact Bp].
Qed.

Lemma sorted_map (f : number -> number) (l : list number) :
  (forall p q : number, p <= q -> f p <= f q) ->
  StronglySorted Qle l -> StronglySorted Qle (map f l).
Proof.
  intros M. induction 1 as [| p l S IH F]; cbn [map]; constructor.
  - exact IH.
  - apply Forall_map. eapply Forall_impl; [| exact F].
    intros q Hq. now apply M.
Qed.

Lemma logged_sorted (messages : list Pipeline.LoggerMessage) :
  StronglySorted (fun a b => Pipeline.progress a <= Pipeline.progress b)
                 (filter Pipeline.recognizing messages) ->
  StronglySorted Qle (map fst (Pipeline.logged messages)).
Proof.
  rewrite logged_as_map, map_map. cbn [fst].
  induction 1 as [| m l S IH F]; cbn [map]; constructor.
  - exact IH.
  - apply Forall_map. eapply Forall_impl; [| exact F].
    intros m' Hm'. cbn beta in Hm' |- *. apply round_mono. lra.
Qed.

Lemma scaled_fst (reports : list (number * jsstring)) :
  map fst (map (fun '(progress, status) => (10 + progress * 0.8, status))
               reports)
  = map (fun progress => 10 + progress * 0.8) (map fst reports).
Proof.
  rewrite !map_map. apply map_ext. intros [p s]. reflexivity.
Qed.

Lemma processImage_progress_list (u : Unicode) (store : Ocr.Store)
    (r : Pipeline.Recognition) :
  map fst (fst (fst (Pipeline.processImage u store r)))
  = 0 :: 10 :: map (fun progress => 10 + progress * 0.8)
                   (map fst (fst (Pipeline.performOCR r)))
      ++ [95; 100].
Proof.
  unfold Pipeline.processImage.
  destruct (Pipeline.performOCR r) as [reports rawText].
  destruct (Ocr.parseWordPairs u store rawText) as [result store'].
  cbn [fst]. rewrite !map_app. cbn [map fst app]. rewrite scaled_fst.
  reflexivity.
Qed.

(** X27. In a run that succeeds, when the worker logs recognition progress
    only while it recognizes, with values between 0 and 1 that never
    decrease, the progress [processImage] passes on never goes back. *)
Theorem processImage_progress_never_goes_back :
  forall (u : Unicode) (store : Ocr.Store) (r : Pipeline.Recognition),
    Forall (fun m => Pipeline.recognizing m = false)
           (Pipeline.whileCreating r ++ Pipeline.whileTerminating r) ->
    Forall (fun m => 0 <= Pipeline.progress m /\ Pipeline.progress m <= 1)
           (Pipeline.whileRecognizing r) ->
    StronglySorted (fun a b => Pipeline.progress a <= Pipeline.progress b)
                   (filter Pipeline.recognizing (Pipeline.whileRecognizing r)) ->
    StronglySorted Qle
      (map fst (fst (fst (Pipeline.processImage u store r)))).
Proof.
  intros u store r Hn Hr Hs.
  apply Forall_app in Hn. destruct Hn as [Hc Ht].
  rewrite processImage_progress_list.
  unfold Pipeline.performOCR. cbn [fst].
  rewrite (logged_none _ Hc), (logged_none _ Ht).
  rewrite app_nil_r. cbn [app].
  pose proof (logged_sorted _ Hs) as S.
  pose proof (logged_in_range _ Hr) as F.
  set (l := Pipeline.logged (Pipeline.whileRecognizing r)) in *.
  assert (F' : Forall (fun p => 0 <= p /\ p <= 100) (map fst l)).
  { apply Forall_map. exact F. }
  clearbody l. cbn [map fst]. rewrite (map_app fst). cbn [map fst].
  set (progresses := map fst l) in *. clearbody progresses.
  set (g := fun progress : number => 10 + progress * 0.8).
  assert (G : forall p q : number, p <= q -> g p <= g q)
    by (intros p q Hpq; unfold g; lra).
  assert (I : StronglySorted Qle (0 :: progresses ++ [100])).
  { constructor.
    - apply sorted_then_last; [exact S |].
      eapply Forall_impl; [| exact F']. intros p [P0 P1]. exact P1.
    - apply Forall_app. split.
      + eapply Forall_impl; [| exact F']. intros p [P0 P1]. exact P0.
      + constructor; [lra | constructor]. }
  assert (B : Forall (fun p => 0 <= p /\ p <= 100)
                     (0 :: progresses ++ [100])).
  { constructor; [split; lra |]. apply Forall_app. split; [exact F' |].
    constructor; [split; lra | constructor]. }
  pose (inner := map g (0 :: progresses ++ [100])).
  assert (I' : StronglySorted Qle inner) by exact (sorted_map g _ G I).
  assert (B' : Forall (fun p => 10 <= p /\ p <= 90) inner).
  { apply Forall_map. eapply Forall_impl; [| exact B].
    intros p [P0 P1]. unfold g. split; lra. }
  change (StronglySorted Qle (0 :: 10 :: inner ++ [95; 100])).
  clearbody inner. clear I. rename I' into I.
  assert (T : StronglySorted Qle ((inner ++ [95]) ++ [100])).
  { apply sorted_then_last.
    - apply sorted_then_last; [exact I |].
      eapply Forall_impl; [| exact B']. intros p Hp. cbn beta in Hp. lra.
    - apply Forall_app. split.
      + eapply Forall_impl; [| exact B']. intros p Hp. cbn beta in Hp. lra.
      + constructor; [lra | constructor]. }
  rewrite <- app_assoc in T. cbn [app] in T.
  assert (A : Forall (fun p => 10 <= p) (inner ++ [95; 100])).
  { apply Forall_app. split.
    - eapply Forall_impl; [| exact B']. intros p Hp. cbn beta in Hp. lra.
    - constructor; [lra | constructor; [lra | constructor]]. }
  constructor; [constructor; [exact T | exact A] |].
  constructor; [lra |].
  eapply Forall_impl; [| exact A]. intros p Hp. cbn beta in Hp. lra.
Qed.

Lemma processImage_progress_never_goes_back_witness :
  let r := Pipeline.mkRecognition
             [Pipeline.mkMessage (str "loading tesseract core") 1]
             [Pipeline.mkMessage (str "recognizing text") 0.25;
              Pipeline.mkMessage (str "recognizing text") 1]
             []
             (str "huis - maison") in
  map fst (fst (fst (Pipeline.processImage
                       (mkUnicode (fun _ => false) (fun _ => false)
                                  (fun s => s))
                       Ocr.initialStore r)))
  = [0; 10; 10 + 0 * 0.8; 10 + 25 * 0.8; 10 + 100 * 0.8; 10 + 100 * 0.8;
     95; 100]
  /\ StronglySorted Qle
       [0; 10; 10 + 0 * 0.8; 10 + 25 * 0.8; 10 + 100 * 0.8; 10 + 100 * 0.8;
        95; 100].
Proof.
  intros r.
  assert (E : map fst (fst (fst (Pipeline.processImage
                       (mkUnicode (fun _ => false) (fun _ => false)
                                  (fun s => s))
                       Ocr.initialStore r)))
              = [0; 10; 10 + 0 * 0.8; 10 + 25 * 0.8; 10 + 100 * 0.8;
                 10 + 100 * 0.8; 95; 100])
    by (vm_compute; reflexivity).
  split; [exact E |]. rewrite <- E.
  apply (processImage_progress_never_goes_back
           (mkUnicode (fun _ => false) (fun _ => false) (fun s => s))
           Ocr.initialStore r).
  - repeat constructor.
  - repeat constructor; vm_compute; discriminate.
  - repeat constructor; vm_compute; discriminate.
Defined.
